(** * tatianusPDF: the conversion job pipeline

    A shallow embedding of the server side of the repository: the in-memory
    store ([MemStorage]), the converter ([processFile]), the orchestrator
    ([processJob]) and the HTTP handlers of [server/routes.ts], then the
    single-file variant of the storage and the routes and the serverless
    handlers of [api/index.ts], followed by the properties of the job/file
    state machine and of the other routes.

    Conventions.
    - JavaScript numbers that hold ids, sizes, percentages and timestamps are
      [Z]; [Date] values are their epoch milliseconds.
    - The [status] columns are text in the schema; the four values the code
      ever writes and compares against (pending, processing, completed,
      failed) are the constructors of [Status].
    - [null] and [undefined] of a nullable column are both [None].
    - The two [Map<number, _>] of [MemStorage] are [gmap Z _].  A JavaScript
      [Map] iterates in the order in which its keys were first set; the
      keys of [MemStorage] come from counters that only grow and no key is
      ever removed, so this is the order of the keys, and
      [getPdfFilesByJobId] lists the files by ascending key.
    - Strings are sequences of bytes, the UTF-8 encoding of the JavaScript
      string; the code looks at ASCII characters only, which are one byte
      each.
    - [activeJobs] (a module-level tracking map in routes.ts that no route
      reads back) and console logging are left out. *)

From stdpp Require Import gmap strings list pretty sorting.
From Stdlib Require Import ZArith Lia Ascii.

Local Open Scope Z_scope.

(** ** Data model (shared/schema.ts) *)

Inductive Status : Set := pending | processing | completed | failed.

#[global] Instance Status_eq_dec : EqDecision Status.
Proof. solve_decision. Defined.

(** [status === 'completed' || status === 'failed'] *)
Definition isTerminal (s : Status) : bool :=
  bool_decide (s = completed) || bool_decide (s = failed).

Record ConversionOptions : Set := {
  applyOcr : bool;
  verifyCompliance : bool;
  optimizeSize : bool
}.

Module PdfJob.
Record t : Set := mk {
  id : Z;
  status : Status;
  createdAt : Z;
  completedAt : option Z;
  options : ConversionOptions
}.
End PdfJob.

Module PdfFile.
Record t : Set := mk {
  id : Z;
  jobId : Z;
  originalName : string;
  originalSize : Z;
  convertedName : option string;
  convertedSize : option Z;
  status : Status;
  error : option string;
  isPdfA : bool;
  hasOcr : bool;
  progress : Z;
  storagePath : option string;
  downloadUrl : option string
}.
End PdfFile.

(** [InsertPdfJob]: the job columns without id, createdAt and completedAt. *)
Module InsertPdfJob.
Record t : Set := mk {
  status : Status;
  options : ConversionOptions
}.
End InsertPdfJob.

(** [InsertPdfFile]: every file column but the id.  The columns that
    [createPdfFile] overwrites may still be supplied by the caller. *)
Module InsertPdfFile.
Record t : Set := mk {
  jobId : Z;
  originalName : string;
  originalSize : Z;
  convertedName : option string;
  convertedSize : option Z;
  status : Status;
  error : option string;
  isPdfA : option bool;
  hasOcr : option bool;
  progress : option Z;
  storagePath : option string;
  downloadUrl : option string
}.
End InsertPdfFile.

(** [Partial<PdfJob>]: a field is [Some v] when the update object has it. *)
Module PartialPdfJob.
Record t : Set := mk {
  id : option Z;
  status : option Status;
  createdAt : option Z;
  completedAt : option (option Z);
  options : option ConversionOptions
}.
Definition none : t := mk None None None None None.
End PartialPdfJob.

(** [Partial<PdfFile>] *)
Module PartialPdfFile.
Record t : Set := mk {
  id : option Z;
  jobId : option Z;
  originalName : option string;
  originalSize : option Z;
  convertedName : option (option string);
  convertedSize : option (option Z);
  status : option Status;
  error : option (option string);
  isPdfA : option bool;
  hasOcr : option bool;
  progress : option Z;
  storagePath : option (option string);
  downloadUrl : option (option string)
}.
Definition none : t :=
  mk None None None None None None None None None None None None None.
End PartialPdfFile.

(** [{ ...job, ...updates }] *)
Definition spreadJob (job : PdfJob.t) (updates : PartialPdfJob.t) : PdfJob.t :=
  {| PdfJob.id := default (PdfJob.id job) (PartialPdfJob.id updates);
     PdfJob.status := default (PdfJob.status job) (PartialPdfJob.status updates);
     PdfJob.createdAt := default (PdfJob.createdAt job) (PartialPdfJob.createdAt updates);
     PdfJob.completedAt := default (PdfJob.completedAt job) (PartialPdfJob.completedAt updates);
     PdfJob.options := default (PdfJob.options job) (PartialPdfJob.options updates) |}.

(** [{ ...file, ...updates }] *)
Definition spreadFile (file : PdfFile.t) (updates : PartialPdfFile.t) : PdfFile.t :=
  {| PdfFile.id := default (PdfFile.id file) (PartialPdfFile.id updates);
     PdfFile.jobId := default (PdfFile.jobId file) (PartialPdfFile.jobId updates);
     PdfFile.originalName := default (PdfFile.originalName file) (PartialPdfFile.originalName updates);
     PdfFile.originalSize := default (PdfFile.originalSize file) (PartialPdfFile.originalSize updates);
     PdfFile.convertedName := default (PdfFile.convertedName file) (PartialPdfFile.convertedName updates);
     PdfFile.convertedSize := default (PdfFile.convertedSize file) (PartialPdfFile.convertedSize updates);
     PdfFile.status := default (PdfFile.status file) (PartialPdfFile.status updates);
     PdfFile.error := default (PdfFile.error file) (PartialPdfFile.error updates);
     PdfFile.isPdfA := default (PdfFile.isPdfA file) (PartialPdfFile.isPdfA updates);
     PdfFile.hasOcr := default (PdfFile.hasOcr file) (PartialPdfFile.hasOcr updates);
     PdfFile.progress := default (PdfFile.progress file) (PartialPdfFile.progress updates);
     PdfFile.storagePath := default (PdfFile.storagePath file) (PartialPdfFile.storagePath updates);
     PdfFile.downloadUrl := default (PdfFile.downloadUrl file) (PartialPdfFile.downloadUrl updates) |}.

(** ** The store: class MemStorage *)

(** What a call gives back: a value, or the message of the [Error] thrown. *)
Inductive Result (A : Type) : Type :=
| Ok (a : A)
| Thrown (message : string).
Arguments Ok {A} a.
Arguments Thrown {A} message.

Record MemStorage : Set := {
  jobs : gmap Z PdfJob.t;
  files : gmap Z PdfFile.t;
  jobCurrentId : Z;
  fileCurrentId : Z
}.

(** [constructor()] *)
Definition newMemStorage : MemStorage :=
  {| jobs := ∅; files := ∅; jobCurrentId := 1; fileCurrentId := 1 |}.

Definition getPdfJob (id : Z) (s : MemStorage) : option PdfJob.t :=
  jobs s !! id.

(** [now] is the value of [new Date()] inside the method. *)
Definition createPdfJob (now : Z) (job : InsertPdfJob.t) (s : MemStorage)
  : PdfJob.t * MemStorage :=
  let id := jobCurrentId s in
  let newJob :=
    {| PdfJob.id := id;
       PdfJob.status := InsertPdfJob.status job;
       PdfJob.createdAt := now;
       PdfJob.completedAt := None;
       PdfJob.options := InsertPdfJob.options job |} in
  (newJob,
   {| jobs := <[id := newJob]> (jobs s); files := files s;
      jobCurrentId := id + 1; fileCurrentId := fileCurrentId s |}).

Definition updatePdfJob (id : Z) (updates : PartialPdfJob.t) (s : MemStorage)
  : Result PdfJob.t * MemStorage :=
  match jobs s !! id with
  | None => (Thrown ("Job with id " +:+ pretty id +:+ " not found"), s)
  | Some job =>
      let updatedJob := spreadJob job updates in
      (Ok updatedJob,
       {| jobs := <[id := updatedJob]> (jobs s); files := files s;
          jobCurrentId := jobCurrentId s; fileCurrentId := fileCurrentId s |})
  end.

Definition getPdfFile (id : Z) (s : MemStorage) : option PdfFile.t :=
  files s !! id.

Definition createPdfFile (file : InsertPdfFile.t) (s : MemStorage)
  : PdfFile.t * MemStorage :=
  let id := fileCurrentId s in
  let newFile :=
    {| PdfFile.id := id;
       PdfFile.jobId := InsertPdfFile.jobId file;
       PdfFile.originalName := InsertPdfFile.originalName file;
       PdfFile.originalSize := InsertPdfFile.originalSize file;
       PdfFile.convertedName := None;
       PdfFile.convertedSize := None;
       PdfFile.status := InsertPdfFile.status file;
       PdfFile.error := None;
       PdfFile.isPdfA := false;
       PdfFile.hasOcr := false;
       PdfFile.progress := 0;
       PdfFile.storagePath := InsertPdfFile.storagePath file;
       PdfFile.downloadUrl := None |} in
  (newFile,
   {| jobs := jobs s; files := <[id := newFile]> (files s);
      jobCurrentId := jobCurrentId s; fileCurrentId := id + 1 |}).

Definition updatePdfFile (id : Z) (updates : PartialPdfFile.t) (s : MemStorage)
  : Result PdfFile.t * MemStorage :=
  match files s !! id with
  | None => (Thrown ("File with id " +:+ pretty id +:+ " not found"), s)
  | Some file =>
      let updatedFile := spreadFile file updates in
      (Ok updatedFile,
       {| jobs := jobs s; files := <[id := updatedFile]> (files s);
          jobCurrentId := jobCurrentId s; fileCurrentId := fileCurrentId s |})
  end.

(** The order of the entries of a [Map<number, _>]: by key. *)
Definition byKey {A : Type} (a b : Z * A) : Prop := a.1 ≤ b.1.

#[global] Instance byKey_dec {A : Type} (a b : Z * A) : Decision (byKey a b) :=
  decide (a.1 ≤ b.1).

(** [Array.from(map.entries())] *)
Definition mapEntries {A : Type} (m : gmap Z A) : list (Z * A) :=
  merge_sort byKey (map_to_list m).

(** [Array.from(this.files.values()).filter(file => file.jobId === jobId)] *)
Definition getPdfFilesByJobId (jobId : Z) (s : MemStorage) : list PdfFile.t :=
  filter (λ file, PdfFile.jobId file = jobId) (mapEntries (files s)).*2.

(** Stores that the public methods can build from [new MemStorage()]. *)
Inductive storage_reachable : MemStorage → Prop :=
| reach_new : storage_reachable newMemStorage
| reach_createPdfJob now job s :
    storage_reachable s → storage_reachable (createPdfJob now job s).2
| reach_updatePdfJob id updates s :
    storage_reachable s → storage_reachable (updatePdfJob id updates s).2
| reach_createPdfFile file s :
    storage_reachable s → storage_reachable (createPdfFile file s).2
| reach_updatePdfFile id updates s :
    storage_reachable s → storage_reachable (updatePdfFile id updates s).2.

(** Every key in use lies below the counter that hands out the next id. *)
Definition ids_below_counters (s : MemStorage) : Prop :=
  (∀ k, is_Some (jobs s !! k) → k < jobCurrentId s) ∧
  (∀ k, is_Some (files s !! k) → k < fileCurrentId s).

(** ** Asynchronous code

    An [async] function is a tree of the calls it awaits.  Every constructor
    [Await] is one call into the store or into the outside world, with the
    continuation for its value and the continuation for the error it throws;
    the point after it is where the event loop may run something else.
    [Spawn] starts an [async] function without awaiting it.  Everything the
    code throws is an [Error], so an exception is its message.  Logging
    ([console.log], [log], [cleanupJob]) and the [activeJobs] map, a copy
    of the progress that no route reads, are left out. *)

Inductive Tool : Set := OcrMyPdf | Ghostscript.

Inductive Op : Set :=
| StGetPdfJob (id : Z)
| StCreatePdfJob (job : InsertPdfJob.t)
| StUpdatePdfJob (id : Z) (updates : PartialPdfJob.t)
| StGetPdfFile (id : Z)
| StCreatePdfFile (file : InsertPdfFile.t)
| StUpdatePdfFile (id : Z) (updates : PartialPdfFile.t)
| StGetPdfFilesByJobId (jobId : Z)
| DateNow
| SetTimeout (ms : Z)
| Exec (tool : Tool) (input output : string)
| ExistsSync (path : string)
| StatSync (path : string)
| PdfKitWrite (path : string)
| RenameSync (oldPath newPath : string)
| CopyFileSync (src dest : string).

(** The type of the value a call resolves to. *)
Definition Ret (op : Op) : Set :=
  match op with
  | StGetPdfJob _ => option PdfJob.t
  | StCreatePdfJob _ => PdfJob.t
  | StUpdatePdfJob _ _ => PdfJob.t
  | StGetPdfFile _ => option PdfFile.t
  | StCreatePdfFile _ => PdfFile.t
  | StUpdatePdfFile _ _ => PdfFile.t
  | StGetPdfFilesByJobId _ => list PdfFile.t
  | DateNow => Z
  | SetTimeout _ => unit
  | Exec _ _ _ => unit
  | ExistsSync _ => bool
  | StatSync _ => Z
  | PdfKitWrite _ => unit
  | RenameSync _ _ => unit
  | CopyFileSync _ _ => unit
  end.

(** What the clock, the file system and the external tools answer.  The
    promise that waits for the PDFKit document to be written resolves on
    [finish] and has nothing that rejects it: a write stream that fails
    raises an [error] event without a listener, which ends the process, so
    [PdfKitWrite] has no failure to hand to a [catch]. *)
Record World : Type := {
  now : Z;
  exec_ok : Tool → string → string → bool;
  existsSync : string → bool;
  statSync : string → option Z;
  renameSync_ok : string → string → bool;
  copyFileSync_ok : string → string → bool
}.

Definition okOrThrow (ok : bool) (message : string) : Result unit :=
  if ok then Ok tt else Thrown message.

Definition run_op (w : World) (op : Op) (s : MemStorage)
  : Result (Ret op) * MemStorage :=
  match op return Result (Ret op) * MemStorage with
  | StGetPdfJob id => (Ok (getPdfJob id s), s)
  | StCreatePdfJob job =>
      let r := createPdfJob (now w) job s in (Ok r.1, r.2)
  | StUpdatePdfJob id updates => updatePdfJob id updates s
  | StGetPdfFile id => (Ok (getPdfFile id s), s)
  | StCreatePdfFile file =>
      let r := createPdfFile file s in (Ok r.1, r.2)
  | StUpdatePdfFile id updates => updatePdfFile id updates s
  | StGetPdfFilesByJobId jobId => (Ok (getPdfFilesByJobId jobId s), s)
  | DateNow => (Ok (now w), s)
  | SetTimeout _ => (Ok tt, s)
  | Exec tool input output =>
      (okOrThrow (exec_ok w tool input output) "Command failed", s)
  | ExistsSync path => (Ok (existsSync w path), s)
  | StatSync path =>
      (match statSync w path with
       | Some size => Ok size
       | None => Thrown "ENOENT: no such file or directory"
       end, s)
  | PdfKitWrite _ => (Ok tt, s)
  | RenameSync oldPath newPath =>
      (okOrThrow (renameSync_ok w oldPath newPath) "rename failed", s)
  | CopyFileSync src dest =>
      (okOrThrow (copyFileSync_ok w src dest) "copy failed", s)
  end.

Inductive Task (A : Type) : Type :=
| Return (a : A)
| Throw (message : string)
| Await (op : Op) (k : Ret op → Task A) (h : string → Task A)
| Spawn (child : Task unit) (k : Task A).
Arguments Return {A} a.
Arguments Throw {A} message.
Arguments Await {A} op k h.
Arguments Spawn {A} child k.

(** [await f(...)] *)
Definition call (op : Op) : Task (Ret op) := Await op Return Throw.

Fixpoint bind {A B : Type} (t : Task A) (f : A → Task B) : Task B :=
  match t with
  | Return a => f a
  | Throw message => Throw message
  | Await op k h => Await op (λ r, bind (k r) f) (λ e, bind (h e) f)
  | Spawn child k => Spawn child (bind k f)
  end.

(** [try { t } catch (error) { handler error }] *)
Fixpoint try_catch {A : Type} (t : Task A) (handler : string → Task A) : Task A :=
  match t with
  | Return a => Return a
  | Throw message => handler message
  | Await op k h =>
      Await op (λ r, try_catch (k r) handler) (λ e, try_catch (h e) handler)
  | Spawn child k => Spawn child (try_catch k handler)
  end.

#[global] Instance Task_ret : MRet Task := @Return.
#[global] Instance Task_bind : MBind Task := λ A B f t, bind t f.

(** [const x = await t; k] *)
Notation "'let*' x ':=' t 'in' k" := (bind t (λ x, k))
  (at level 10, x name, t at level 100, k at level 200).

(** [for (const x of l) { await body(x) }] *)
Fixpoint forEach {X : Type} (l : list X) (body : X → Task unit) : Task unit :=
  match l with
  | [] => Return tt
  | x :: rest => body x ;; forEach rest body
  end.

(** Running a task with nothing else in between, every call answered by the
    same world.  Functions started with [Spawn] are left to the scheduler. *)
Fixpoint run {A : Type} (w : World) (t : Task A) (s : MemStorage)
  : Result A * MemStorage :=
  match t with
  | Return a => (Ok a, s)
  | Throw message => (Thrown message, s)
  | Await op k h =>
      match run_op w op s with
      | (Ok r, s') => run w (k r) s'
      | (Thrown e, s') => run w (h e) s'
      end
  | Spawn _ k => run w k s
  end.

(** ** Names and paths (lib/utils/file-utils.ts, node:path) *)

Definition toLowerChar (c : ascii) : ascii :=
  let n := nat_of_ascii c in
  if ((65 <=? n) && (n <=? 90))%nat then ascii_of_nat (n + 32) else c.

(** [s.toLowerCase()], on the ASCII letters. *)
Definition toLowerCase (s : string) : string :=
  String.string_of_list_ascii (toLowerChar <$> String.list_ascii_of_string s).

(** [s.endsWith(suffix)] *)
Definition endsWith (s suffix : string) : bool :=
  let n := String.length s in
  let m := String.length suffix in
  ((m <=? n)%nat && String.eqb (String.substring (n - m) m s) suffix)%bool.

(** [originalFilename.replace(/\.pdf$/i, '') + '_PDFA2u.pdf'] *)
Definition generatePdfaFilename (originalFilename : string) : string :=
  let baseName :=
    if endsWith (toLowerCase originalFilename) ".pdf"
    then String.substring 0 (String.length originalFilename - 4) originalFilename
    else originalFilename in
  baseName +:+ "_PDFA2u.pdf".

(** [isPdfFile(file)] of lib/utils/file-utils.ts, the check of the client,
    on [file.type] and [file.name]. *)
Definition isPdfFile (type name : string) : bool :=
  String.eqb type "application/pdf" || endsWith (toLowerCase name) ".pdf".

(** [p.split('/')] *)
Fixpoint segments (p : string) : list string :=
  match p with
  | EmptyString => [EmptyString]
  | String c rest =>
      if Ascii.eqb c "/" then EmptyString :: segments rest
      else match segments rest with
           | [] => [String c EmptyString]
           | segment :: more => String c segment :: more
           end
  end.

(** One segment in [normalizeString]: an empty segment and [.] are dropped,
    [..] takes the last segment back unless there is none or it is [..]
    itself, in which case it is kept when the path is relative.  The
    segments kept so far are held last first. *)
Definition normalizeSegment (allowAboveRoot : bool) (kept : list string) (segment : string)
  : list string :=
  if String.eqb segment "" || String.eqb segment "." then kept
  else if String.eqb segment ".." then
    match kept with
    | top :: below =>
        if String.eqb top ".." then (if allowAboveRoot then segment :: kept else kept)
        else below
    | [] => if allowAboveRoot then [segment] else []
    end
  else segment :: kept.

(** [path.normalize(p)] of node:path, POSIX. *)
Definition normalize (p : string) : string :=
  if String.eqb p "" then "."
  else
    let isAbsolute := String.prefix "/" p in
    let trailingSeparator := endsWith p "/" in
    let res :=
      String.concat "/"
        (reverse (foldl (normalizeSegment (negb isAbsolute)) [] (segments p))) in
    if String.eqb res "" then
      if isAbsolute then "/" else if trailingSeparator then "./" else "."
    else
      let res := if trailingSeparator then res +:+ "/" else res in
      if isAbsolute then "/" +:+ res else res.

(** [path.join(dir, name)] of node:path, POSIX: the arguments that are not
    empty, joined by a separator, then normalised. *)
Definition path_join (dir name : string) : string :=
  normalize (if String.eqb dir "" then name
             else if String.eqb name "" then dir
             else dir +:+ "/" +:+ name).

(** [path.basename(p)]: the last segment that is not empty. *)
Definition basename (p : string) : string :=
  default "" (last (filter (λ segment, segment ≠ "") (segments p))).

Definition uploadDir : string := "tmp/uploads".
Definition outputDir : string := "tmp/converted".

(** A segment of a path: a string without a separator. *)
Definition plainSegment (segment : string) : Prop :=
  "/"%char ∉ String.list_ascii_of_string segment.

(** A name that [path.join] leaves as it is at the end of a path. *)
Definition plainName (name : string) : Prop :=
  plainSegment name ∧ name ≠ "" ∧ name ≠ "." ∧ name ≠ "..".

(** ** The converter (server/pdf-processor.ts) *)

Record ProcessResult : Set := {
  pr_convertedName : string;
  pr_convertedSize : Z;
  pr_outputPath : string;
  pr_isPdfA : bool;
  pr_hasOcr : bool
}.

(** [__dirname].  The files of the server are ES modules (they are loaded
    with [import], the build script imports [server/index.js] the same
    way), and an ES module has no such binding: reading the name throws a
    ReferenceError. *)
Definition dirname : Task string := Throw "__dirname is not defined".

(** [await new Promise(resolve => setTimeout(resolve, ms))] *)
Definition simulateProcessing (ms : Z) : Task unit := call (SetTimeout ms).

Definition processFile (filePath originalName outputDir : string)
    (options : ConversionOptions) (progressCallback : Z → Task unit)
  : Task ProcessResult :=
  try_catch
    (progressCallback 10 ;;
     simulateProcessing 500 ;;
     progressCallback 20 ;;
     let* stamp := call DateNow in
     let ocrTempPath :=
       path_join outputDir ("ocr_temp_" +:+ pretty stamp +:+ ".pdf") in
     let* filePath :=
       (if applyOcr options then
          let* input :=
            try_catch
              (call (Exec OcrMyPdf filePath ocrTempPath) ;;
               let* made := call (ExistsSync ocrTempPath) in
               Return (if made : bool then ocrTempPath else filePath))
              (λ _, Return filePath) in
          progressCallback 40 ;;
          Return input
        else
          progressCallback 40 ;;
          Return filePath) in
     simulateProcessing 500 ;;
     progressCallback 70 ;;
     (if verifyCompliance options
      then simulateProcessing 800 ;; progressCallback 90
      else progressCallback 90) ;;
     (if optimizeSize options then simulateProcessing 500 else Return tt) ;;
     let outputFilename := generatePdfaFilename originalName in
     let outputPath := path_join outputDir outputFilename in
     let result (size : Z) :=
       {| pr_convertedName := outputFilename;
          pr_convertedSize := size;
          pr_outputPath := outputPath;
          pr_isPdfA := true;
          pr_hasOcr := applyOcr options |} in
     let* returned :=
       try_catch
         (let* _ := dirname in
          let* viaGhostscript :=
            try_catch
              (call (Exec Ghostscript filePath outputPath) ;;
               let* size := call (StatSync outputPath) in
               progressCallback 100 ;;
               Return (Some (result size)))
              (λ _, Return None) in
          match viaGhostscript with
          | Some r => Return (Some r)
          | None =>
              let* stamp' := call DateNow in
              let tempPdfPath :=
                path_join outputDir ("temp_" +:+ pretty stamp' +:+ ".pdf") in
              call (PdfKitWrite tempPdfPath) ;;
              call (RenameSync tempPdfPath outputPath) ;;
              Return None
          end)
         (λ _, call (CopyFileSync filePath outputPath) ;; Return None) in
     match returned with
     | Some r => Return r
     | None =>
         let* size := call (StatSync outputPath) in
         progressCallback 100 ;;
         Return (result size)
     end)
    (λ _, Throw "Falha ao processar o arquivo PDF").

(** ** The orchestrator (server/routes.ts, processJob) *)

Definition statusUpdate (s : Status) : PartialPdfFile.t :=
  {| PartialPdfFile.id := None; PartialPdfFile.jobId := None;
     PartialPdfFile.originalName := None; PartialPdfFile.originalSize := None;
     PartialPdfFile.convertedName := None; PartialPdfFile.convertedSize := None;
     PartialPdfFile.status := Some s; PartialPdfFile.error := None;
     PartialPdfFile.isPdfA := None; PartialPdfFile.hasOcr := None;
     PartialPdfFile.progress := None; PartialPdfFile.storagePath := None;
     PartialPdfFile.downloadUrl := None |}.

(** [{ progress }] *)
Definition progressUpdate (progress : Z) : PartialPdfFile.t :=
  {| PartialPdfFile.id := None; PartialPdfFile.jobId := None;
     PartialPdfFile.originalName := None; PartialPdfFile.originalSize := None;
     PartialPdfFile.convertedName := None; PartialPdfFile.convertedSize := None;
     PartialPdfFile.status := None; PartialPdfFile.error := None;
     PartialPdfFile.isPdfA := None; PartialPdfFile.hasOcr := None;
     PartialPdfFile.progress := Some progress; PartialPdfFile.storagePath := None;
     PartialPdfFile.downloadUrl := None |}.

(** The update that records a successful conversion. *)
Definition completedUpdate (result : ProcessResult) : PartialPdfFile.t :=
  {| PartialPdfFile.id := None; PartialPdfFile.jobId := None;
     PartialPdfFile.originalName := None; PartialPdfFile.originalSize := None;
     PartialPdfFile.convertedName := Some (Some (pr_convertedName result));
     PartialPdfFile.convertedSize := Some (Some (pr_convertedSize result));
     PartialPdfFile.status := Some completed; PartialPdfFile.error := None;
     PartialPdfFile.isPdfA := Some (pr_isPdfA result);
     PartialPdfFile.hasOcr := Some (pr_hasOcr result);
     PartialPdfFile.progress := Some 100;
     PartialPdfFile.storagePath := Some (Some (pr_outputPath result));
     PartialPdfFile.downloadUrl :=
       Some (Some ("/files/" +:+ basename (pr_outputPath result))) |}.

(** [{ status: 'failed', error }] *)
Definition failedUpdate (error : string) : PartialPdfFile.t :=
  {| PartialPdfFile.id := None; PartialPdfFile.jobId := None;
     PartialPdfFile.originalName := None; PartialPdfFile.originalSize := None;
     PartialPdfFile.convertedName := None; PartialPdfFile.convertedSize := None;
     PartialPdfFile.status := Some failed; PartialPdfFile.error := Some (Some error);
     PartialPdfFile.isPdfA := None; PartialPdfFile.hasOcr := None;
     PartialPdfFile.progress := None; PartialPdfFile.storagePath := None;
     PartialPdfFile.downloadUrl := None |}.

(** [{ status }] on a job *)
Definition jobStatusUpdate (s : Status) : PartialPdfJob.t :=
  {| PartialPdfJob.id := None; PartialPdfJob.status := Some s;
     PartialPdfJob.createdAt := None; PartialPdfJob.completedAt := None;
     PartialPdfJob.options := None |}.

(** [{ status: 'completed', completedAt }] *)
Definition jobCompletedUpdate (completedAt : Z) : PartialPdfJob.t :=
  {| PartialPdfJob.id := None; PartialPdfJob.status := Some completed;
     PartialPdfJob.createdAt := None; PartialPdfJob.completedAt := Some (Some completedAt);
     PartialPdfJob.options := None |}.

(** The progress sink handed to [processFile]. *)
Definition progressCallback (fileId : Z) (progress : Z) : Task unit :=
  call (StUpdatePdfFile fileId (progressUpdate progress)) ;; Return tt.

(** The body of the loop over the files of a job. *)
Definition processOne (jobId : Z) (file : PdfFile.t) : Task unit :=
  call (StUpdatePdfFile (PdfFile.id file) (statusUpdate processing)) ;;
  try_catch
    (let* job := call (StGetPdfJob jobId) in
     match job with
     | None => Throw "Job not found"
     | Some job =>
         let* result :=
           processFile (default "" (PdfFile.storagePath file))
             (PdfFile.originalName file) outputDir (PdfJob.options job)
             (progressCallback (PdfFile.id file)) in
         call (StUpdatePdfFile (PdfFile.id file) (completedUpdate result)) ;;
         Return tt
     end)
    (λ error,
       call (StUpdatePdfFile (PdfFile.id file) (failedUpdate error)) ;;
       Return tt).

Definition processJob (jobId : Z) (files : list PdfFile.t) : Task unit :=
  try_catch
    (call (StUpdatePdfJob jobId (jobStatusUpdate processing)) ;;
     forEach files (processOne jobId) ;;
     let* updatedFiles := call (StGetPdfFilesByJobId jobId) in
     let allCompleted :=
       forallb (λ file, isTerminal (PdfFile.status file)) updatedFiles in
     if allCompleted then
       let* completedAt := call DateNow in
       call (StUpdatePdfJob jobId (jobCompletedUpdate completedAt)) ;;
       Return tt
     else Return tt)
    (λ _,
       call (StUpdatePdfJob jobId (jobStatusUpdate failed)) ;;
       Return tt).

(** ** HTTP handlers (server/routes.ts, registerRoutes) *)

(** One element of [files] in the answer of the status route. *)
Module StatusEntry.
Record t : Set := mk {
  fileId : Z;
  name : string;
  status : Status;
  percentage : Z;
  error : option string
}.
End StatusEntry.

(** One element of [files] in the answer of the results route. *)
Module ResultEntry.
Record t : Set := mk {
  id : Z;
  name : string;
  size : Z;
  url : string;
  hasPdfA : bool;
  hasOcr : bool
}.
End ResultEntry.

Inductive Body : Set :=
| ErrorBody (error : string)
| MessageBody (message : string)
| UploadBody (jobId : Z) (message : string)
| StatusBody (jobId : Z) (status : Status) (files : list StatusEntry.t)
| ResultsBody (jobId : Z) (status : Status) (files : list ResultEntry.t).

(** [res.status(statusCode).json(body)] *)
Record Response : Set := { statusCode : Z; body : Body }.

(** What the download route does with the response: it answers with JSON
    itself, or it calls [res.download(path, filename)] and returns.  What
    the client then receives is Express's doing and no part of the
    handler: the file as an attachment named [filename], part of it or
    nothing for a range or a conditional request, or an error given to
    [next] when the file cannot be served from [path] (it is missing, or a
    segment of the path begins with a dot). *)
Inductive Served : Set :=
| Answered (response : Response)
| Download (path filename : string).

(** [a || b] on a nullable string: the empty string is falsy. *)
Definition orString (a : option string) (b : string) : string :=
  match a with
  | Some s => if String.eqb s "" then b else s
  | None => b
  end.

(** [a || b] on a nullable number: zero is falsy. *)
Definition orNumber (a : option Z) (b : Z) : Z :=
  match a with
  | Some n => if n =? 0 then b else n
  | None => b
  end.

(** A file as multer hands it to the handler in [req.files]. *)
Record MulterFile : Set := {
  originalname : string;
  mimetype : string;
  size : Z;
  path : string
}.

(** A JSON value. *)
#[local] Set Warnings "-register-all".
Inductive Json : Set :=
| JNull
| JBool (b : bool)
| JNumber (n : Z)
| JString (s : string)
| JArray (items : list Json)
| JObject (fields : list (string * Json)).
#[local] Set Warnings "register-all".

(** [req.body.options]: a text field of the multipart form together with
    what [JSON.parse] makes of it ([None] when it throws), a value that is
    not a string, or nothing. *)
Inductive OptionsRaw : Set :=
| RawText (text : string) (parsed : option Json)
| RawValue (value : Json)
| RawUndefined.

Fixpoint lookupField (key : string) (fields : list (string * Json)) : option Json :=
  match fields with
  | [] => None
  | (k, v) :: rest => if String.eqb k key then Some v else lookupField key rest
  end.

(** The truth value JavaScript gives a JSON value, as in [v || d] and
    [!v]: [null], [false], zero and the empty string are falsy. *)
Definition truthy (v : Json) : bool :=
  match v with
  | JNull => false
  | JBool b => b
  | JNumber n => negb (n =? 0)
  | JString s => negb (String.eqb s "")
  | JArray _ | JObject _ => true
  end.

(** [z.boolean().default(d)] on the field of an object. *)
Definition booleanWithDefault (d : bool) (field : option Json) : option bool :=
  match field with
  | None => Some d
  | Some (JBool b) => Some b
  | Some _ => None
  end.

(** [conversionOptionsSchema.parse(value)]; [None] when it throws. *)
Definition conversionOptionsSchema_parse (value : option Json) : option ConversionOptions :=
  match value with
  | Some (JObject fields) =>
      match booleanWithDefault true (lookupField "applyOcr" fields),
            booleanWithDefault true (lookupField "verifyCompliance" fields),
            booleanWithDefault false (lookupField "optimizeSize" fields) with
      | Some a, Some v, Some o =>
          Some {| applyOcr := a; verifyCompliance := v; optimizeSize := o |}
      | _, _, _ => None
      end
  | _ => None
  end.

(** The [try] block around the options in the upload handler. *)
Definition parseOptions (optionsRaw : OptionsRaw) : option ConversionOptions :=
  match optionsRaw with
  | RawText _ parsed => conversionOptionsSchema_parse parsed
  | RawValue value => conversionOptionsSchema_parse (Some value)
  | RawUndefined => conversionOptionsSchema_parse None
  end.

Definition insertFile (jobId : Z) (file : MulterFile) : InsertPdfFile.t :=
  {| InsertPdfFile.jobId := jobId;
     InsertPdfFile.originalName := originalname file;
     InsertPdfFile.originalSize := size file;
     InsertPdfFile.convertedName := None;
     InsertPdfFile.convertedSize := None;
     InsertPdfFile.status := pending;
     InsertPdfFile.error := None;
     InsertPdfFile.isPdfA := None;
     InsertPdfFile.hasOcr := None;
     InsertPdfFile.progress := None;
     InsertPdfFile.storagePath := Some (path file);
     InsertPdfFile.downloadUrl := None |}.

(** The loop that adds the files to the job and collects [jobFiles]. *)
Fixpoint createFiles (jobId : Z) (files : list MulterFile) (jobFiles : list PdfFile.t)
  : Task (list PdfFile.t) :=
  match files with
  | [] => Return jobFiles
  | file :: rest =>
      let* pdfFile := call (StCreatePdfFile (insertFile jobId file)) in
      createFiles jobId rest (jobFiles ++ [pdfFile])
  end.

(** POST /api/pdf/upload, after the multer middleware. *)
Definition uploadHandler (reqFiles : option (list MulterFile)) (optionsRaw : OptionsRaw)
  : Task Response :=
  try_catch
    (match reqFiles with
     | None | Some [] =>
         Return {| statusCode := 400; body := ErrorBody "Nenhum arquivo foi enviado" |}
     | Some files =>
         match parseOptions optionsRaw with
         | None =>
             Return {| statusCode := 400;
                       body := ErrorBody "Opções de conversão inválidas" |}
         | Some options =>
             let* job := call (StCreatePdfJob
                                 {| InsertPdfJob.status := pending;
                                    InsertPdfJob.options := options |}) in
             let* jobFiles := createFiles (PdfJob.id job) files [] in
             Spawn (processJob (PdfJob.id job) jobFiles)
               (Return {| statusCode := 200;
                          body := UploadBody (PdfJob.id job)
                                    "Arquivos enviados com sucesso. Processamento iniciado." |})
         end
     end)
    (λ _, Return {| statusCode := 500; body := ErrorBody "Erro ao processar arquivos" |}).

(** GET /api/pdf/status/:jobId; the argument is [parseInt(req.params.jobId)],
    [None] for NaN. *)
Definition statusHandler (jobId : option Z) : Task Response :=
  try_catch
    (match jobId with
     | None => Return {| statusCode := 400; body := ErrorBody "ID de trabalho inválido" |}
     | Some jobId =>
         let* job := call (StGetPdfJob jobId) in
         match job with
         | None =>
             Return {| statusCode := 404; body := ErrorBody "Trabalho não encontrado" |}
         | Some job =>
             let* files := call (StGetPdfFilesByJobId jobId) in
             Return {| statusCode := 200;
                       body := StatusBody (PdfJob.id job) (PdfJob.status job)
                                 ((λ file,
                                     {| StatusEntry.fileId := PdfFile.id file;
                                        StatusEntry.name := PdfFile.originalName file;
                                        StatusEntry.status := PdfFile.status file;
                                        StatusEntry.percentage :=
                                          orNumber (Some (PdfFile.progress file)) 0;
                                        StatusEntry.error := PdfFile.error file |})
                                    <$> (files : list PdfFile.t)) |}
         end
     end)
    (λ _, Return {| statusCode := 500;
                    body := ErrorBody "Erro ao verificar status da conversão" |}).

(** The projection of a file in the results route. *)
Definition resultEntry (file : PdfFile.t) : ResultEntry.t :=
  {| ResultEntry.id := PdfFile.id file;
     ResultEntry.name := orString (PdfFile.convertedName file) (PdfFile.originalName file);
     ResultEntry.size := orNumber (PdfFile.convertedSize file) (PdfFile.originalSize file);
     ResultEntry.url := orString (PdfFile.downloadUrl file) "";
     ResultEntry.hasPdfA := PdfFile.isPdfA file;
     ResultEntry.hasOcr := PdfFile.hasOcr file |}.

(** GET /api/pdf/results/:jobId *)
Definition resultsHandler (jobId : option Z) : Task Response :=
  try_catch
    (match jobId with
     | None => Return {| statusCode := 400; body := ErrorBody "ID de trabalho inválido" |}
     | Some jobId =>
         let* job := call (StGetPdfJob jobId) in
         match job with
         | None =>
             Return {| statusCode := 404; body := ErrorBody "Trabalho não encontrado" |}
         | Some job =>
             if bool_decide (PdfJob.status job ≠ completed) then
               Return {| statusCode := 400;
                         body := ErrorBody "Conversão ainda não foi concluída" |}
             else
               let* files := call (StGetPdfFilesByJobId jobId) in
               Return {| statusCode := 200;
                         body := ResultsBody (PdfJob.id job) (PdfJob.status job)
                                   (resultEntry <$> (files : list PdfFile.t)) |}
         end
     end)
    (λ _, Return {| statusCode := 500;
                    body := ErrorBody "Erro ao obter resultados da conversão" |}).

(** GET /api/pdf/download/:fileId *)
Definition downloadHandler (fileId : option Z) : Task Served :=
  let json (statusCode : Z) (error : string) : Task Served :=
    Return (Answered {| statusCode := statusCode; body := ErrorBody error |}) in
  try_catch
    (match fileId with
     | None => json 400 "ID de arquivo inválido"
     | Some fileId =>
         let* file := call (StGetPdfFile fileId) in
         match file with
         | None => json 404 "Arquivo não encontrado"
         | Some file =>
             match PdfFile.status file, PdfFile.storagePath file with
             | completed, Some storagePath =>
                 if String.eqb storagePath "" then
                   json 400 "Arquivo não está disponível para download"
                 else
                   Return (Download storagePath
                             (orString (PdfFile.convertedName file)
                                (PdfFile.originalName file)))
             | _, _ => json 400 "Arquivo não está disponível para download"
             end
         end
     end)
    (λ _, json 500 "Erro ao baixar arquivo").

(** The message left on the files of a cancelled job. *)
Definition cancelledMessage : string := "Trabalho cancelado pelo usuário".

(** POST /api/pdf/cancel; the argument is [req.body.jobId] ([None] when the
    body has none; zero is falsy as well). *)
Definition cancelHandler (jobId : option Z) : Task Response :=
  try_catch
    (match jobId with
     | None =>
         Return {| statusCode := 400; body := ErrorBody "ID de trabalho não especificado" |}
     | Some jobId =>
         if jobId =? 0 then
           Return {| statusCode := 400;
                     body := ErrorBody "ID de trabalho não especificado" |}
         else
           let* job := call (StGetPdfJob jobId) in
           match job with
           | None =>
               Return {| statusCode := 404; body := ErrorBody "Trabalho não encontrado" |}
           | Some job =>
               if isTerminal (PdfJob.status job) then
                 Return {| statusCode := 400;
                           body := ErrorBody "Trabalho já foi concluído ou falhou" |}
               else
                 call (StUpdatePdfJob jobId (jobStatusUpdate failed)) ;;
                 let* files := call (StGetPdfFilesByJobId jobId) in
                 forEach (files : list PdfFile.t)
                   (λ file,
                      if bool_decide (PdfFile.status file = pending)
                         || bool_decide (PdfFile.status file = processing)
                      then call (StUpdatePdfFile (PdfFile.id file)
                                   (failedUpdate cancelledMessage)) ;;
                           Return tt
                      else Return tt) ;;
                 Return {| statusCode := 200;
                           body := MessageBody "Trabalho cancelado com sucesso" |}
           end
     end)
    (λ _, Return {| statusCode := 500; body := ErrorBody "Erro ao cancelar trabalho" |}).

(** ** The upload middleware (server/routes.ts, multer configuration) *)

(** A file part of the incoming multipart request that carries a file name
    (multer drops a part without one before it looks at it): the name of
    the form field it was sent under, the file name, the declared type and
    the number of bytes; [uuid] is the value [randomUUID()] draws when the
    part is stored. *)
Record IncomingFile : Set := {
  in_fieldname : string;
  in_originalname : string;
  in_mimetype : string;
  in_size : Z;
  in_uuid : string
}.

(** [limits.fileSize] *)
Definition fileSizeLimit : Z := 20 * 1024 * 1024.

(** [fileFilter]: [Thrown] is [cb(new Error(..))], [Ok true] is [cb(null, true)]. *)
Definition fileFilter (file : IncomingFile) : Result bool :=
  if negb (String.eqb (in_mimetype file) "application/pdf")
     && negb (endsWith (toLowerCase (in_originalname file)) ".pdf")
  then Thrown "Apenas arquivos PDF são permitidos"
  else Ok true.

(** A part the upload middleware lets through: sent under the field
    [files], a PDF by the test of the client, and smaller than
    [limits.fileSize]. *)
Definition passes (part : IncomingFile) : Prop :=
  in_fieldname part = "files" ∧
  isPdfFile (in_mimetype part) (in_originalname part) = true ∧
  in_size part < fileSizeLimit.

(** [diskStorage]: destination [uploadDir], filename [uuid-originalname]. *)
Definition stored (file : IncomingFile) : MulterFile :=
  {| originalname := in_originalname file;
     mimetype := in_mimetype file;
     size := in_size file;
     path := path_join uploadDir (in_uuid file +:+ "-" +:+ in_originalname file) |}.

(** [upload.array('files')].  multer takes the parts in order.  A part
    under another field than [files] is an unexpected file; then the filter
    is asked; a part the filter takes is read up to [limits.fileSize]
    bytes, and one that reaches the limit is too large (the limit is hit
    when the number of bytes read equals it).  Each of these ends the
    request with an error handed to [next]; the handler then never runs. *)
Fixpoint uploadArray (parts : list IncomingFile) : Result (list MulterFile) :=
  match parts with
  | [] => Ok []
  | part :: rest =>
      if negb (String.eqb (in_fieldname part) "files") then Thrown "Unexpected field"
      else
        match fileFilter part with
        | Thrown message => Thrown message
        | Ok false => uploadArray rest
        | Ok true =>
            if fileSizeLimit <=? in_size part then Thrown "File too large"
            else match uploadArray rest with
                 | Thrown message => Thrown message
                 | Ok files => Ok (stored part :: files)
                 end
        end
  end.

(** How a route ends: the handler answered, or an error went to [next]. *)
Inductive Outcome : Set :=
| Responded (response : Response)
| PassedToNext (error : string).

(** POST /api/pdf/upload: middleware, then handler.  [parts] is [None] for a
    request that is not multipart, which leaves [req.files] undefined. *)
Definition postUpload (parts : option (list IncomingFile)) (optionsRaw : OptionsRaw)
  : Task Outcome :=
  match parts with
  | None =>
      let* response := uploadHandler None optionsRaw in
      Return (Responded response)
  | Some parts =>
      match uploadArray parts with
      | Thrown message => Return (PassedToNext message)
      | Ok files =>
          let* response := uploadHandler (Some files) optionsRaw in
          Return (Responded response)
      end
  end.


(** ** Header values (node:http, [res.setHeader])

    [setHeader] throws for a value that holds a character other than tab,
    U+0020 to U+007E and U+0080 to U+00FF.  In UTF-8 the characters it
    takes are the bytes 9 and 32 to 126, and the two-byte sequences that
    begin with 194 or 195. *)

Definition headerByte (c : ascii) : bool :=
  let n := nat_of_ascii c in
  ((n =? 9) || ((32 <=? n) && (n <=? 126)) || ((128 <=? n) && (n <=? 191))
   || (n =? 194) || (n =? 195))%nat.

(** Does [res.setHeader(name, value)] take the value. *)
Definition validHeaderValue (value : string) : bool :=
  forallb headerByte (String.list_ascii_of_string value).

Definition doubleQuote : string := String "034"%char EmptyString.

(** [`attachment; filename="${filename}"`] *)
Definition attachment (filename : string) : string :=
  "attachment; filename=" +:+ doubleQuote +:+ filename +:+ doubleQuote.

(** ** The single-file variant (the second server/storage.ts and
       server/routes.ts, and api/index.ts) *)

Module Legacy.

Record PdfJob : Set := {
  id : Z;
  originalName : string;
  status : Status;
  inputUrl : string;
  outputUrl : option string;
  errorMessage : option string;
  createdAt : Z
}.

Record MemStorage : Set := {
  pdfJobs : gmap Z PdfJob;
  currentId : Z
}.

(** [constructor()] *)
Definition newMemStorage : MemStorage := {| pdfJobs := ∅; currentId := 1 |}.

(** [createPdfJob(insertJob)], with [now] for [new Date().toISOString()]. *)
Definition createPdfJob (now : Z) (name url : string) (status : Status) (s : MemStorage)
  : PdfJob * MemStorage :=
  let id := currentId s in
  let job := {| id := id; originalName := name; status := status; inputUrl := url;
                outputUrl := None; errorMessage := None; createdAt := now |} in
  (job, {| pdfJobs := <[id := job]> (pdfJobs s); currentId := id + 1 |}).

Definition getPdfJob (id : Z) (s : MemStorage) : option PdfJob :=
  pdfJobs s !! id.

Definition updatePdfJobStatus (id : Z) (status : Status) (s : MemStorage)
  : option PdfJob * MemStorage :=
  match pdfJobs s !! id with
  | None => (None, s)
  | Some job =>
      let updatedJob :=
        {| id := Legacy.id job; originalName := originalName job;
           status := status; inputUrl := inputUrl job;
           outputUrl := outputUrl job; errorMessage := errorMessage job;
           createdAt := createdAt job |} in
      (Some updatedJob,
       {| pdfJobs := <[id := updatedJob]> (pdfJobs s); currentId := currentId s |})
  end.

Inductive Answer : Set :=
| Failure (statusCode : Z) (message : string)
| Progress (jobId : Z) (status : Status) (progress : Z) (stage : string)
           (outputUrl errorMessage : option string).

(** [Math.min(Math.floor(Math.random() * 90) + 10, 95)], where [draw] is
    the integer [Math.floor(Math.random() * 90)], between 0 and 89. *)
Definition simulatedProgress (draw : Z) : Z := Z.min (draw + 10) 95.

(** The [switch (job.status)] of the progress route. *)
Definition progressAndStage (status : Status) (draw : Z) : Z * string :=
  match status with
  | pending => (0, "Aguardando processamento")
  | processing =>
      let progress := simulatedProgress draw in
      (progress,
       if progress <? 30 then "Analisando documento..."
       else if progress <? 60 then "Aplicando OCR..."
       else "Convertendo para PDF/A-2U...")
  | completed => (100, "Conversão concluída!")
  | failed => (0, "Falha na conversão")
  end.

(** GET /api/pdf/jobs/:id/progress *)
Definition getProgress (id : option Z) (draw : Z) (s : MemStorage) : Answer :=
  match id with
  | None => Failure 400 "Invalid job ID"
  | Some id =>
      match getPdfJob id s with
      | None => Failure 404 "PDF job not found"
      | Some job =>
          let '(progress, stage) := progressAndStage (status job) draw in
          Progress (Legacy.id job) (status job) progress stage
            (outputUrl job) (errorMessage job)
      end
  end.

(** The percentage a poll shows, if it shows one. *)
Definition shownProgress (a : Answer) : option Z :=
  match a with
  | Progress _ _ progress _ _ _ => Some progress
  | Failure _ _ => None
  end.

(** [updatePdfJobOutput(id, outputUrl)] *)
Definition updatePdfJobOutput (id : Z) (url : string) (s : MemStorage)
  : option PdfJob * MemStorage :=
  match pdfJobs s !! id with
  | None => (None, s)
  | Some job =>
      let updatedJob :=
        {| id := Legacy.id job; originalName := originalName job;
           status := completed; inputUrl := inputUrl job;
           outputUrl := Some url; errorMessage := errorMessage job;
           createdAt := createdAt job |} in
      (Some updatedJob,
       {| pdfJobs := <[id := updatedJob]> (pdfJobs s); currentId := currentId s |})
  end.

(** [updatePdfJobError(id, errorMessage)] *)
Definition updatePdfJobError (id : Z) (message : string) (s : MemStorage)
  : option PdfJob * MemStorage :=
  match pdfJobs s !! id with
  | None => (None, s)
  | Some job =>
      let updatedJob :=
        {| id := Legacy.id job; originalName := originalName job;
           status := failed; inputUrl := inputUrl job;
           outputUrl := outputUrl job; errorMessage := Some message;
           createdAt := createdAt job |} in
      (Some updatedJob,
       {| pdfJobs := <[id := updatedJob]> (pdfJobs s); currentId := currentId s |})
  end.

(** The one document [createSamplePdf()] builds. *)
Inductive Buffer : Set := SamplePdf.

(** The state of the routes: the storage, the module-level [pdfDataStore],
    and the jobs for which a timer of the process route is running. *)
Record App : Set := {
  storage : MemStorage;
  pdfDataStore : gmap Z Buffer;
  timers : list Z
}.

Definition newApp : App :=
  {| storage := newMemStorage; pdfDataStore := ∅; timers := [] |}.

(** What a route sends: a job as JSON, a message as JSON, or the PDF with
    the file name of its [Content-Disposition] header. *)
Inductive Reply : Set :=
| JobReply (statusCode : Z) (job : PdfJob)
| MessageReply (statusCode : Z) (message : string)
| PdfReply (filename : string) (data : Buffer).

(** [insertPdfJobSchema.parse] of the convert route: [originalName] and
    [inputUrl] are required strings. *)
Definition insertPdfJobSchema_parse (name url : option Json) : option (string * string) :=
  match name, url with
  | Some (JString name), Some (JString url) => Some (name, url)
  | _, _ => None
  end.

(** POST /api/pdf/convert, with [req.body.originalName] and
    [req.body.inputUrl]. *)
Definition convertRoute (now : Z) (name url : option Json) (a : App) : Reply * App :=
  match insertPdfJobSchema_parse name url with
  | None => (MessageReply 400 "Invalid input data", a)
  | Some (name, url) =>
      let '(job, s) := createPdfJob now name url pending (storage a) in
      (JobReply 201 job,
       {| storage := s; pdfDataStore := pdfDataStore a; timers := timers a |})
  end.

(** GET /api/pdf/jobs/:id; the argument is [parseInt(req.params.id, 10)],
    [None] for NaN. *)
Definition jobRoute (id : option Z) (a : App) : Reply :=
  match id with
  | None => MessageReply 400 "Invalid job ID"
  | Some id =>
      match getPdfJob id (storage a) with
      | None => MessageReply 404 "PDF job not found"
      | Some job => JobReply 200 job
      end
  end.

(** [conversionOptionsSchema.parse(value)] of the single-file schema: does
    it go through. *)
Definition conversionOptionsSchema_accepts (value : Json) : bool :=
  match value with
  | JObject fields =>
      match lookupField "applyOcr" fields with
      | None | Some (JBool _) => true
      | Some _ => false
      end &&
      match lookupField "formatType" fields with
      | None => true
      | Some (JString format) => String.eqb format "pdf_a_2u"
      | Some _ => false
      end
  | _ => false
  end.

(** POST /api/pdf/jobs/:id/process, with [req.body.options]. *)
Definition processRoute (id : option Z) (options : option Json) (a : App) : Reply * App :=
  match id with
  | None => (MessageReply 400 "Invalid job ID", a)
  | Some id =>
      let value :=
        match options with
        | Some v => if truthy v then v else JObject []
        | None => JObject []
        end in
      if conversionOptionsSchema_accepts value then
        match getPdfJob id (storage a) with
        | None => (MessageReply 404 "PDF job not found", a)
        | Some _ =>
            (MessageReply 200 "Processing started",
             {| storage := (updatePdfJobStatus id processing (storage a)).2;
                pdfDataStore := pdfDataStore a;
                timers := timers a ++ [id] |})
        end
      else (MessageReply 400 "Invalid conversion options", a)
  end.

(** The callback of the [i]-th running timer, five seconds after the
    process route has set it. *)
Definition timerFires (i : nat) (a : App) : option App :=
  match timers a !! i with
  | None => None
  | Some id =>
      Some {| storage :=
                (updatePdfJobOutput id ("/api/pdf/downloads/" +:+ pretty id)
                   (storage a)).2;
              pdfDataStore := <[id := SamplePdf]> (pdfDataStore a);
              timers := delete i (timers a) |}
  end.

(** [s.replace(pattern, '')] for a pattern that is a string: the first
    occurrence goes. *)
Fixpoint removeFirst (pattern s : string) : string :=
  if String.prefix pattern s
  then String.substring (String.length pattern)
         (String.length s - String.length pattern) s
  else match s with
       | EmptyString => EmptyString
       | String c rest => String c (removeFirst pattern rest)
       end.

(** GET /api/pdf/downloads/:id.  The headers are set inside the [try]: a
    file name that [setHeader] refuses ends in the [catch] block. *)
Definition downloadRoute (id : option Z) (a : App) : Reply :=
  match id with
  | None => MessageReply 400 "Invalid job ID"
  | Some id =>
      match getPdfJob id (storage a) with
      | None => MessageReply 404 "PDF job not found"
      | Some job =>
          if bool_decide (status job ≠ completed) then
            MessageReply 400 "PDF conversion not yet completed"
          else
            match pdfDataStore a !! id with
            | None => MessageReply 404 "PDF file not found"
            | Some data =>
                let filename := removeFirst ".pdf" (originalName job) +:+ "_PDFA.pdf" in
                if validHeaderValue (attachment filename)
                then PdfReply filename data
                else MessageReply 500 "Failed to download the converted PDF"
            end
      end
  end.

End Legacy.

(** ** The serverless variant (api/index.ts, api/pdf/convert.ts and the
       Netlify function, which holds the same handlers)

    The jobs are objects in a module-level array.  A timer of the process
    handler keeps the job object it has found; here it keeps the place of
    that object in the array, which never shrinks. *)

Module Api.

Record Job : Set := {
  id : Z;
  originalName : Json;
  status : Status;
  inputUrl : Json;
  createdAt : Z;
  outputUrl : option string;
  errorMessage : option string
}.

Record State : Set := {
  pdfJobs : list Job;
  currentJobId : Z;
  pdfDataStore : gmap Z Legacy.Buffer;
  timers : list (nat * Z)
}.

(** [let pdfJobs = []; let currentJobId = 0; new Map()] *)
Definition init : State :=
  {| pdfJobs := []; currentJobId := 0; pdfDataStore := ∅; timers := [] |}.

Inductive Reply : Set :=
| JobReply (statusCode : Z) (job : Job)
| MessageReply (statusCode : Z) (message : string)
| ProgressReply (jobId : Z) (status : Status) (progress : Z) (stage : string)
                (outputUrl errorMessage : option string)
| PdfReply (filename : string) (data : Legacy.Buffer).

(** [v || d] *)
Definition orJson (v : option Json) (d : Json) : Json :=
  match v with
  | Some v => if truthy v then v else d
  | None => d
  end.

(** [createPdfJob]: [name] and [url] are [req.body.originalName] and
    [req.body.inputUrl], [None] when the body has no such field. *)
Definition createPdfJob (now : Z) (name url : option Json) (st : State) : Reply * State :=
  match name with
  | Some name =>
      if truthy name then
        let jobId := currentJobId st + 1 in
        let job := {| id := jobId; originalName := name; status := pending;
                      inputUrl := orJson url (JString "local"); createdAt := now;
                      outputUrl := None; errorMessage := None |} in
        (JobReply 201 job,
         {| pdfJobs := pdfJobs st ++ [job]; currentJobId := jobId;
            pdfDataStore := pdfDataStore st; timers := timers st |})
      else (MessageReply 400 "Original name is required", st)
  | None => (MessageReply 400 "Original name is required", st)
  end.

(** [pdfJobs.find(j => j.id === jobId)], with the place of the job found. *)
Definition find (jobId : Z) (st : State) : option (nat * Job) :=
  list_find (λ j, id j = jobId) (pdfJobs st).

Definition setStatus (s : Status) (job : Job) : Job :=
  {| id := id job; originalName := originalName job; status := s;
     inputUrl := inputUrl job; createdAt := createdAt job;
     outputUrl := outputUrl job; errorMessage := errorMessage job |}.

(** [processPdfJob]; the argument is [parseInt(req.params.id, 10)], [None]
    for NaN, which no id equals. *)
Definition processPdfJob (jobId : option Z) (st : State) : Reply * State :=
  match jobId with
  | None => (MessageReply 404 "PDF job not found", st)
  | Some jobId =>
      match find jobId st with
      | None => (MessageReply 404 "PDF job not found", st)
      | Some (i, job) =>
          (MessageReply 200 "Processing started",
           {| pdfJobs := <[i := setStatus processing job]> (pdfJobs st);
              currentJobId := currentJobId st;
              pdfDataStore := pdfDataStore st;
              timers := timers st ++ [(i, jobId)] |})
      end
  end.

(** The callback of the [n]-th running timer; [made] tells whether
    [createSamplePdf()] resolved. *)
Definition timerFires (n : nat) (made : bool) (st : State) : option State :=
  match timers st !! n with
  | None => None
  | Some (i, jobId) =>
      let outcome (job : Job) : Job :=
        if made then
          {| id := id job; originalName := originalName job; status := completed;
             inputUrl := inputUrl job; createdAt := createdAt job;
             outputUrl := Some ("/api/pdf/downloads/" +:+ pretty jobId);
             errorMessage := errorMessage job |}
        else
          {| id := id job; originalName := originalName job; status := failed;
             inputUrl := inputUrl job; createdAt := createdAt job;
             outputUrl := outputUrl job;
             errorMessage := Some "Conversion failed" |} in
      Some {| pdfJobs := alter outcome i (pdfJobs st);
              currentJobId := currentJobId st;
              pdfDataStore :=
                if made then <[jobId := Legacy.SamplePdf]> (pdfDataStore st)
                else pdfDataStore st;
              timers := delete n (timers st) |}
  end.

(** [getPdfJobProgress]; [draw] is [Math.floor(Math.random() * 90)]. *)
Definition getPdfJobProgress (jobId : option Z) (draw : Z) (st : State) : Reply :=
  match jobId with
  | None => MessageReply 404 "PDF job not found"
  | Some jobId =>
      match find jobId st with
      | None => MessageReply 404 "PDF job not found"
      | Some (_, job) =>
          let '(progress, stage) := Legacy.progressAndStage (status job) draw in
          ProgressReply jobId (status job) progress stage
            (outputUrl job) (errorMessage job)
      end
  end.

(** [downloadPdf].  The file name calls [replace] on the original name: for
    a name that is not a string this throws, and so does [setHeader] for a
    file name it refuses; the handler then answers 500. *)
Definition downloadPdf (jobId : option Z) (st : State) : Reply :=
  match jobId with
  | None => MessageReply 404 "PDF job not found"
  | Some jobId =>
      match find jobId st with
      | None => MessageReply 404 "PDF job not found"
      | Some (_, job) =>
          if bool_decide (status job ≠ completed) then
            MessageReply 400 "PDF conversion not yet completed"
          else
            match pdfDataStore st !! jobId with
            | None => MessageReply 404 "PDF file not found"
            | Some data =>
                match originalName job with
                | JString name =>
                    let filename := Legacy.removeFirst ".pdf" name +:+ "_PDFA.pdf" in
                    if validHeaderValue (attachment filename)
                    then PdfReply filename data
                    else MessageReply 500 "Failed to download the converted PDF"
                | _ => MessageReply 500 "Failed to download the converted PDF"
                end
            end
      end
  end.

(** [s.includes(sub)] *)
Fixpoint includes (s sub : string) : bool :=
  String.prefix sub s
  || match s with
     | EmptyString => false
     | String _ rest => includes rest sub
     end.

Definition isDigit (c : ascii) : bool :=
  let n := nat_of_ascii c in ((48 <=? n) && (n <=? 57))%nat.

(** The longest run of digits at the head of [s], and what follows it. *)
Fixpoint takeDigits (s : string) : string * string :=
  match s with
  | EmptyString => (EmptyString, EmptyString)
  | String c rest =>
      if isDigit c
      then let '(digits, tail) := takeDigits rest in (String c digits, tail)
      else (EmptyString, s)
  end.

(** A match of [before(\d+)after] at the head of [s]: the digits. *)
Definition matchHere (before after s : string) : option string :=
  if String.prefix before s then
    let '(digits, tail) :=
      takeDigits (String.substring (String.length before)
                    (String.length s - String.length before) s) in
    if negb (String.eqb digits "") && String.prefix after tail
    then Some digits else None
  else None.

(** [s.match(/before(\d+)after/)]: the group of the leftmost match. *)
Fixpoint matchDigits (before after s : string) : option string :=
  match matchHere before after s with
  | Some digits => Some digits
  | None =>
      match s with
      | EmptyString => None
      | String _ rest => matchDigits before after rest
      end
  end.

(** [parseInt(digits, 10)] on a run of digits. *)
Definition parseDigits (digits : string) : Z :=
  foldl (λ n c, 10 * n + (Z.of_nat (nat_of_ascii c) - 48)) 0
    (String.list_ascii_of_string digits).

(** The default export of api/index.ts: [method] is [req.method], [url] is
    [req.path || req.url || ''], [name] and [inputUrl] are the two fields
    of the body. *)
Definition handler (now draw : Z) (method url : string) (name inputUrl : option Json)
    (st : State) : Reply * State :=
  let jobsRoute (suffix : string) :=
    if includes url "/pdf/jobs/" && includes url suffix
    then matchDigits "/pdf/jobs/" suffix url else None in
  if String.eqb method "POST" && includes url "/pdf/convert" then
    createPdfJob now name inputUrl st
  else
    match (if String.eqb method "POST" then jobsRoute "/process" else None) with
    | Some digits => processPdfJob (Some (parseDigits digits)) st
    | None =>
        match (if String.eqb method "GET" then jobsRoute "/progress" else None) with
        | Some digits => (getPdfJobProgress (Some (parseDigits digits)) draw st, st)
        | None =>
            match (if String.eqb method "GET" && includes url "/pdf/downloads/"
                   then matchDigits "/pdf/downloads/" "" url else None) with
            | Some digits => (downloadPdf (Some (parseDigits digits)) st, st)
            | None => (MessageReply 404 "Not Found", st)
            end
        end
    end.

(** The handler of api/pdf/convert.ts. *)
Definition convertHandler (now : Z) (method : string) (name inputUrl : option Json)
    (st : State) : Reply * State :=
  if negb (String.eqb method "POST")
  then (MessageReply 405 "Method not allowed", st)
  else createPdfJob now name inputUrl st.

(** The states the handlers and the timers can bring about. *)
Inductive reachable : State → Prop :=
| reach_init : reachable init
| reach_create now name url st :
    reachable st → reachable (createPdfJob now name url st).2
| reach_process jobId st :
    reachable st → reachable (processPdfJob jobId st).2
| reach_timer n made st st' :
    reachable st → timerFires n made st = Some st' → reachable st'.

End Api.

(** ** The server as a transition system

    The store together with the [async] functions in flight.  A request may
    arrive at any time; any function in flight may be resumed, which carries
    out the call it is waiting on and brings it to its next [await].  Node
    runs a started function up to its first pending [await] at once and may
    run on through an [await] whose promise is already settled; here each
    [await] is a point where another function may run, so the schedules of
    the event loop are among those of [step], and what holds of every
    reachable state holds of every state the event loop reaches. *)

Inductive Request : Set :=
| PostUpload (parts : option (list IncomingFile)) (optionsRaw : OptionsRaw)
| GetStatus (jobId : option Z)
| GetResults (jobId : option Z)
| GetDownload (fileId : option Z)
| PostCancel (jobId : option Z).

Definition detach {A : Type} (t : Task A) : Task unit := t ;; Return tt.

Definition serve (req : Request) : Task unit :=
  match req with
  | PostUpload parts optionsRaw => detach (postUpload parts optionsRaw)
  | GetStatus jobId => detach (statusHandler jobId)
  | GetResults jobId => detach (resultsHandler jobId)
  | GetDownload fileId => detach (downloadHandler fileId)
  | PostCancel jobId => detach (cancelHandler jobId)
  end.

Record Server : Type := {
  store : MemStorage;
  tasks : list (Task unit)
}.

Inductive Event : Type :=
| Arrives (req : Request)
| Resumes (i : nat) (w : World).

(** One resumption: the task after it, the store after it, what it started. *)
Definition resume {A : Type} (w : World) (t : Task A) (s : MemStorage)
  : option (Task A * MemStorage * list (Task unit)) :=
  match t with
  | Await op k h =>
      match run_op w op s with
      | (Ok r, s') => Some (k r, s', [])
      | (Thrown e, s') => Some (h e, s', [])
      end
  | Spawn child k => Some (k, s, [child])
  | Return _ | Throw _ => None
  end.

Definition fire (e : Event) (σ : Server) : option Server :=
  match e with
  | Arrives req => Some {| store := store σ; tasks := tasks σ ++ [serve req] |}
  | Resumes i w =>
      match tasks σ !! i with
      | None => None
      | Some t =>
          match resume w t (store σ) with
          | None => None
          | Some (t', s', started) =>
              Some {| store := s'; tasks := <[i := t']> (tasks σ) ++ started |}
          end
      end
  end.

Definition step (σ σ' : Server) : Prop := ∃ e, fire e σ = Some σ'.

Definition boot : Server := {| store := newMemStorage; tasks := [] |}.

Definition reachable (σ : Server) : Prop := rtc step boot σ.

(** Firing a schedule from left to right. *)
Fixpoint fireAll (es : list Event) (σ : Server) : option Server :=
  match es with
  | [] => Some σ
  | e :: rest =>
      match fire e σ with
      | None => None
      | Some σ' => fireAll rest σ'
      end
  end.

(** The server after a schedule, from boot. *)
Definition afterSchedule (es : list Event) : Server :=
  default boot (fireAll es boot).

(** Every record sits under its own id. *)
Definition records_keyed (s : MemStorage) : Prop :=
  ∀ k f, files s !! k = Some f → PdfFile.id f = k.

(** ** The converter seen from the orchestrator *)

(** Calls that leave the store alone. *)
Definition isWorldOp (op : Op) : bool :=
  match op with
  | DateNow | SetTimeout _ | Exec _ _ _ | ExistsSync _ | StatSync _
  | PdfKitWrite _ | RenameSync _ _ | CopyFileSync _ _ => true
  | _ => false
  end.

(** A task whose only calls into the store report progress for one file,
    and which goes on the same way whatever record the store hands back. *)
Fixpoint reports_only (fileId : Z) {A : Type} (t : Task A) : Prop :=
  match t with
  | Return _ | Throw _ => True
  | Spawn _ _ => False
  | Await op k h =>
      (isWorldOp op = true
       ∨ ((∃ p, op = StUpdatePdfFile fileId (progressUpdate p)) ∧ ∀ r r', k r = k r')) ∧
      (∀ r, reports_only fileId (k r)) ∧
      (∀ e, reports_only fileId (h e))
  end.

(** The store with the record under [id] replaced. *)
Definition setFile (id : Z) (file : PdfFile.t) (s : MemStorage) : MemStorage :=
  {| jobs := jobs s; files := <[id := file]> (files s);
     jobCurrentId := jobCurrentId s; fileCurrentId := fileCurrentId s |}.

(** The store with the record of a job replaced. *)
Definition setJob (id : Z) (job : PdfJob.t) (s : MemStorage) : MemStorage :=
  {| jobs := <[id := job]> (jobs s); files := files s;
     jobCurrentId := jobCurrentId s; fileCurrentId := fileCurrentId s |}.

(** What the converter makes of one file: the result of [processFile], or
    the message of the error it throws, when called as the orchestrator
    calls it on store [s]. *)
Definition conversion (w : World) (options : ConversionOptions) (file : PdfFile.t)
    (s : MemStorage) : Result ProcessResult :=
  (run w (processFile (default "" (PdfFile.storagePath file))
            (PdfFile.originalName file) outputDir options
            (progressCallback (PdfFile.id file))) s).1.

(** What the orchestrator leaves in the record of [file], whose record was
    [before] when the job started: the result of the conversion with status
    completed, or its error message with status failed. *)
Definition recorded (w : World) (options : ConversionOptions) (s : MemStorage)
    (file before after : PdfFile.t) : Prop :=
  match conversion w options file s with
  | Ok result => after = spreadFile before (completedUpdate result)
  | Thrown e =>
      ∃ p, after = spreadFile (spreadFile before (progressUpdate p)) (failedUpdate e)
  end.

(** ** What a task in flight may still write

    The invariants of the server rest on who writes what: the completion
    date of a job is written by the orchestrator of that job alone, and the
    progress of a file by the orchestrator that holds the file in its list.
    A [Claim] records, for one task, the jobs whose completion it may still
    write and the files whose progress it may still write, each with the
    last percentage it wrote. *)

Record Claim : Type := {
  own_jobs : gset Z;
  own_files : gmap Z Z
}.

Definition noClaim : Claim := {| own_jobs := ∅; own_files := ∅ |}.

(** The calls a task holding claim [c] may make. *)
Definition op_allowed (op : Op) (c : Claim) : Prop :=
  match op with
  | StCreatePdfJob job => InsertPdfJob.status job ≠ completed
  | StUpdatePdfJob id updates =>
      match PartialPdfJob.completedAt updates with
      | Some date =>
          id ∈ own_jobs c ∧ is_Some date ∧ PartialPdfJob.status updates = Some completed
      | None =>
          match PartialPdfJob.status updates with
          | Some completed => False
          | Some failed | None => True
          | Some pending | Some processing => id ∈ own_jobs c
          end
      end
  | StUpdatePdfFile id updates =>
      PartialPdfFile.id updates = None ∧
      PartialPdfFile.jobId updates = None ∧
      match PartialPdfFile.progress updates with
      | Some p => ∃ b, own_files c !! id = Some b ∧ b ≤ p
      | None => True
      end
  | _ => True
  end.

(** The claim after a call: a record that was created is claimed, a job
    whose completion was written is released, a reported percentage is
    noted. *)
Definition claim_after (op : Op) (c : Claim) : Result (Ret op) → Claim :=
  match op as o return Result (Ret o) → Claim with
  | StCreatePdfJob _ => λ r,
      match r with
      | Ok job => {| own_jobs := {[PdfJob.id job]} ∪ own_jobs c;
                     own_files := own_files c |}
      | Thrown _ => c
      end
  | StCreatePdfFile _ => λ r,
      match r with
      | Ok file => {| own_jobs := own_jobs c;
                      own_files := <[PdfFile.id file := 0]> (own_files c) |}
      | Thrown _ => c
      end
  | StUpdatePdfJob id updates => λ _,
      match PartialPdfJob.completedAt updates with
      | Some _ => {| own_jobs := own_jobs c ∖ {[id]}; own_files := own_files c |}
      | None => c
      end
  | StUpdatePdfFile id updates => λ _,
      match PartialPdfFile.progress updates with
      | Some p => {| own_jobs := own_jobs c; own_files := <[id := p]> (own_files c) |}
      | None => c
      end
  | _ => λ _, c
  end.

(** What a task may assume of the value a call gives back: a file that was
    just created has an id the task has no claim on yet. *)
Definition result_fresh (op : Op) (c : Claim) : Result (Ret op) → Prop :=
  match op as o return Result (Ret o) → Prop with
  | StCreatePdfFile _ => λ r,
      match r with
      | Ok file => own_files c !! PdfFile.id file = None
      | Thrown _ => True
      end
  | _ => λ _, True
  end.

(** [safe t c Q E]: holding claim [c], task [t] makes allowed calls only,
    and ends with a value and claim in [Q] or an error and claim in [E].
    A task that is spawned takes the whole claim with it. *)
Fixpoint safe {A : Type} (t : Task A) (c : Claim)
    (Q : A → Claim → Prop) (E : string → Claim → Prop) : Prop :=
  match t with
  | Return a => Q a c
  | Throw e => E e c
  | Await op k h =>
      op_allowed op c ∧
      (∀ r, result_fresh op c (Ok r) → safe (k r) (claim_after op c (Ok r)) Q E) ∧
      (∀ e, safe (h e) (claim_after op c (Thrown e)) Q E)
  | Spawn child k =>
      safe child c (λ _ _, True) (λ _ _, True) ∧ safe k noClaim Q E
  end.

(** Calls that need no claim and change none. *)
Definition op_harmless (op : Op) : bool :=
  match op with
  | StCreatePdfJob _ | StCreatePdfFile _ => false
  | StUpdatePdfJob _ updates =>
      match PartialPdfJob.completedAt updates, PartialPdfJob.status updates with
      | None, None | None, Some failed => true
      | _, _ => false
      end
  | StUpdatePdfFile _ updates =>
      match PartialPdfFile.id updates, PartialPdfFile.jobId updates,
            PartialPdfFile.progress updates with
      | None, None, None => true
      | _, _, _ => false
      end
  | _ => true
  end.

Fixpoint harmless {A : Type} (t : Task A) : Prop :=
  match t with
  | Return _ | Throw _ => True
  | Spawn _ _ => False
  | Await op k h =>
      op_harmless op = true ∧ (∀ r, harmless (k r)) ∧ (∀ e, harmless (h e))
  end.

(** The percentages a task reports, along any of its paths, never go down,
    start at [n] or above, and stay within 100. *)
Fixpoint ascending (n : Z) {A : Type} (t : Task A) : Prop :=
  match t with
  | Return _ | Throw _ => True
  | Spawn _ _ => False
  | Await op k h =>
      match op with
      | StUpdatePdfFile _ updates =>
          match PartialPdfFile.progress updates with
          | Some p =>
              n ≤ p ≤ 100 ∧ (∀ r, ascending p (k r)) ∧ (∀ e, ascending p (h e))
          | None => (∀ r, ascending n (k r)) ∧ (∀ e, ascending n (h e))
          end
      | _ => (∀ r, ascending n (k r)) ∧ (∀ e, ascending n (h e))
      end
  end.

(** Claim [c'] is claim [c] but for the percentage noted for [fileId]. *)
Definition phase (fileId : Z) (c c' : Claim) : Prop :=
  own_jobs c' = own_jobs c ∧
  (∀ k, k ≠ fileId → own_files c' !! k = own_files c !! k) ∧
  ∃ b, own_files c' !! fileId = Some b ∧ b ≤ 100.

(** ** Invariants of the server *)

(** A completed job has its completion date, and only a job that is
    completed or failed has one. *)
Definition job_ok (job : PdfJob.t) : Prop :=
  (PdfJob.status job = completed → is_Some (PdfJob.completedAt job)) ∧
  (is_Some (PdfJob.completedAt job) → isTerminal (PdfJob.status job) = true).

(** A claim is backed by the store: a claimed job has no completion date
    yet, a claimed file has not gone beyond the percentage noted. *)
Definition claim_ok (s : MemStorage) (c : Claim) : Prop :=
  (∀ j, j ∈ own_jobs c →
     j < jobCurrentId s ∧
     ∀ job, jobs s !! j = Some job → PdfJob.completedAt job = None) ∧
  (∀ f b, own_files c !! f = Some b →
     f < fileCurrentId s ∧
     ∀ file, files s !! f = Some file → PdfFile.progress file ≤ b).

Definition claims_disjoint (c1 c2 : Claim) : Prop :=
  (∀ j, j ∈ own_jobs c1 → j ∈ own_jobs c2 → False) ∧
  (∀ f, is_Some (own_files c1 !! f) → is_Some (own_files c2 !! f) → False).

(** The claims of the tasks in flight: each backed by the store, no two of
    them on the same job or file. *)
Definition claims_ok (s : MemStorage) (cs : list Claim) : Prop :=
  (∀ i c, cs !! i = Some c → claim_ok s c) ∧
  (∀ i j ci cj, i ≠ j → cs !! i = Some ci → cs !! j = Some cj →
                claims_disjoint ci cj).

(** The store is well formed: ids below the counters, every job [job_ok]. *)
Definition store_ok (s : MemStorage) : Prop :=
  ids_below_counters s ∧ ∀ k job, jobs s !! k = Some job → job_ok job.

Definition invariant (σ : Server) : Prop :=
  store_ok (store σ) ∧
  ∃ cs : list Claim,
    Forall2 (λ t c, safe t c (λ _ _, True) (λ _ _, True)) (tasks σ) cs ∧
    claims_ok (store σ) cs.

(** What a poll of the status route shows: the pairs of file id and
    percentage in its answer for job [jobId], read off store [s]. *)
Definition poll (w : World) (jobId : Z) (s : MemStorage) : list (Z * Z) :=
  match (run w (statusHandler (Some jobId)) s).1 with
  | Ok {| body := StatusBody _ _ entries |} =>
      (λ entry, (StatusEntry.fileId entry, StatusEntry.percentage entry)) <$> entries
  | _ => []
  end.

(** From one store to a later one: no record disappears, a completion date
    that is set stays as it is, a file keeps its id and its job, and no
    percentage goes down. *)
Definition advances (s s' : MemStorage) : Prop :=
  (∀ k job, jobs s !! k = Some job →
     ∃ job', jobs s' !! k = Some job' ∧
             (is_Some (PdfJob.completedAt job) →
              PdfJob.completedAt job' = PdfJob.completedAt job)) ∧
  (∀ k file, files s !! k = Some file →
     ∃ file', files s' !! k = Some file' ∧
              PdfFile.id file' = PdfFile.id file ∧
              PdfFile.jobId file' = PdfFile.jobId file ∧
              PdfFile.progress file ≤ PdfFile.progress file').

(** What the orchestrator of [jobId] holds while [l] is still to be
    processed: the job, and each file of [l], untouched so far. *)
Definition holds (jobId : Z) (l : list PdfFile.t) (c : Claim) : Prop :=
  NoDup (PdfFile.id <$> l) ∧
  jobId ∈ own_jobs c ∧
  ∀ file, file ∈ l → own_files c !! PdfFile.id file = Some 0.

(** What one allowed call, made by the holder of claim [c], keeps true. *)
Definition call_ok (w : World) (op : Op) (s : MemStorage) (c : Claim) : Prop :=
  let r := (run_op w op s).1 in
  let s' := (run_op w op s).2 in
  store_ok s' ∧
  claim_ok s' (claim_after op c r) ∧
  result_fresh op c r ∧
  advances s s' ∧
  ∀ c', claim_ok s c' → claims_disjoint c c' →
        claim_ok s' c' ∧ claims_disjoint (claim_after op c r) c'.

(** ** How a task can end *)

(** [ends t Q E]: however the calls of [t] are answered, [t] ends with a
    value in [Q] or with an error in [E]. *)
Fixpoint ends {A : Type} (t : Task A) (Q : A → Prop) (E : string → Prop) : Prop :=
  match t with
  | Return a => Q a
  | Throw e => E e
  | Await _ k h => (∀ r, ends (k r) Q E) ∧ (∀ e, ends (h e) Q E)
  | Spawn _ k => ends k Q E
  end.

(** [outcome_in w t Q]: in world [w], with every progress report taken,
    task [t] ends with a result in [Q].  The calls into the world are
    answered by [w]; what a report gives back is left open. *)
Fixpoint outcome_in (w : World) {A : Type} (t : Task A) (Q : Result A → Prop) : Prop :=
  match t with
  | Return a => Q (Ok a)
  | Throw e => Q (Thrown e)
  | Spawn _ _ => False
  | Await op k h =>
      if isWorldOp op then
        match (run_op w op newMemStorage).1 with
        | Ok r => outcome_in w (k r) Q
        | Thrown e => outcome_in w (h e) Q
        end
      else ∀ r, outcome_in w (k r) Q
  end.

(** ** The percentages a task reports *)

(** The percentages written by the progress updates of [t], in the order
    in which a run of [t] on store [s] in world [w] makes them. *)
Fixpoint reports {A : Type} (w : World) (t : Task A) (s : MemStorage) : list Z :=
  match t with
  | Return _ | Throw _ => []
  | Await op k h =>
      match op with
      | StUpdatePdfFile _ updates => option_list (PartialPdfFile.progress updates)
      | _ => []
      end ++
      match run_op w op s with
      | (Ok r, s') => reports w (k r) s'
      | (Thrown e, s') => reports w (h e) s'
      end
  | Spawn _ k => reports w k s
  end.

(** Calls into the outside world that can fail: the external tools and the
    file system calls that throw.  The clock, the timer and [existsSync]
    cannot. *)
Definition mayThrow (op : Op) : bool :=
  match op with
  | Exec _ _ _ | StatSync _ | RenameSync _ _ | CopyFileSync _ _ => true
  | _ => false
  end.

(** [reporting fileId done t Q E]: having reported [done] so far, [t] goes
    on reporting progress for [fileId] and nothing else, and ends with a
    value when all it has reported is in [Q], with an error when it is in
    [E].  The record of [fileId] is taken to be in the store, so that a
    report is never refused. *)
Fixpoint reporting (fileId : Z) (done : list Z) {A : Type} (t : Task A)
    (Q E : list Z → Prop) : Prop :=
  match t with
  | Return _ => Q done
  | Throw _ => E done
  | Spawn _ _ => False
  | Await op k h =>
      match op with
      | StUpdatePdfFile id updates =>
          id = fileId ∧
          ∃ p, updates = progressUpdate p ∧
               ∀ r, reporting fileId (done ++ [p]) (k r) Q E
      | _ =>
          isWorldOp op = true ∧
          (∀ r, reporting fileId done (k r) Q E) ∧
          (mayThrow op = true → ∀ e, reporting fileId done (h e) Q E)
      end
  end.


(** The record of a file after the progress reports [l], in this order. *)
Definition reported (file : PdfFile.t) (l : list Z) : PdfFile.t :=
  foldl (λ file p, spreadFile file (progressUpdate p)) file l.

(** ** What a run starts *)

(** The functions a run of [t] starts without awaiting them, in the order
    in which it starts them. *)
Fixpoint started {A : Type} (w : World) (t : Task A) (s : MemStorage)
  : list (Task unit) :=
  match t with
  | Return _ | Throw _ => []
  | Await op k h =>
      match run_op w op s with
      | (Ok r, s') => started w (k r) s'
      | (Thrown e, s') => started w (h e) s'
      end
  | Spawn child k => child :: started w k s
  end.

(** The record [createPdfFile] makes of the [i]-th part of an upload that
    is registered under [jobId] when the next file id is [next]. *)
Definition uploadedRecord (jobId next : Z) (i : nat) (part : IncomingFile) : PdfFile.t :=
  {| PdfFile.id := next + Z.of_nat i;
     PdfFile.jobId := jobId;
     PdfFile.originalName := in_originalname part;
     PdfFile.originalSize := in_size part;
     PdfFile.convertedName := None;
     PdfFile.convertedSize := None;
     PdfFile.status := pending;
     PdfFile.error := None;
     PdfFile.isPdfA := false;
     PdfFile.hasOcr := false;
     PdfFile.progress := 0;
     PdfFile.storagePath :=
       Some (path_join uploadDir (in_uuid part +:+ "-" +:+ in_originalname part));
     PdfFile.downloadUrl := None |}.

(** ** Records that stay in place

    Who a record is never changes once it is created: no update in the
    code names the id, the creation date or the options of a job, or the
    id, the job, the original name or the original size of a file; and a
    file is only ever created for a job the same function has created
    before. *)

(** What a call must keep to, for a task that has created the jobs
    [known]. *)
Definition op_tidy (known : gset Z) (op : Op) : Prop :=
  match op with
  | StUpdatePdfJob _ updates =>
      PartialPdfJob.id updates = None ∧
      PartialPdfJob.createdAt updates = None ∧
      PartialPdfJob.options updates = None
  | StUpdatePdfFile _ updates =>
      PartialPdfFile.id updates = None ∧
      PartialPdfFile.jobId updates = None ∧
      PartialPdfFile.originalName updates = None ∧
      PartialPdfFile.originalSize updates = None
  | StCreatePdfFile file => InsertPdfFile.jobId file ∈ known
  | _ => True
  end.

(** The jobs a task has created, after one more call. *)
Definition known_after (op : Op) (known : gset Z) : Ret op → gset Z :=
  match op as o return Ret o → gset Z with
  | StCreatePdfJob _ => λ job, {[PdfJob.id job]} ∪ known
  | _ => λ _, known
  end.

(** [tidy t known Q]: having created the jobs [known], task [t] makes
    calls that are [op_tidy] only, and returns with a value and a set of
    jobs in [Q].  A function it starts knows the jobs it knows. *)
Fixpoint tidy {A : Type} (t : Task A) (known : gset Z)
    (Q : A → gset Z → Prop) : Prop :=
  match t with
  | Return a => Q a known
  | Throw _ => True
  | Await op k h =>
      op_tidy known op ∧
      (∀ r, tidy (k r) (known_after op known r) Q) ∧
      (∀ e, tidy (h e) known Q)
  | Spawn child k => tidy child known (λ _ _, True) ∧ tidy k known Q
  end.

(** Calls that create nothing and are [op_tidy] whatever is known. *)
Definition op_plain (op : Op) : bool :=
  match op with
  | StCreatePdfJob _ | StCreatePdfFile _ => false
  | StUpdatePdfJob _ updates =>
      match PartialPdfJob.id updates, PartialPdfJob.createdAt updates,
            PartialPdfJob.options updates with
      | None, None, None => true
      | _, _, _ => false
      end
  | StUpdatePdfFile _ updates =>
      match PartialPdfFile.id updates, PartialPdfFile.jobId updates,
            PartialPdfFile.originalName updates,
            PartialPdfFile.originalSize updates with
      | None, None, None, None => true
      | _, _, _, _ => false
      end
  | _ => true
  end.

Fixpoint plain {A : Type} (t : Task A) : Prop :=
  match t with
  | Return _ | Throw _ => True
  | Spawn _ _ => False
  | Await op k h =>
      op_plain op = true ∧ (∀ r, plain (k r)) ∧ (∀ e, plain (h e))
  end.

(** Every record sits under its own id, and every file belongs to a job
    that is in the store. *)
Definition store_linked (s : MemStorage) : Prop :=
  (∀ k job, jobs s !! k = Some job → PdfJob.id job = k) ∧
  (∀ k file, files s !! k = Some file →
     PdfFile.id file = k ∧ is_Some (jobs s !! PdfFile.jobId file)).

(** The store is linked, and the jobs the tasks in flight have created
    are in it. *)
Definition linked (σ : Server) : Prop :=
  ids_below_counters (store σ) ∧
  store_linked (store σ) ∧
  ∃ ks : list (gset Z),
    Forall2 (λ t known, tidy t known (λ _ _, True)) (tasks σ) ks ∧
    ∀ known j, known ∈ ks → j ∈ known → is_Some (jobs (store σ) !! j).

(** From one store to a later one: every record is still there, and is
    still the record of the same upload. *)
Definition keeps (s s' : MemStorage) : Prop :=
  (∀ k job, jobs s !! k = Some job →
     ∃ job', jobs s' !! k = Some job' ∧
             PdfJob.id job' = PdfJob.id job ∧
             PdfJob.createdAt job' = PdfJob.createdAt job ∧
             PdfJob.options job' = PdfJob.options job) ∧
  (∀ k file, files s !! k = Some file →
     ∃ file', files s' !! k = Some file' ∧
              PdfFile.id file' = PdfFile.id file ∧
              PdfFile.jobId file' = PdfFile.jobId file ∧
              PdfFile.originalName file' = PdfFile.originalName file ∧
              PdfFile.originalSize file' = PdfFile.originalSize file).

(** ** Sample inputs *)

(** A caller that fills in every field [createPdfFile] resets. *)
Definition insistentInsert : InsertPdfFile.t :=
  {| InsertPdfFile.jobId := 1;
     InsertPdfFile.originalName := "a.pdf";
     InsertPdfFile.originalSize := 10;
     InsertPdfFile.convertedName := Some "b.pdf";
     InsertPdfFile.convertedSize := Some 20;
     InsertPdfFile.status := completed;
     InsertPdfFile.error := Some "boom";
     InsertPdfFile.isPdfA := Some true;
     InsertPdfFile.hasOcr := Some true;
     InsertPdfFile.progress := Some 99;
     InsertPdfFile.storagePath := Some "tmp/uploads/u-a.pdf";
     InsertPdfFile.downloadUrl := Some "/files/b.pdf" |}.

(** A world where the external tools are not installed, the input can be
    copied to the output and the output file has 2048 bytes. *)
Definition fallbackWorld : World :=
  {| now := 1700000000000;
     exec_ok := λ _ _ _, false;
     existsSync := λ _, false;
     statSync := λ _, Some 2048;
     renameSync_ok := λ _ _, true;
     copyFileSync_ok := λ _ _, true |}.


(** A world where no tool works and nothing can be written. *)
Definition brokenWorld : World :=
  {| now := 1700000000000;
     exec_ok := λ _ _ _, false;
     existsSync := λ _, false;
     statSync := λ _, None;
     renameSync_ok := λ _ _, false;
     copyFileSync_ok := λ _ _, false |}.

Definition defaultOptions : ConversionOptions :=
  {| applyOcr := true; verifyCompliance := true; optimizeSize := false |}.

(** [options = "{}"]: every option takes its default. *)
Definition emptyOptions : OptionsRaw := RawText "{}" (Some (JObject [])).

Definition smallPdf : IncomingFile :=
  {| in_fieldname := "files"; in_originalname := "a.pdf";
     in_mimetype := "application/pdf";
     in_size := 5; in_uuid := "0e1f" |}.


(** A PDF of exactly 20 MB, the limit of the middleware. *)
Definition limitPdf : IncomingFile :=
  {| in_fieldname := "files"; in_originalname := "b.pdf";
     in_mimetype := "application/pdf"; in_size := 20971520; in_uuid := "51d2" |}.

(** The store after the upload handler has registered [smallPdf] as the only
    file of job 1. *)
Definition uploadedStore : MemStorage :=
  let s1 := (createPdfJob 1700000000000
               {| InsertPdfJob.status := pending;
                  InsertPdfJob.options := defaultOptions |} newMemStorage).2 in
  (createPdfFile (insertFile 1 (stored smallPdf)) s1).2.

(** The record of that file as the upload handler holds it in [jobFiles]. *)
Definition uploadedFile : PdfFile.t :=
  {| PdfFile.id := 1; PdfFile.jobId := 1;
     PdfFile.originalName := "a.pdf"; PdfFile.originalSize := 5;
     PdfFile.convertedName := None; PdfFile.convertedSize := None;
     PdfFile.status := pending; PdfFile.error := None;
     PdfFile.isPdfA := false; PdfFile.hasOcr := false;
     PdfFile.progress := 0;
     PdfFile.storagePath := Some "tmp/uploads/0e1f-a.pdf";
     PdfFile.downloadUrl := None |}.

(** A job of three files; the output of the second cannot be written. *)
Definition firstPdf : IncomingFile :=
  {| in_fieldname := "files"; in_originalname := "one.pdf";
     in_mimetype := "application/pdf";
     in_size := 1000; in_uuid := "aa01" |}.
Definition secondPdf : IncomingFile :=
  {| in_fieldname := "files"; in_originalname := "two.pdf";
     in_mimetype := "application/pdf";
     in_size := 2000; in_uuid := "aa02" |}.
Definition thirdPdf : IncomingFile :=
  {| in_fieldname := "files"; in_originalname := "three.pdf";
     in_mimetype := "application/pdf";
     in_size := 3000; in_uuid := "aa03" |}.

(** The store after the upload handler has registered the three files as
    job 1. *)
Definition threeFileStore : MemStorage :=
  let s0 := (createPdfJob 1700000000000
               {| InsertPdfJob.status := pending;
                  InsertPdfJob.options := defaultOptions |} newMemStorage).2 in
  let s1 := (createPdfFile (insertFile 1 (stored firstPdf)) s0).2 in
  let s2 := (createPdfFile (insertFile 1 (stored secondPdf)) s1).2 in
  (createPdfFile (insertFile 1 (stored thirdPdf)) s2).2.

(** The records [createPdfFile] gave back, as the handler holds them. *)
Definition pendingFile (id : Z) (name : string) (size : Z) (path : string) : PdfFile.t :=
  {| PdfFile.id := id; PdfFile.jobId := 1;
     PdfFile.originalName := name; PdfFile.originalSize := size;
     PdfFile.convertedName := None; PdfFile.convertedSize := None;
     PdfFile.status := pending; PdfFile.error := None;
     PdfFile.isPdfA := false; PdfFile.hasOcr := false;
     PdfFile.progress := 0;
     PdfFile.storagePath := Some path;
     PdfFile.downloadUrl := None |}.

Definition firstFile : PdfFile.t :=
  pendingFile 1 "one.pdf" 1000 "tmp/uploads/aa01-one.pdf".
Definition secondFile : PdfFile.t :=
  pendingFile 2 "two.pdf" 2000 "tmp/uploads/aa02-two.pdf".
Definition thirdFile : PdfFile.t :=
  pendingFile 3 "three.pdf" 3000 "tmp/uploads/aa03-three.pdf".

Definition threeFiles : list PdfFile.t := [firstFile; secondFile; thirdFile].

(** The external tools are missing, and nothing can be written or found
    under the output name of two.pdf. *)
Definition secondFailsWorld : World :=
  let blocked (p : string) := String.eqb p "tmp/converted/two_PDFA2u.pdf" in
  {| now := 1700000000000;
     exec_ok := λ _ _ _, false;
     existsSync := λ _, false;
     statSync := λ p, if blocked p then None else Some 2048;
     renameSync_ok := λ _ p, negb (blocked p);
     copyFileSync_ok := λ _ p, negb (blocked p) |}.

(** A schedule: [smallPdf] is uploaded and registered as job 1 (task 0 is
    the upload handler, task 1 the orchestrator it starts); the orchestrator
    marks the job and the file as processing and reports 10 percent, and is
    then waiting on the timer inside [processFile]. *)
Definition uploadSchedule : list Event :=
  Arrives (PostUpload (Some [smallPdf]) emptyOptions)
  :: replicate 3 (Resumes 0 fallbackWorld)
  ++ replicate 4 (Resumes 1 fallbackWorld).

(** While the orchestrator waits, a cancel request for job 1 arrives and is
    served to its end (task 2). *)
Definition cancelSchedule : list Event :=
  uploadSchedule
  ++ Arrives (PostCancel (Some 1)) :: replicate 4 (Resumes 2 fallbackWorld).

(** The orchestrator is resumed until it returns. *)
Definition finishSchedule : list Event := replicate 16 (Resumes 1 fallbackWorld).

(** A job of the single-file variant that is being processed. *)
Definition legacyProcessing : Legacy.MemStorage :=
  let created := (Legacy.createPdfJob 1700000000000 "a.pdf" "local" pending
                    Legacy.newMemStorage).2 in
  (Legacy.updatePdfJobStatus 1 processing created).2.

(** * Properties *)

(** ** Running tasks *)

Lemma run_bind {A B : Type} (w : World) (t : Task A) (f : A → Task B) (s : MemStorage) :
  run w (bind t f) s =
  match run w t s with
  | (Ok a, s') => run w (f a) s'
  | (Thrown e, s') => (Thrown e, s')
  end.
Proof.
  revert s. induction t as [A a|A m|A op k IHk h IHh|A child _ k IHk]; intros s; simpl.
  - reflexivity.
  - reflexivity.
  - destruct (run_op w op s) as [[r|e] s']; [apply IHk|apply IHh].
  - apply IHk.
Qed.

Lemma run_seq {A B : Type} (w : World) (t : Task A) (u : Task B) (s : MemStorage) :
  run w (t ;; u) s =
  match run w t s with
  | (Ok _, s') => run w u s'
  | (Thrown e, s') => (Thrown e, s')
  end.
Proof. apply (run_bind w t (λ _, u)). Qed.

Lemma run_try_catch {A : Type} (w : World) (t : Task A) (handler : string → Task A)
    (s : MemStorage) :
  run w (try_catch t handler) s =
  match run w t s with
  | (Ok a, s') => (Ok a, s')
  | (Thrown e, s') => run w (handler e) s'
  end.
Proof.
  revert s. induction t as [A a|A m|A op k IHk h IHh|A child _ k IHk]; intros s; simpl.
  - reflexivity.
  - reflexivity.
  - destruct (run_op w op s) as [[r|e] s']; [apply IHk|apply IHh].
  - apply IHk.
Qed.

Lemma forEach_cons {X : Type} (x : X) (rest : list X) (body : X → Task unit) :
  forEach (x :: rest) body = (body x ;; forEach rest body).
Proof. reflexivity. Qed.

Lemma run_call (w : World) (op : Op) (s : MemStorage) :
  run w (call op) s = run_op w op s.
Proof. unfold call. simpl. by destruct (run_op w op s) as [[r|e] s']. Qed.

(** ** The store *)

Lemma reachable_ids_below_counters (s : MemStorage) :
  storage_reachable s → ids_below_counters s.
Proof.
  induction 1 as [|now job s _ [IHj IHf]|id updates s _ [IHj IHf]
                  |file s _ [IHj IHf]|id updates s _ [IHj IHf]].
  - split; intros k [x Hx]; simpl in Hx; by rewrite lookup_empty in Hx.
  - split; simpl; [|done]. intros k Hk.
    destruct (decide (jobCurrentId s = k)) as [<-|Hne]; [lia|].
    rewrite lookup_insert_ne in Hk by done. specialize (IHj k Hk). lia.
  - unfold updatePdfJob. destruct (jobs s !! id) as [job|] eqn:Hjob; [|done].
    split; simpl; [|done]. intros k Hk.
    destruct (decide (id = k)) as [<-|Hne]; [by apply IHj|].
    rewrite lookup_insert_ne in Hk by done. by apply IHj.
  - split; simpl; [done|]. intros k Hk.
    destruct (decide (fileCurrentId s = k)) as [<-|Hne]; [lia|].
    rewrite lookup_insert_ne in Hk by done. specialize (IHf k Hk). lia.
  - unfold updatePdfFile. destruct (files s !! id) as [file|] eqn:Hfile; [|done].
    split; simpl; [done|]. intros k Hk.
    destruct (decide (id = k)) as [<-|Hne]; [by apply IHf|].
    rewrite lookup_insert_ne in Hk by done. by apply IHf.
Qed.

(** C9. [updatePdfJob] and [updatePdfFile] on an id that is not in the store
    throw ("Job/File with id ... not found") and give back the store they
    were called on: no record is created or modified. *)
Theorem update_missing_id_throws (s : MemStorage) (id : Z) :
  (jobs s !! id = None →
   ∀ updates, updatePdfJob id updates s
              = (Thrown ("Job with id " +:+ pretty id +:+ " not found"), s)) ∧
  (files s !! id = None →
   ∀ updates, updatePdfFile id updates s
              = (Thrown ("File with id " +:+ pretty id +:+ " not found"), s)).
Proof.
  split; intros Hnone updates.
  - unfold updatePdfJob. by rewrite Hnone.
  - unfold updatePdfFile. by rewrite Hnone.
Qed.

Lemma update_missing_id_throws_witness :
  updatePdfJob 7 (jobStatusUpdate failed) newMemStorage
  = (Thrown "Job with id 7 not found", newMemStorage) ∧
  updatePdfFile 7 (progressUpdate 50) newMemStorage
  = (Thrown "File with id 7 not found", newMemStorage).
Proof.
  destruct (update_missing_id_throws newMemStorage 7) as [Hjob Hfile].
  split.
  - apply (Hjob (lookup_empty 7)).
  - apply (Hfile (lookup_empty 7)).
Defined.

(** C10. [createPdfFile] stores the new file with progress 0, no error,
    isPdfA and hasOcr false, and no converted name, converted size or
    download URL, whatever the caller put in those fields; in a store built
    by the methods of [MemStorage] the id it assigns is not the key of any
    file already stored (nor, where every record sits under its own id, the
    id of any stored record). *)
Theorem createPdfFile_initial_state (file : InsertPdfFile.t) (s : MemStorage) :
  storage_reachable s →
  let newFile := (createPdfFile file s).1 in
  let s' := (createPdfFile file s).2 in
  files s' !! PdfFile.id newFile = Some newFile ∧
  PdfFile.progress newFile = 0 ∧
  PdfFile.error newFile = None ∧
  PdfFile.isPdfA newFile = false ∧
  PdfFile.hasOcr newFile = false ∧
  PdfFile.convertedName newFile = None ∧
  PdfFile.convertedSize newFile = None ∧
  PdfFile.downloadUrl newFile = None ∧
  files s !! PdfFile.id newFile = None ∧
  (∀ k, is_Some (files s !! k) → k ≠ PdfFile.id newFile) ∧
  ((∀ k f, files s !! k = Some f → PdfFile.id f = k) →
   ∀ k f, files s !! k = Some f → PdfFile.id f ≠ PdfFile.id newFile).
Proof.
  intros Hreach newFile s'.
  destruct (reachable_ids_below_counters s Hreach) as [_ Hbelow].
  assert (Hfresh : ∀ k, is_Some (files s !! k) → k ≠ fileCurrentId s).
  { intros k Hk. specialize (Hbelow k Hk). lia. }
  subst newFile s'. simpl.
  split; [apply lookup_insert_eq|].
  do 7 (split; [reflexivity|]).
  split.
  { destruct (files s !! fileCurrentId s) eqn:Hlook; [|done].
    exfalso. by apply (Hfresh (fileCurrentId s)). }
  split; [exact Hfresh|].
  intros Hkeyed k f Hf. rewrite (Hkeyed k f Hf). apply Hfresh. by exists f.
Qed.

Lemma createPdfFile_initial_state_witness :
  let s := (createPdfFile insistentInsert newMemStorage).2 in
  let newFile := (createPdfFile insistentInsert s).1 in
  storage_reachable s ∧
  PdfFile.id newFile = 2 ∧
  PdfFile.progress newFile = 0 ∧
  PdfFile.error newFile = None ∧
  files s !! PdfFile.id newFile = None.
Proof.
  intros s newFile.
  assert (Hreach : storage_reachable s).
  { apply reach_createPdfFile, reach_new. }
  split; [exact Hreach|].
  split; [reflexivity|].
  destruct (createPdfFile_initial_state insistentInsert s Hreach)
    as (_ & Hprogress & Herror & _ & _ & _ & _ & _ & Hfresh & _).
  split; [exact Hprogress|].
  split; [exact Herror|exact Hfresh].
Defined.

(** ** Results retrieval *)




(** ** Upload intake *)







(** ** Listing the files of a job *)

Lemma mapEntries_Permutation {A : Type} (m : gmap Z A) : mapEntries m ≡ₚ map_to_list m.
Proof. apply merge_sort_Permutation. Qed.

Lemma elem_of_mapEntries {A : Type} (m : gmap Z A) (k : Z) (a : A) :
  (k, a) ∈ mapEntries m ↔ m !! k = Some a.
Proof. rewrite mapEntries_Permutation. apply elem_of_map_to_list. Qed.

Lemma elem_of_getPdfFilesByJobId (jobId : Z) (s : MemStorage) (file : PdfFile.t) :
  file ∈ getPdfFilesByJobId jobId s ↔
  PdfFile.jobId file = jobId ∧ ∃ k, files s !! k = Some file.
Proof.
  unfold getPdfFilesByJobId. rewrite list_elem_of_filter, list_elem_of_fmap.
  split.
  - intros [Hjob [[k f] [-> Hin]]]. apply elem_of_mapEntries in Hin. eauto.
  - intros [Hjob [k Hk]]. split; [done|].
    exists (k, file). split; [done|]. by apply elem_of_mapEntries.
Qed.

Lemma getPdfFilesByJobId_NoDup (jobId : Z) (s : MemStorage) :
  records_keyed s → NoDup (PdfFile.id <$> getPdfFilesByJobId jobId s).
Proof.
  intros Hkeyed. unfold getPdfFilesByJobId.
  apply (sublist_NoDup _ (PdfFile.id <$> (mapEntries (files s)).*2)).
  - assert (Heq : PdfFile.id <$> (mapEntries (files s)).*2 = (mapEntries (files s)).*1).
    { rewrite <-list_fmap_compose. apply list_fmap_ext.
      intros i [k f] Hin. apply list_elem_of_lookup_2, elem_of_mapEntries in Hin.
      simpl. by apply Hkeyed. }
    rewrite Heq, mapEntries_Permutation. apply NoDup_fst_map_to_list.
  - apply fmap_sublist, sublist_filter.
Qed.

(** The listing of a job, key by key: the keys of the files of the job in
    ascending order, each with the record stored under it. *)
Lemma StronglySorted_filter {A : Type} (R : relation A) (P : A → Prop)
    `{∀ x, Decision (P x)} (l : list A) :
  StronglySorted R l → StronglySorted R (filter P l).
Proof.
  induction 1 as [|a l Hl IH Ha]; [constructor|].
  destruct (decide (P a)).
  - rewrite filter_cons_True by done. constructor; [done|].
    apply Forall_forall. intros x Hx. apply list_elem_of_filter in Hx as [_ Hx].
    by apply (proj1 (Forall_forall _ _) Ha).
  - by rewrite filter_cons_False.
Qed.

Lemma filter_snd {A : Type} (P : A → Prop) `{∀ x, Decision (P x)} (l : list (Z * A)) :
  filter P l.*2 = (filter (λ kv, P kv.2) l).*2.
Proof.
  induction l as [|[k a] l IH]; [done|]. rewrite fmap_cons. cbn [snd].
  destruct (decide (P a)).
  - rewrite !filter_cons_True by done. rewrite fmap_cons. by rewrite IH.
  - by rewrite !filter_cons_False.
Qed.

Lemma mapEntries_sorted {A : Type} (m : gmap Z A) :
  StronglySorted (λ a b : Z * A, a.1 < b.1) (mapEntries m).
Proof.
  assert (Htrans : Transitive (@byKey A)).
  { intros a b c. unfold byKey. lia. }
  assert (Htotal : Total (@byKey A)).
  { intros a b. unfold byKey. lia. }
  assert (Hsorted : StronglySorted byKey (mapEntries m))
    by apply (StronglySorted_merge_sort byKey).
  assert (Hnodup : NoDup (mapEntries m).*1).
  { rewrite mapEntries_Permutation. apply NoDup_fst_map_to_list. }
  induction Hsorted as [|a l Hl IH Ha]; [constructor|].
  rewrite fmap_cons in Hnodup. apply NoDup_cons in Hnodup as [Hfresh Hnodup].
  constructor; [by apply IH|].
  apply Forall_forall. intros b Hb.
  assert (Hle := proj1 (Forall_forall _ _) Ha b Hb). unfold byKey in Hle.
  assert (a.1 ≠ b.1); [|lia].
  intros Heq. apply Hfresh. rewrite Heq. by apply list_elem_of_fmap_2.
Qed.

Lemma getPdfFilesByJobId_listing (jobId : Z) (s : MemStorage) :
  ∃ keys : list Z,
    StronglySorted Z.lt keys ∧
    (∀ k, k ∈ keys ↔
          ∃ file, files s !! k = Some file ∧ PdfFile.jobId file = jobId) ∧
    Forall2 (λ k file, files s !! k = Some file) keys (getPdfFilesByJobId jobId s).
Proof.
  set (mine := filter (λ kv : Z * PdfFile.t, PdfFile.jobId kv.2 = jobId)
                 (mapEntries (files s))).
  exists mine.*1. split; [|split].
  - apply (StronglySorted_fmap fst (λ a b : Z * PdfFile.t, a.1 < b.1)); [done|].
    apply StronglySorted_filter, mapEntries_sorted.
  - intros k. rewrite list_elem_of_fmap. split.
    + intros [[k' file] [-> Hin]].
      apply list_elem_of_filter in Hin as [Hjob Hin].
      apply elem_of_mapEntries in Hin. by exists file.
    + intros (file & Hfile & Hjob). exists (k, file). split; [done|].
      apply list_elem_of_filter. split; [done|]. by apply elem_of_mapEntries.
  - unfold getPdfFilesByJobId. rewrite filter_snd. fold mine.
    apply Forall2_fmap, Forall2_same_length_lookup_2; [done|].
    intros i x y Hx Hy. rewrite Hx in Hy. injection Hy as <-.
    apply list_elem_of_lookup_2 in Hx. destruct x as [k file].
    apply list_elem_of_filter in Hx as [_ Hx]. by apply elem_of_mapEntries.
Qed.

Lemma sorted_keys_NoDup (l : list Z) : StronglySorted Z.lt l → NoDup l.
Proof.
  induction 1 as [|a l Hl IH Ha]; [constructor|]. constructor; [|done].
  intros Hin. assert (H := proj1 (Forall_forall _ _) Ha a Hin). lia.
Qed.

Lemma sorted_keys_unique (l1 l2 : list Z) :
  StronglySorted Z.lt l1 → StronglySorted Z.lt l2 →
  (∀ k, k ∈ l1 ↔ k ∈ l2) → l1 = l2.
Proof.
  intros H1 H2 Hsame.
  apply (StronglySorted_unique_strong Z.lt); [intros; lia|done|done|].
  apply NoDup_Permutation; [by apply sorted_keys_NoDup|by apply sorted_keys_NoDup|done].
Qed.

Lemma listing_unique (s : MemStorage) (keys : list Z) (l1 l2 : list PdfFile.t) :
  Forall2 (λ k file, files s !! k = Some file) keys l1 →
  Forall2 (λ k file, files s !! k = Some file) keys l2 →
  l1 = l2.
Proof.
  intros H1. revert l2. induction H1 as [|k f keys l1 Hk H1 IH]; intros l2 H2.
  - by inversion H2.
  - inversion H2 as [|k' f' keys' l2' Hk' H2']; subst.
    rewrite Hk in Hk'. injection Hk' as <-. f_equal. by apply IH.
Qed.

(** A loop that applies one update to the files of a list that pass a test. *)
Lemma run_forEach_update (w : World) (test : PdfFile.t → bool) (updates : PartialPdfFile.t)
    (l : list PdfFile.t) (s : MemStorage) :
  NoDup (PdfFile.id <$> l) →
  (∀ f, f ∈ l → files s !! PdfFile.id f = Some f) →
  ∃ s',
    run w (forEach l (λ file,
             if test file
             then call (StUpdatePdfFile (PdfFile.id file) updates) ;; Return tt
             else Return tt)) s = (Ok tt, s') ∧
    jobs s' = jobs s ∧
    (∀ f, f ∈ l →
       files s' !! PdfFile.id f = Some (if test f then spreadFile f updates else f)) ∧
    (∀ k, k ∉ PdfFile.id <$> l → files s' !! k = files s !! k).
Proof.
  revert s. induction l as [|file rest IH]; intros s Hnodup Hstored.
  - exists s. split; [done|]. split; [done|]. split; [|done].
    intros f Hf. by apply elem_of_nil in Hf.
  - rewrite fmap_cons in Hnodup. apply NoDup_cons in Hnodup as [Hfresh Hnodup].
    assert (Hfile : files s !! PdfFile.id file = Some file)
      by apply Hstored, list_elem_of_here.
    (* the store after the body for [file] *)
    set (s1 := if test file then (updatePdfFile (PdfFile.id file) updates s).2 else s).
    assert (Hjobs1 : jobs s1 = jobs s).
    { subst s1. destruct (test file); [|done]. unfold updatePdfFile. by rewrite Hfile. }
    assert (Hhere : files s1 !! PdfFile.id file
                    = Some (if test file then spreadFile file updates else file)).
    { subst s1. destruct (test file); [|done].
      unfold updatePdfFile. rewrite Hfile. simpl. apply lookup_insert_eq. }
    assert (Hother : ∀ k, k ≠ PdfFile.id file → files s1 !! k = files s !! k).
    { intros k Hk. subst s1. destruct (test file); [|done].
      unfold updatePdfFile. rewrite Hfile. simpl. by apply lookup_insert_ne. }
    assert (Hbody : run w (if test file
                           then call (StUpdatePdfFile (PdfFile.id file) updates) ;; Return tt
                           else Return tt) s = (Ok tt, s1)).
    { subst s1. destruct (test file); [|done].
      rewrite run_seq, run_call. simpl. unfold updatePdfFile. by rewrite Hfile. }
    destruct (IH s1 Hnodup) as (s' & Hrun & Hjobs & Hin & Hout).
    { intros f Hf. rewrite Hother; [apply Hstored; by apply list_elem_of_further|].
      intros Heq. apply Hfresh. rewrite <-Heq. by apply list_elem_of_fmap_2. }
    exists s'. split; [|split; [|split]].
    + rewrite forEach_cons, run_seq. cbv beta. rewrite Hbody. exact Hrun.
    + by rewrite Hjobs.
    + intros f Hf. apply elem_of_cons in Hf as [->|Hf]; [|by apply Hin].
      rewrite Hout; [exact Hhere|exact Hfresh].
    + intros k Hk. rewrite fmap_cons in Hk. apply not_elem_of_cons in Hk as [Hne Hk].
      rewrite Hout by done. by apply Hother.
Qed.

(** ** Cancellation *)

Lemma nonterminal_test (status : Status) :
  bool_decide (status = pending) || bool_decide (status = processing)
  = negb (isTerminal status).
Proof. by destruct status. Qed.

(** C3. Cancelling a job that is pending or processing answers 200, sets the
    job to failed and sets each of its files that is pending or processing
    to failed with the message "Trabalho cancelado pelo usuário"; files that
    are already terminal, and the files of other jobs, stay as they are.
    Cancelling a job that is completed or failed answers 400 and leaves the
    store as it was. *)
Theorem cancel_route (w : World) (s : MemStorage) (jobId : Z) (job : PdfJob.t) :
  records_keyed s →
  jobId ≠ 0 →
  jobs s !! jobId = Some job →
  let result := run w (cancelHandler (Some jobId)) s in
  (isTerminal (PdfJob.status job) = true →
   result = (Ok {| statusCode := 400;
                   body := ErrorBody "Trabalho já foi concluído ou falhou" |}, s)) ∧
  (isTerminal (PdfJob.status job) = false →
   result.1 = Ok {| statusCode := 200;
                    body := MessageBody "Trabalho cancelado com sucesso" |} ∧
   jobs result.2 = <[jobId := spreadJob job (jobStatusUpdate failed)]> (jobs s) ∧
   (∃ job', jobs result.2 !! jobId = Some job' ∧ PdfJob.status job' = failed) ∧
   (∀ k f, files s !! k = Some f →
      PdfFile.jobId f = jobId → isTerminal (PdfFile.status f) = false →
      ∃ f', files result.2 !! k = Some f' ∧
            PdfFile.status f' = failed ∧
            PdfFile.error f' = Some cancelledMessage) ∧
   (∀ k f, files s !! k = Some f →
      PdfFile.jobId f ≠ jobId ∨ isTerminal (PdfFile.status f) = true →
      files result.2 !! k = Some f) ∧
   (∀ k, files s !! k = None → files result.2 !! k = None)).
Proof.
  intros Hkeyed Hnonzero Hjob result.
  split.
  - intros Hterminal. subst result. unfold cancelHandler.
    rewrite (proj2 (Z.eqb_neq jobId 0) Hnonzero).
    cbn. unfold getPdfJob. rewrite Hjob. cbn. by rewrite Hterminal.
  - intros Hterminal.
    set (s1 := {| jobs := <[jobId := spreadJob job (jobStatusUpdate failed)]> (jobs s);
                  files := files s; jobCurrentId := jobCurrentId s;
                  fileCurrentId := fileCurrentId s |}).
    assert (Hkeyed1 : records_keyed s1) by exact Hkeyed.
    destruct (run_forEach_update w
                (λ file, bool_decide (PdfFile.status file = pending)
                         || bool_decide (PdfFile.status file = processing))
                (failedUpdate cancelledMessage) (getPdfFilesByJobId jobId s1) s1)
      as (s' & Hrun & Hjobs & Hin & Hout).
    { by apply getPdfFilesByJobId_NoDup. }
    { intros f Hf. apply elem_of_getPdfFilesByJobId in Hf as [_ [k Hk]].
      by rewrite (Hkeyed1 k f Hk). }
    assert (Hresult : result
                      = (Ok {| statusCode := 200;
                               body := MessageBody "Trabalho cancelado com sucesso" |}, s')).
    { subst result. unfold cancelHandler.
      rewrite (proj2 (Z.eqb_neq jobId 0) Hnonzero).
      rewrite run_try_catch, run_bind, run_call. simpl run_op.
      unfold getPdfJob. rewrite Hjob. cbv beta iota. rewrite Hterminal.
      rewrite run_seq, run_call. simpl run_op.
      unfold updatePdfJob. rewrite Hjob. cbv beta iota zeta. fold s1.
      rewrite run_bind, run_call. simpl run_op. cbv beta iota. rewrite run_seq.
      by rewrite Hrun. }
    rewrite Hresult. simpl.
    split; [done|]. split; [by rewrite Hjobs|].
    split; [|split; [|split]].
    + exists (spreadJob job (jobStatusUpdate failed)).
      rewrite Hjobs. simpl. by rewrite lookup_insert_eq.
    + intros k f Hk Hjobid Hnonterminal.
      assert (Hf : f ∈ getPdfFilesByJobId jobId s1).
      { apply elem_of_getPdfFilesByJobId. split; [done|]. by exists k. }
      specialize (Hin f Hf). rewrite (Hkeyed k f Hk) in Hin.
      rewrite nonterminal_test, Hnonterminal in Hin. simpl in Hin.
      eexists. split; [exact Hin|]. done.
    + intros k f Hk Hcase.
      destruct (decide (PdfFile.jobId f = jobId)) as [Hjobid|Hjobid].
      * destruct Hcase as [Hne|Hterm]; [done|].
        assert (Hf : f ∈ getPdfFilesByJobId jobId s1).
        { apply elem_of_getPdfFilesByJobId. split; [done|]. by exists k. }
        specialize (Hin f Hf). rewrite (Hkeyed k f Hk) in Hin.
        by rewrite nonterminal_test, Hterm in Hin.
      * rewrite Hout; [exact Hk|].
        intros Hmem. apply list_elem_of_fmap in Hmem as (g & -> & Hg).
        apply elem_of_getPdfFilesByJobId in Hg as [Hgjob [k' Hk']].
        rewrite (Hkeyed1 k' g Hk') in Hk. simpl in Hk'.
        rewrite Hk' in Hk. by simplify_eq.
    + intros k Hk. rewrite Hout; [exact Hk|].
      intros Hmem. apply list_elem_of_fmap in Hmem as (g & -> & Hg).
      apply elem_of_getPdfFilesByJobId in Hg as [Hgjob [k' Hk']].
      rewrite (Hkeyed1 k' g Hk') in Hk. simpl in Hk'. by rewrite Hk' in Hk.
Qed.

Lemma cancel_route_witness :
  records_keyed uploadedStore ∧
  (run fallbackWorld (cancelHandler (Some 1)) uploadedStore).1
  = Ok {| statusCode := 200; body := MessageBody "Trabalho cancelado com sucesso" |} ∧
  ∃ f', files (run fallbackWorld (cancelHandler (Some 1)) uploadedStore).2 !! 1 = Some f' ∧
        PdfFile.status f' = failed ∧
        PdfFile.error f' = Some cancelledMessage.
Proof.
  assert (Hkeyed : records_keyed uploadedStore).
  { intros k f Hk. unfold uploadedStore in Hk. simpl in Hk.
    apply lookup_insert_Some in Hk as [[<- <-]|[_ Hk]]; [done|].
    by rewrite lookup_empty in Hk. }
  split; [exact Hkeyed|].
  destruct (cancel_route fallbackWorld uploadedStore 1
              (PdfJob.mk 1 pending 1700000000000 None defaultOptions) Hkeyed)
    as [_ Hcancel]; [lia|reflexivity|].
  destruct (Hcancel eq_refl) as (Hanswer & _ & _ & Hfiles & _).
  split; [exact Hanswer|].
  apply (Hfiles 1 uploadedFile); reflexivity.
Defined.

(** ** The converter reports progress and nothing else *)

Lemma reports_only_bind (fileId : Z) {A B : Type} (t : Task A) (f : A → Task B) :
  reports_only fileId t → (∀ a, reports_only fileId (f a)) →
  reports_only fileId (bind t f).
Proof.
  intros Ht Hf.
  induction t as [A a|A m|A op k IHk h IHh|A child _ k IHk]; simpl in *.
  - apply Hf.
  - done.
  - destruct Ht as (Hop & Hk & Hh). split; [|split].
    + destruct Hop as [Hworld|[Hreport Hconst]]; [by left|right].
      split; [done|]. intros r r'. by rewrite (Hconst r r').
    + intros r. by apply IHk.
    + intros e. by apply IHh.
  - done.
Qed.

Lemma reports_only_seq (fileId : Z) {A B : Type} (t : Task A) (u : Task B) :
  reports_only fileId t → reports_only fileId u → reports_only fileId (t ;; u).
Proof. intros Ht Hu. by apply (reports_only_bind fileId t (λ _, u)). Qed.

Lemma reports_only_try_catch (fileId : Z) {A : Type} (t : Task A) (handler : string → Task A) :
  reports_only fileId t → (∀ e, reports_only fileId (handler e)) →
  reports_only fileId (try_catch t handler).
Proof.
  intros Ht Hhandler.
  induction t as [A a|A m|A op k IHk h IHh|A child _ k IHk]; simpl in *.
  - done.
  - apply Hhandler.
  - destruct Ht as (Hop & Hk & Hh). split; [|split].
    + destruct Hop as [Hworld|[Hreport Hconst]]; [by left|right].
      split; [done|]. intros r r'. by rewrite (Hconst r r').
    + intros r. by apply IHk.
    + intros e. by apply IHh.
  - done.
Qed.

Lemma reports_only_world (fileId : Z) (op : Op) :
  isWorldOp op = true → reports_only fileId (call op).
Proof. intros Hop. simpl. split; [by left|done]. Qed.

Lemma reports_only_progressCallback (fileId progress : Z) :
  reports_only fileId (progressCallback fileId progress).
Proof.
  simpl. split; [|done]. right. split; [by exists progress|done].
Qed.

Lemma reports_only_processFile (fileId : Z) (filePath originalName dir : string)
    (options : ConversionOptions) :
  reports_only fileId
    (processFile filePath originalName dir options (progressCallback fileId)).
Proof.
  unfold processFile, simulateProcessing, dirname.
  repeat first
    [ match goal with
      | |- reports_only _ (Return _) => exact I
      | |- reports_only _ (Throw _) => exact I
      | |- reports_only _ (if ?c then _ else _) => destruct c
      | |- reports_only _ (match ?c with Some _ => _ | None => _ end) => destruct c
      | |- reports_only _ (progressCallback _ _) => apply reports_only_progressCallback
      | |- reports_only _ (call _) => apply reports_only_world; reflexivity
      | |- reports_only _ (try_catch _ _) => apply reports_only_try_catch
      | |- reports_only _ (bind _ _) => apply reports_only_bind
      | |- reports_only _ (_ ≫= _) => apply reports_only_bind
      end
    | intros ? ].
Qed.

Lemma run_world_op (w : World) (op : Op) (s : MemStorage) :
  isWorldOp op = true →
  (run_op w op s).2 = s ∧ (run_op w op s).1 = (run_op w op newMemStorage).1.
Proof. by destruct op. Qed.

Lemma setFile_same (id : Z) (f : PdfFile.t) (s : MemStorage) :
  files s !! id = Some f →
  setFile id (spreadFile f (progressUpdate (PdfFile.progress f))) s = s.
Proof.
  intros Hf. destruct s as [js fs jc fc], f. unfold setFile. simpl in *.
  f_equal. by apply insert_id.
Qed.

Lemma setFile_setFile (id : Z) (f1 f2 : PdfFile.t) (s : MemStorage) :
  setFile id f2 (setFile id f1 s) = setFile id f2 s.
Proof. unfold setFile. simpl. f_equal. apply insert_insert_eq. Qed.

Lemma updatePdfFile_present (id : Z) (updates : PartialPdfFile.t) (f : PdfFile.t)
    (s : MemStorage) :
  files s !! id = Some f →
  updatePdfFile id updates s
  = (Ok (spreadFile f updates), setFile id (spreadFile f updates) s).
Proof. intros Hf. unfold updatePdfFile. by rewrite Hf. Qed.

Lemma updatePdfJob_present (id : Z) (updates : PartialPdfJob.t) (job : PdfJob.t)
    (s : MemStorage) :
  jobs s !! id = Some job →
  updatePdfJob id updates s
  = (Ok (spreadJob job updates), setJob id (spreadJob job updates) s).
Proof. intros Hjob. unfold updatePdfJob. by rewrite Hjob. Qed.

(** A task that only reports progress for a file changes nothing in the
    store but the progress of that file, and its result does not depend on
    the store it runs on, as long as the file is there. *)
Lemma run_reports_only (w : World) (fileId : Z) {A : Type} (t : Task A) :
  reports_only fileId t →
  ∀ s f, files s !! fileId = Some f →
    (∃ p, (run w t s).2 = setFile fileId (spreadFile f (progressUpdate p)) s) ∧
    (∀ s2, is_Some (files s2 !! fileId) → (run w t s2).1 = (run w t s).1).
Proof.
  induction t as [A a|A m|A op k IHk h IHh|A child _ k IHk]; intros Ht s f Hf.
  - split; [|done]. exists (PdfFile.progress f). simpl. by rewrite setFile_same.
  - split; [|done]. exists (PdfFile.progress f). simpl. by rewrite setFile_same.
  - destruct Ht as (Hop & Hk & Hh).
    destruct Hop as [Hworld|[[p ->] Hconst]].
    + assert (Hs := run_world_op w op s Hworld). destruct Hs as [Hstore Hres].
      simpl. destruct (run_op w op s) as [r s'] eqn:Hrun. simpl in Hstore, Hres.
      subst s'.
      assert (Hgeneral : ∀ s2, run_op w op s2 = (r, s2)).
      { intros s2. destruct (run_world_op w op s2 Hworld) as [Hstore2 Hres2].
        destruct (run_op w op s2) as [r2 s2']. simpl in *. congruence. }
      destruct r as [r|e].
      * destruct (IHk r (Hk r) s f Hf) as [Hp Hindep]. split; [exact Hp|].
        intros s2 Hs2. rewrite Hgeneral. by apply Hindep.
      * destruct (IHh e (Hh e) s f Hf) as [Hp Hindep]. split; [exact Hp|].
        intros s2 Hs2. rewrite Hgeneral. by apply Hindep.
    + simpl run. simpl run_op. rewrite (updatePdfFile_present _ _ f s Hf).
      set (f1 := spreadFile f (progressUpdate p)).
      destruct (IHk f1 (Hk f1) (setFile fileId f1 s) f1) as [[q Hq] Hindep].
      { simpl. apply lookup_insert_eq. }
      split.
      * exists q. rewrite Hq. by rewrite setFile_setFile.
      * intros s2 [f2 Hf2]. rewrite (updatePdfFile_present _ _ f2 s2 Hf2).
        rewrite (Hconst _ f1). apply Hindep. simpl. rewrite lookup_insert_eq. by eexists.
  - destruct Ht.
Qed.

Lemma conversion_indep (w : World) (options : ConversionOptions) (file : PdfFile.t)
    (s1 s2 : MemStorage) :
  is_Some (files s1 !! PdfFile.id file) → is_Some (files s2 !! PdfFile.id file) →
  conversion w options file s1 = conversion w options file s2.
Proof.
  intros [f1 Hf1] Hs2. unfold conversion.
  destruct (run_reports_only w (PdfFile.id file) _
              (reports_only_processFile (PdfFile.id file)
                 (default "" (PdfFile.storagePath file)) (PdfFile.originalName file)
                 outputDir options) s1 f1 Hf1) as [_ Hindep].
  symmetry. by apply Hindep.
Qed.

(** One turn of the orchestrator's loop. *)
Lemma run_processOne (w : World) (jobId : Z) (job : PdfJob.t) (file before : PdfFile.t)
    (s : MemStorage) :
  jobs s !! jobId = Some job →
  files s !! PdfFile.id file = Some before →
  ∃ after,
    run w (processOne jobId file) s = (Ok tt, setFile (PdfFile.id file) after s) ∧
    recorded w (PdfJob.options job) s file before after.
Proof.
  intros Hjob Hbefore. unfold processOne, recorded.
  rewrite run_seq, run_call. simpl run_op.
  rewrite (updatePdfFile_present _ _ before s Hbefore). cbv beta iota.
  set (f1 := spreadFile before (statusUpdate processing)).
  set (s1 := setFile (PdfFile.id file) f1 s).
  assert (Hf1 : files s1 !! PdfFile.id file = Some f1) by apply lookup_insert_eq.
  rewrite (conversion_indep w _ file s s1) by (by eexists).
  rewrite run_try_catch, run_bind, run_call. simpl run_op.
  unfold getPdfJob. change (jobs s1) with (jobs s). rewrite Hjob. cbv beta iota.
  rewrite run_bind.
  destruct (run_reports_only w (PdfFile.id file) _
              (reports_only_processFile (PdfFile.id file)
                 (default "" (PdfFile.storagePath file)) (PdfFile.originalName file)
                 outputDir (PdfJob.options job)) s1 f1 Hf1) as [[p Hp] _].
  unfold conversion.
  destruct (run w (processFile _ _ _ _ _) s1) as [[result|e] s2] eqn:Hrun;
    simpl in Hp; subst s2; cbv beta iota.
  - rewrite run_seq, run_call. simpl run_op.
    erewrite updatePdfFile_present by apply lookup_insert_eq. cbv beta iota.
    subst s1. rewrite !setFile_setFile.
    eexists. split; [reflexivity|]. reflexivity.
  - rewrite run_seq, run_call. simpl run_op.
    erewrite updatePdfFile_present by apply lookup_insert_eq. cbv beta iota.
    subst s1. rewrite !setFile_setFile.
    eexists. split; [reflexivity|]. by exists p.
Qed.

(** The whole loop: every file of the list ends with what its own conversion
    gave, and nothing else in the store moves. *)
Lemma run_forEach_processOne (w : World) (jobId : Z) (job : PdfJob.t)
    (l : list PdfFile.t) (s : MemStorage) :
  NoDup (PdfFile.id <$> l) →
  jobs s !! jobId = Some job →
  (∀ file, file ∈ l → is_Some (files s !! PdfFile.id file)) →
  ∃ s',
    run w (forEach l (processOne jobId)) s = (Ok tt, s') ∧
    jobs s' = jobs s ∧
    (∀ k, k ∉ PdfFile.id <$> l → files s' !! k = files s !! k) ∧
    (∀ file before, file ∈ l → files s !! PdfFile.id file = Some before →
       ∃ after, files s' !! PdfFile.id file = Some after ∧
                recorded w (PdfJob.options job) s file before after).
Proof.
  revert s. induction l as [|file rest IH]; intros s Hnodup Hjob Hstored.
  - exists s. split; [done|]. split; [done|]. split; [done|].
    intros file before Hin. by apply elem_of_nil in Hin.
  - rewrite fmap_cons in Hnodup. apply NoDup_cons in Hnodup as [Hfresh Hnodup].
    destruct (Hstored file (list_elem_of_here _ _)) as [before0 Hbefore0].
    destruct (run_processOne w jobId job file before0 s Hjob Hbefore0)
      as (after0 & Hrun0 & Hrec0).
    set (s1 := setFile (PdfFile.id file) after0 s) in *.
    assert (Hother : ∀ k, k ≠ PdfFile.id file → files s1 !! k = files s !! k).
    { intros k Hk. simpl. by apply lookup_insert_ne. }
    assert (Hrest : ∀ f, f ∈ rest → PdfFile.id f ≠ PdfFile.id file).
    { intros f Hf Heq. apply Hfresh. rewrite <-Heq. by apply list_elem_of_fmap_2. }
    destruct (IH s1 Hnodup Hjob) as (s' & Hrun & Hjobs & Hout & Hin).
    { intros f Hf. rewrite Hother by by apply Hrest.
      by apply Hstored, list_elem_of_further. }
    exists s'. split; [|split; [|split]].
    + rewrite forEach_cons, run_seq, Hrun0. exact Hrun.
    + by rewrite Hjobs.
    + intros k Hk. rewrite fmap_cons in Hk. apply not_elem_of_cons in Hk as [Hne Hk].
      rewrite Hout by done. by apply Hother.
    + intros f before Hf Hbefore. apply elem_of_cons in Hf as [->|Hf].
      * rewrite Hbefore0 in Hbefore. injection Hbefore as <-.
        exists after0. split; [|exact Hrec0].
        rewrite Hout by done. simpl. apply lookup_insert_eq.
      * destruct (Hin f before Hf) as (after & Hafter & Hrec).
        { rewrite Hother by by apply Hrest. exact Hbefore. }
        exists after. split; [exact Hafter|].
        unfold recorded in *.
        rewrite (conversion_indep w _ f s s1); [exact Hrec|by eexists|].
        rewrite Hother by by apply Hrest. by eexists.
Qed.

Lemma conversion_error_message (w : World) (options : ConversionOptions)
    (file : PdfFile.t) (s : MemStorage) (e : string) :
  conversion w options file s = Thrown e → e = "Falha ao processar o arquivo PDF".
Proof.
  unfold conversion, processFile. rewrite run_try_catch.
  destruct (run w _ s) as [[result|e'] s']; simpl; congruence.
Qed.

(** The orchestrator from start to end, with nothing else in between. *)
Lemma run_processJob (w : World) (jobId : Z) (job : PdfJob.t)
    (l : list PdfFile.t) (s : MemStorage) :
  NoDup (PdfFile.id <$> l) →
  jobs s !! jobId = Some job →
  (∀ file, file ∈ l → is_Some (files s !! PdfFile.id file)) →
  let started := spreadJob job (jobStatusUpdate processing) in
  ∃ s1,
    jobs s1 = <[jobId := started]> (jobs s) ∧
    (∀ k, k ∉ PdfFile.id <$> l → files s1 !! k = files s !! k) ∧
    (∀ file before, file ∈ l → files s !! PdfFile.id file = Some before →
       ∃ after, files s1 !! PdfFile.id file = Some after ∧
                recorded w (PdfJob.options job) s file before after) ∧
    run w (processJob jobId l) s
    = (Ok tt,
       if forallb (λ file, isTerminal (PdfFile.status file)) (getPdfFilesByJobId jobId s1)
       then setJob jobId (spreadJob started (jobCompletedUpdate (now w))) s1
       else s1).
Proof.
  intros Hnodup Hjob Hstored started.
  set (s0 := setJob jobId started s).
  assert (Hjob0 : jobs s0 !! jobId = Some started) by apply lookup_insert_eq.
  destruct (run_forEach_processOne w jobId started l s0 Hnodup Hjob0 Hstored)
    as (s1 & Hrun & Hjobs & Hout & Hin).
  exists s1. split; [exact Hjobs|]. split; [exact Hout|]. split.
  - intros file before Hfile Hbefore.
    destruct (Hin file before Hfile Hbefore) as (after & Hafter & Hrec).
    exists after. split; [exact Hafter|]. unfold recorded in *.
    rewrite (conversion_indep w _ file s s0); [exact Hrec|by eexists|by eexists].
  - unfold processJob.
    rewrite run_try_catch, run_seq, run_call. simpl run_op.
    rewrite (updatePdfJob_present _ _ job s Hjob). cbv beta iota. fold started. fold s0.
    rewrite run_seq, Hrun.
    rewrite run_bind, run_call. simpl run_op. cbv beta iota zeta.
    destruct (forallb _ (getPdfFilesByJobId jobId s1)); [|done].
    rewrite run_bind, run_call. simpl run_op. cbv beta iota.
    rewrite run_seq, run_call. simpl run_op.
    assert (Hjob1 : jobs s1 !! jobId = Some started).
    { rewrite Hjobs. apply lookup_insert_eq. }
    by rewrite (updatePdfJob_present _ _ started s1 Hjob1).
Qed.

(** C6. Run from start to end, the orchestrator never lets an error escape,
    and leaves each file of the job with the outcome of its own conversion:
    status completed with the converter's result when its conversion
    succeeded, status failed with the converter's message ("Falha ao
    processar o arquivo PDF") when it failed.  A failed conversion changes
    the record of that file only; the other files of the list are still
    processed, and records outside the list are untouched. *)
Theorem processJob_isolates_failures (w : World) (s : MemStorage) (jobId : Z)
    (job : PdfJob.t) (l : list PdfFile.t) :
  NoDup (PdfFile.id <$> l) →
  jobs s !! jobId = Some job →
  (∀ file, file ∈ l → is_Some (files s !! PdfFile.id file)) →
  let result := run w (processJob jobId l) s in
  result.1 = Ok tt ∧
  (∀ file before, file ∈ l → files s !! PdfFile.id file = Some before →
     ∃ after,
       files result.2 !! PdfFile.id file = Some after ∧
       match conversion w (PdfJob.options job) file s with
       | Ok converted =>
           PdfFile.status after = completed ∧
           PdfFile.progress after = 100 ∧
           PdfFile.convertedName after = Some (pr_convertedName converted) ∧
           PdfFile.convertedSize after = Some (pr_convertedSize converted) ∧
           PdfFile.error after = PdfFile.error before
       | Thrown e =>
           PdfFile.status after = failed ∧
           PdfFile.error after = Some e ∧
           e = "Falha ao processar o arquivo PDF"
       end) ∧
  (∀ k, k ∉ PdfFile.id <$> l → files result.2 !! k = files s !! k).
Proof.
  intros Hnodup Hjob Hstored result.
  destruct (run_processJob w jobId job l s Hnodup Hjob Hstored)
    as (s1 & Hjobs & Hout & Hin & Hrun).
  subst result. rewrite Hrun. simpl.
  assert (Hfiles : ∀ k,
            files (if forallb (λ file, isTerminal (PdfFile.status file))
                        (getPdfFilesByJobId jobId s1)
                   then setJob jobId
                          (spreadJob (spreadJob job (jobStatusUpdate processing))
                             (jobCompletedUpdate (now w))) s1
                   else s1) !! k = files s1 !! k).
  { intros k. by destruct (forallb _ _). }
  split; [done|]. split.
  - intros file before Hfile Hbefore.
    destruct (Hin file before Hfile Hbefore) as (after & Hafter & Hrec).
    exists after. split; [by rewrite Hfiles|].
    unfold recorded in Hrec.
    destruct (conversion w (PdfJob.options job) file s) as [converted|e] eqn:Hconv.
    + by subst after.
    + destruct Hrec as [p ->]. simpl.
      split; [done|]. split; [done|]. by apply (conversion_error_message _ _ _ _ _ Hconv).
  - intros k Hk. rewrite Hfiles. by apply Hout.
Qed.

(** C1 (amended). Run from start to end on a list of files, the orchestrator
    leaves every file of the list completed or failed, failed exactly when
    its own conversion threw.  It then sets the job to completed, with
    completedAt, exactly when every file of the job that is in the store is
    completed or failed, whether or not a file failed; otherwise it leaves
    the job processing and writes no completedAt.  When the list holds
    every file of the job, the job is therefore completed. *)
Theorem processJob_completes_job (w : World) (s : MemStorage) (jobId : Z)
    (job : PdfJob.t) (l : list PdfFile.t) :
  NoDup (PdfFile.id <$> l) →
  jobs s !! jobId = Some job →
  (∀ file, file ∈ l → is_Some (files s !! PdfFile.id file)) →
  let result := run w (processJob jobId l) s in
  let allTerminal :=
    ∀ k file, files result.2 !! k = Some file → PdfFile.jobId file = jobId →
              isTerminal (PdfFile.status file) = true in
  (∀ file, file ∈ l →
     ∃ after, files result.2 !! PdfFile.id file = Some after ∧
              isTerminal (PdfFile.status after) = true ∧
              (PdfFile.status after = failed ↔
               ∃ e, conversion w (PdfJob.options job) file s = Thrown e)) ∧
  (∃ job', jobs result.2 !! jobId = Some job' ∧
           (PdfJob.status job' = completed ↔ allTerminal) ∧
           (allTerminal → PdfJob.completedAt job' = Some (now w)) ∧
           (¬ allTerminal →
            PdfJob.status job' = processing ∧
            PdfJob.completedAt job' = PdfJob.completedAt job)) ∧
  ((∀ k f, files s !! k = Some f → PdfFile.jobId f = jobId → k ∈ PdfFile.id <$> l) →
   allTerminal).
Proof.
  intros Hnodup Hjob Hstored result allTerminal.
  destruct (run_processJob w jobId job l s Hnodup Hjob Hstored)
    as (s1 & Hjobs & Hout & Hin & Hrun).
  assert (Hterminal : ∀ file, file ∈ l →
            ∃ after, files s1 !! PdfFile.id file = Some after ∧
                     isTerminal (PdfFile.status after) = true ∧
                     (PdfFile.status after = failed ↔
                      ∃ e, conversion w (PdfJob.options job) file s = Thrown e)).
  { intros file Hfile. destruct (Hstored file Hfile) as [before Hbefore].
    destruct (Hin file before Hfile Hbefore) as (after & Hafter & Hrec).
    exists after. split; [exact Hafter|]. unfold recorded in Hrec.
    destruct (conversion w (PdfJob.options job) file s) as [converted|e].
    - subst after. simpl. split; [done|]. split; [done|]. by intros [e He].
    - destruct Hrec as [p ->]. simpl. split; [done|]. split; [by exists e|done]. }
  set (check := forallb (λ file, isTerminal (PdfFile.status file))
                  (getPdfFilesByJobId jobId s1)) in Hrun.
  assert (Hfiles : files result.2 = files s1).
  { subst result. rewrite Hrun. by destruct check. }
  assert (Hcheck : check = true ↔ allTerminal).
  { subst check allTerminal. rewrite Hfiles.
    rewrite <-Is_true_true, forallb_True, Forall_forall. split.
    - intros Hall k file Hk Hfjob. apply Is_true_true, Hall.
      apply elem_of_getPdfFilesByJobId. eauto.
    - intros Hall file Hfile.
      apply elem_of_getPdfFilesByJobId in Hfile as [Hfjob [k Hk]].
      apply Is_true_true. by apply (Hall k). }
  split; [|split].
  - intros file Hfile. rewrite Hfiles. by apply Hterminal.
  - subst result. rewrite Hrun. destruct check eqn:Hc.
    + assert (Hall : allTerminal) by by apply Hcheck.
      eexists. split; [apply lookup_insert_eq|]. simpl.
      split; [done|]. split; [done|]. intros Hnot. by destruct Hnot.
    + assert (Hnot : ¬ allTerminal).
      { intros Hall. apply Hcheck in Hall. congruence. }
      eexists. split; [cbn [snd]; rewrite Hjobs; apply lookup_insert_eq|]. simpl.
      split; [split; [done|by intros ?]|]. split; [by intros ?|done].
  - intros Hall k file Hk Hfjob. rewrite Hfiles in Hk.
    destruct (decide (k ∈ PdfFile.id <$> l)) as [Hin_l|Hnot].
    + apply list_elem_of_fmap in Hin_l as (f & -> & Hf).
      destruct (Hterminal f Hf) as (after & Hafter & Hterm & _).
      rewrite Hafter in Hk. by injection Hk as <-.
    + exfalso. apply Hnot. rewrite Hout in Hk by done. by apply (Hall k file).
Qed.

Lemma uploadedStore_keyed : records_keyed uploadedStore.
Proof.
  intros k f Hk. unfold uploadedStore in Hk. simpl in Hk.
  apply lookup_insert_Some in Hk as [[<- <-]|[_ Hk]]; [done|].
  by rewrite lookup_empty in Hk.
Qed.

Lemma threeFiles_ready :
  NoDup (PdfFile.id <$> threeFiles) ∧
  jobs threeFileStore !! 1
  = Some (PdfJob.mk 1 pending 1700000000000 None defaultOptions) ∧
  (∀ file, file ∈ threeFiles → files threeFileStore !! PdfFile.id file = Some file) ∧
  (∀ k f, files threeFileStore !! k = Some f → PdfFile.jobId f = 1 →
          k ∈ PdfFile.id <$> threeFiles).
Proof.
  split; [|split; [reflexivity|split]].
  - change (NoDup [1; 2; 3]). apply (bool_decide_unpack _). vm_compute. exact I.
  - intros file Hfile. unfold threeFiles in Hfile.
    repeat (apply elem_of_cons in Hfile as [->|Hfile]; [reflexivity|]).
    by apply elem_of_nil in Hfile.
  - intros k f Hk _. change (k ∈ [1; 2; 3]).
    unfold threeFileStore in Hk. simpl in Hk.
    repeat (apply lookup_insert_Some in Hk as [[<- _]|[_ Hk]];
            [apply (bool_decide_unpack _); vm_compute; exact I|]).
    by rewrite lookup_empty in Hk.
Defined.

Lemma threeFiles_conversions :
  (∃ r, conversion secondFailsWorld defaultOptions firstFile threeFileStore = Ok r) ∧
  conversion secondFailsWorld defaultOptions secondFile threeFileStore
  = Thrown "Falha ao processar o arquivo PDF" ∧
  (∃ r, conversion secondFailsWorld defaultOptions thirdFile threeFileStore = Ok r).
Proof.
  split; [|split].
  - vm_compute. by eexists.
  - vm_compute. reflexivity.
  - vm_compute. by eexists.
Defined.

Lemma processJob_isolates_failures_witness :
  let result := run secondFailsWorld (processJob 1 threeFiles) threeFileStore in
  result.1 = Ok tt ∧
  (∃ after, files result.2 !! 1 = Some after ∧ PdfFile.status after = completed) ∧
  (∃ after, files result.2 !! 2 = Some after ∧ PdfFile.status after = failed ∧
            PdfFile.error after = Some "Falha ao processar o arquivo PDF") ∧
  (∃ after, files result.2 !! 3 = Some after ∧ PdfFile.status after = completed).
Proof.
  intros result.
  destruct threeFiles_ready as (Hnodup & Hjob & Hstored & _).
  destruct threeFiles_conversions as ([r1 E1] & E2 & [r3 E3]).
  destruct (processJob_isolates_failures secondFailsWorld threeFileStore 1 _ threeFiles
              Hnodup Hjob) as (Hok & Hfiles & _).
  { intros file Hfile. rewrite (Hstored file Hfile). by eexists. }
  split; [exact Hok|].
  assert (H1 : firstFile ∈ threeFiles) by apply list_elem_of_here.
  assert (H2 : secondFile ∈ threeFiles)
    by apply list_elem_of_further, list_elem_of_here.
  assert (H3 : thirdFile ∈ threeFiles)
    by apply list_elem_of_further, list_elem_of_further, list_elem_of_here.
  destruct (Hfiles firstFile firstFile H1 (Hstored _ H1)) as (a1 & Ha1 & Hc1).
  destruct (Hfiles secondFile secondFile H2 (Hstored _ H2)) as (a2 & Ha2 & Hc2).
  destruct (Hfiles thirdFile thirdFile H3 (Hstored _ H3)) as (a3 & Ha3 & Hc3).
  change (PdfJob.options _) with defaultOptions in Hc1, Hc2, Hc3.
  rewrite E1 in Hc1. rewrite E2 in Hc2. rewrite E3 in Hc3.
  split; [|split].
  - exists a1. split; [exact Ha1|]. apply Hc1.
  - exists a2. split; [exact Ha2|]. destruct Hc2 as (Hs & He & _). by split.
  - exists a3. split; [exact Ha3|]. apply Hc3.
Defined.

Lemma processJob_completes_job_witness :
  (let result := run secondFailsWorld (processJob 1 threeFiles) threeFileStore in
   ∃ job', jobs result.2 !! 1 = Some job' ∧
           PdfJob.status job' = completed ∧
           PdfJob.completedAt job' = Some 1700000000000) ∧
  (let result := run secondFailsWorld (processJob 1 [firstFile]) threeFileStore in
   ∃ job', jobs result.2 !! 1 = Some job' ∧
           PdfJob.status job' = processing ∧
           PdfJob.completedAt job' = None).
Proof.
  destruct threeFiles_ready as (Hnodup & Hjob & Hstored & Hall).
  split; intros result.
  - destruct (processJob_completes_job secondFailsWorld threeFileStore 1 _ threeFiles
                Hnodup Hjob) as (_ & (job' & Hjob' & Hstatus & Hdate & _) & Hdone).
    { intros file Hfile. rewrite (Hstored file Hfile). by eexists. }
    exists job'. split; [exact Hjob'|].
    split; [apply Hstatus, Hdone, Hall|apply Hdate, Hdone, Hall].
  - assert (Hone : NoDup (PdfFile.id <$> [firstFile])) by apply NoDup_singleton.
    destruct (processJob_completes_job secondFailsWorld threeFileStore 1 _ [firstFile]
                Hone Hjob) as (_ & (job' & Hjob' & _ & _ & Hleft) & _).
    { intros file Hfile. apply list_elem_of_singleton in Hfile as ->. by eexists. }
    exists job'. split; [exact Hjob'|]. apply Hleft.
    intros Hterminal. specialize (Hterminal 2 secondFile eq_refl eq_refl). done.
Defined.

(** C1, as stated, fails on the rollup: in a job of three files whose second
    conversion fails, the second file ends failed and the job ends
    completed, not failed. *)
Lemma partial_failure_counterexample :
  let s := (run secondFailsWorld (processJob 1 threeFiles) threeFileStore).2 in
  (PdfFile.status <$> files s !! 1) = Some completed ∧
  (PdfFile.status <$> files s !! 2) = Some failed ∧
  (PdfFile.status <$> files s !! 3) = Some completed ∧
  (PdfJob.status <$> jobs s !! 1) = Some completed ∧
  (PdfJob.status <$> jobs s !! 1) ≠ Some failed.
Proof. vm_compute. repeat split; discriminate. Qed.

(** ** Reasoning about claims *)

Lemma safe_mono {A : Type} (t : Task A) (c : Claim)
    (Q Q' : A → Claim → Prop) (E E' : string → Claim → Prop) :
  safe t c Q E →
  (∀ a c', Q a c' → Q' a c') → (∀ e c', E e c' → E' e c') →
  safe t c Q' E'.
Proof.
  revert c. induction t as [A a|A m|A op k IHk h IHh|A child _ k IHk];
    intros c Ht HQ HE; simpl in *.
  - by apply HQ.
  - by apply HE.
  - destruct Ht as (Hop & Hk & Hh). split; [done|]. split.
    + intros r Hr. eapply IHk; [by apply Hk|done|done].
    + intros e. eapply IHh; [by apply Hh|done|done].
  - destruct Ht as [Hchild Hk]. split; [done|]. eapply IHk; [exact Hk|done|done].
Qed.

Lemma safe_bind {A B : Type} (t : Task A) (f : A → Task B) (c : Claim)
    (Q : B → Claim → Prop) (E : string → Claim → Prop) :
  safe t c (λ a c', safe (f a) c' Q E) E → safe (bind t f) c Q E.
Proof.
  revert c. induction t as [A a|A m|A op k IHk h IHh|A child _ k IHk];
    intros c Ht; simpl in *.
  - done.
  - done.
  - destruct Ht as (Hop & Hk & Hh). split; [done|]. split.
    + intros r Hr. by apply IHk, Hk.
    + intros e. by apply IHh, Hh.
  - destruct Ht as [Hchild Hk]. split; [done|]. by apply IHk.
Qed.

Lemma safe_try_catch {A : Type} (t : Task A) (handler : string → Task A) (c : Claim)
    (Q : A → Claim → Prop) (E : string → Claim → Prop) :
  safe t c Q (λ e c', safe (handler e) c' Q E) → safe (try_catch t handler) c Q E.
Proof.
  revert c. induction t as [A a|A m|A op k IHk h IHh|A child _ k IHk];
    intros c Ht; simpl in *.
  - done.
  - done.
  - destruct Ht as (Hop & Hk & Hh). split; [done|]. split.
    + intros r Hr. by apply IHk, Hk.
    + intros e. by apply IHh, Hh.
  - destruct Ht as [Hchild Hk]. split; [done|]. by apply IHk.
Qed.

Lemma safe_forEach {X : Type} (I : list X → Claim → Prop) (body : X → Task unit)
    (l : list X) (c : Claim) (Q : unit → Claim → Prop) (E : string → Claim → Prop) :
  I l c →
  (∀ x rest c', I (x :: rest) c' → safe (body x) c' (λ _ c'', I rest c'') E) →
  (∀ c', I [] c' → Q tt c') →
  safe (forEach l body) c Q E.
Proof.
  intros HI Hbody Hend. revert c HI.
  induction l as [|x rest IH]; intros c HI.
  - simpl. by apply Hend.
  - rewrite forEach_cons. apply safe_bind.
    eapply safe_mono; [by apply Hbody| |done].
    intros u c' HI'. by apply IH.
Qed.

Lemma op_harmless_spec (op : Op) (c : Claim) (r : Result (Ret op)) :
  op_harmless op = true → op_allowed op c ∧ claim_after op c r = c.
Proof.
  destruct op as [| |id updates| | |id updates| | | | | | | | |]; simpl;
    try done.
  - destruct (PartialPdfJob.completedAt updates); [done|].
    by destruct (PartialPdfJob.status updates) as [[]|].
  - destruct (PartialPdfFile.id updates); [done|].
    destruct (PartialPdfFile.jobId updates); [done|].
    by destruct (PartialPdfFile.progress updates).
Qed.

Lemma harmless_safe {A : Type} (t : Task A) (c : Claim)
    (Q : A → Claim → Prop) (E : string → Claim → Prop) :
  harmless t → (∀ a, Q a c) → (∀ e, E e c) → safe t c Q E.
Proof.
  intros Ht HQ HE.
  induction t as [A a|A m|A op k IHk h IHh|A child _ k IHk]; simpl in *.
  - apply HQ.
  - apply HE.
  - destruct Ht as (Hop & Hk & Hh). split; [|split].
    + by apply (op_harmless_spec op c (Thrown "")).
    + intros r _. destruct (op_harmless_spec op c (Ok r) Hop) as [_ ->]. by apply IHk.
    + intros e. destruct (op_harmless_spec op c (Thrown e) Hop) as [_ ->]. by apply IHh.
  - done.
Qed.

Lemma harmless_bind {A B : Type} (t : Task A) (f : A → Task B) :
  harmless t → (∀ a, harmless (f a)) → harmless (bind t f).
Proof.
  intros Ht Hf.
  induction t as [A a|A m|A op k IHk h IHh|A child _ k IHk]; simpl in *.
  - apply Hf.
  - done.
  - destruct Ht as (Hop & Hk & Hh). split; [done|].
    split; [intros r; by apply IHk|intros e; by apply IHh].
  - done.
Qed.

Lemma harmless_try_catch {A : Type} (t : Task A) (handler : string → Task A) :
  harmless t → (∀ e, harmless (handler e)) → harmless (try_catch t handler).
Proof.
  intros Ht Hhandler.
  induction t as [A a|A m|A op k IHk h IHh|A child _ k IHk]; simpl in *.
  - done.
  - apply Hhandler.
  - destruct Ht as (Hop & Hk & Hh). split; [done|].
    split; [intros r; by apply IHk|intros e; by apply IHh].
  - done.
Qed.

Lemma harmless_forEach {X : Type} (l : list X) (body : X → Task unit) :
  (∀ x, harmless (body x)) → harmless (forEach l body).
Proof.
  intros Hbody. induction l as [|x rest IH]; [done|].
  rewrite forEach_cons. by apply harmless_bind.
Qed.

Lemma harmless_call (op : Op) : op_harmless op = true → harmless (call op).
Proof. intros Hop. simpl. by split. Qed.

(** A task that only reports ascending percentages for a file it holds. *)
Lemma safe_reports (fileId : Z) {A : Type} (t : Task A) :
  reports_only fileId t →
  ∀ n c b, ascending n t → n ≤ 100 → own_files c !! fileId = Some b → b ≤ n →
    safe t c (λ _ c', phase fileId c c') (λ _ c', phase fileId c c').
Proof.
  assert (Hrefl : ∀ n c b, n ≤ 100 → own_files c !! fileId = Some b → b ≤ n →
                          phase fileId c c).
  { intros n c b Hn Hb Hbn. split; [done|]. split; [done|]. exists b. split; [done|lia]. }
  induction t as [A a|A m|A op k IHk h IHh|A child _ k IHk];
    intros Ht n c b Hasc Hn Hb Hbn.
  - by apply (Hrefl n c b).
  - by apply (Hrefl n c b).
  - destruct Ht as (Hop & Hk & Hh).
    destruct Hop as [Hworld|[[p ->] _]].
    + assert (Hconts : (∀ r, ascending n (k r)) ∧ (∀ e, ascending n (h e))).
      { by destruct op. }
      destruct Hconts as [Hak Hah].
      assert (Hsame : ∀ r, claim_after op c r = c) by (by destruct op).
      simpl. split; [by destruct op|]. split.
      * intros r _. rewrite Hsame. by apply (IHk r (Hk r) n c b).
      * intros e. rewrite Hsame. by apply (IHh e (Hh e) n c b).
    + simpl in Hasc. destruct Hasc as (Hp & Hak & Hah).
      set (c1 := {| own_jobs := own_jobs c; own_files := <[fileId := p]> (own_files c) |}).
      assert (Hback : ∀ c', phase fileId c1 c' → phase fileId c c').
      { intros c' (Hjobs & Hother & Hbound). split; [done|]. split; [|done].
        intros k' Hk'. rewrite Hother by done. simpl. by apply lookup_insert_ne. }
      simpl. split; [split; [done|]; split; [done|]; exists b; split; [done|lia]|]. split.
      * intros r _. fold c1.
        assert (Hsafe : safe (k r) c1 (λ _ c', phase fileId c1 c')
                          (λ _ c', phase fileId c1 c')).
        { apply (IHk r (Hk r) p c1 p); [apply Hak|lia|apply lookup_insert_eq|lia]. }
        eapply safe_mono; [exact Hsafe|intros u; apply Hback|intros u; apply Hback].
      * intros e. fold c1.
        assert (Hsafe : safe (h e) c1 (λ _ c', phase fileId c1 c')
                          (λ _ c', phase fileId c1 c')).
        { apply (IHh e (Hh e) p c1 p); [apply Hah|lia|apply lookup_insert_eq|lia]. }
        eapply safe_mono; [exact Hsafe|intros u; apply Hback|intros u; apply Hback].
  - destruct Ht.
Qed.

Lemma safe_call_bind {B : Type} (op : Op) (f : Ret op → Task B) (c : Claim)
    (Q : B → Claim → Prop) (E : string → Claim → Prop) :
  op_allowed op c →
  (∀ r, result_fresh op c (Ok r) → safe (f r) (claim_after op c (Ok r)) Q E) →
  (∀ e, E e (claim_after op c (Thrown e))) →
  safe (bind (call op) f) c Q E.
Proof. intros Hop Hk Hh. simpl. auto. Qed.

(** ** The tasks of the server keep to their claims *)

Lemma ascending_processFile (fileId : Z) (filePath originalName dir : string)
    (options : ConversionOptions) :
  ascending 10 (processFile filePath originalName dir options (progressCallback fileId)).
Proof.
  destruct options as [[] [] []]; unfold processFile, dirname.
  all: cbn -[path_join generatePdfaFilename pretty Z.le].
  all: repeat first
         [ exact I
         | match goal with
           | |- (_ ≤ _)%Z => lia
           | |- _ ∧ _ => split
           | |- ∀ _, _ => intros ?
           end ].
Qed.

Lemma holds_rest (jobId : Z) (file : PdfFile.t) (rest : list PdfFile.t) (c c' : Claim) :
  holds jobId (file :: rest) c →
  own_jobs c' = own_jobs c →
  (∀ k, k ≠ PdfFile.id file → own_files c' !! k = own_files c !! k) →
  holds jobId rest c'.
Proof.
  intros (Hnodup & Hjob & Hfiles) Hjobs Hother.
  rewrite fmap_cons in Hnodup. apply NoDup_cons in Hnodup as [Hfresh Hnodup].
  split; [done|]. split; [by rewrite Hjobs|].
  intros f Hf. rewrite Hother.
  - by apply Hfiles, list_elem_of_further.
  - intros Heq. apply Hfresh. rewrite <-Heq. by apply list_elem_of_fmap_2.
Qed.

Lemma safe_processOne (jobId : Z) (file : PdfFile.t) (rest : list PdfFile.t) (c : Claim) :
  holds jobId (file :: rest) c →
  safe (processOne jobId file) c (λ _ c', holds jobId rest c') (λ _ _, True).
Proof.
  intros Hholds.
  assert (Hzero : own_files c !! PdfFile.id file = Some 0).
  { destruct Hholds as (_ & _ & Hfiles). apply Hfiles, list_elem_of_here. }
  (* recording the failure, from any claim that still covers the rest *)
  assert (Hfail : ∀ e c',
            own_jobs c' = own_jobs c →
            (∀ k, k ≠ PdfFile.id file → own_files c' !! k = own_files c !! k) →
            safe (call (StUpdatePdfFile (PdfFile.id file) (failedUpdate e)) ;; Return tt)
              c' (λ _ c'', holds jobId rest c'') (λ _ _, True)).
  { intros e c' Hjobs Hother. apply safe_call_bind; [by simpl| |done].
    intros r _. simpl. by apply (holds_rest jobId file rest c c'). }
  unfold processOne. apply safe_call_bind; [by simpl| |done].
  intros r0 _. simpl claim_after.
  apply safe_try_catch. apply safe_call_bind; [exact I| |].
  - intros [job|] _; simpl claim_after.
    + apply safe_bind.
      eapply safe_mono.
      * apply (safe_reports (PdfFile.id file) _
                 (reports_only_processFile _ _ _ _ _) 10 c 0
                 (ascending_processFile _ _ _ _ _)); [lia|exact Hzero|lia].
      * intros result c' (Hjobs & Hother & [b [Hb Hb100]]).
        apply safe_call_bind.
        -- simpl. split; [done|]. split; [done|]. by exists b.
        -- intros r _. simpl.
           apply (holds_rest jobId file rest c); [exact Hholds|exact Hjobs|].
           intros k Hk. simpl. rewrite lookup_insert_ne by done. by apply Hother.
        -- intros e. cbn [safe claim_after]. apply Hfail; [exact Hjobs|].
           intros k Hk. cbn [own_files completedUpdate PartialPdfFile.progress].
           rewrite lookup_insert_ne by done. by apply Hother.
      * intros e c' (Hjobs & Hother & _). by apply Hfail.
    + cbn [safe]. by apply Hfail.
  - intros e. cbn [safe claim_after]. by apply Hfail.
Qed.

Lemma safe_processJob (jobId : Z) (l : list PdfFile.t) (c : Claim) :
  holds jobId l c →
  safe (processJob jobId l) c (λ _ _, True) (λ _ _, True).
Proof.
  intros Hholds. unfold processJob. apply safe_try_catch.
  eapply safe_mono; [|intros a c' Hc'; exact Hc'|].
  2:{ intros e c' _. apply safe_call_bind; [exact I|intros; exact I|intros; exact I]. }
  apply safe_call_bind.
  - simpl. by destruct Hholds as (_ & Hjob & _).
  - intros r0 _. simpl claim_after. apply safe_bind.
    apply (safe_forEach (holds jobId)); [exact Hholds| |].
    + intros file rest c' Hc'. by apply safe_processOne.
    + intros c' (_ & Hjob & _). apply safe_call_bind; [exact I| |done].
      intros updatedFiles _. simpl claim_after.
      destruct (forallb _ updatedFiles); [|done].
      apply safe_call_bind; [exact I| |done].
      intros completedAt _. simpl claim_after.
      apply safe_call_bind; [|intros; exact I|intros; exact I].
      simpl. split; [done|]. split; [by eexists|done].
  - intros; exact I.
Qed.

Lemma safe_createFiles (jobId : Z) (uploads : list MulterFile) (jobFiles : list PdfFile.t)
    (c : Claim) (Q : list PdfFile.t → Claim → Prop) :
  holds jobId jobFiles c →
  (∀ l c', holds jobId l c' → Q l c') →
  safe (createFiles jobId uploads jobFiles) c Q (λ _ _, True).
Proof.
  intros Hholds HQ. revert jobFiles c Hholds.
  induction uploads as [|upload rest IH]; intros jobFiles c Hholds.
  - simpl. by apply HQ.
  - simpl createFiles. apply safe_call_bind; [exact I| |done].
    intros pdfFile Hfresh. simpl in Hfresh. simpl claim_after.
    apply IH. destruct Hholds as (Hnodup & Hjob & Hfiles).
    assert (Hnew : ∀ f, f ∈ jobFiles → PdfFile.id f ≠ PdfFile.id pdfFile).
    { intros f Hf Heq. specialize (Hfiles f Hf). rewrite Heq in Hfiles. congruence. }
    split; [|split].
    + rewrite fmap_app. apply NoDup_app. split; [done|]. split.
      * intros k Hk Hk'. apply list_elem_of_fmap in Hk as (f & -> & Hf).
        simpl in Hk'. apply list_elem_of_singleton in Hk'. by apply (Hnew f).
      * simpl. apply NoDup_singleton.
    + done.
    + intros f Hf. simpl. apply elem_of_app in Hf as [Hf|Hf].
      * rewrite lookup_insert_ne; [by apply Hfiles|]. intros Heq. by apply (Hnew f).
      * apply list_elem_of_singleton in Hf as ->. apply lookup_insert_eq.
Qed.

Lemma safe_uploadHandler (reqFiles : option (list MulterFile)) (optionsRaw : OptionsRaw)
    (c : Claim) :
  safe (uploadHandler reqFiles optionsRaw) c (λ _ _, True) (λ _ _, True).
Proof.
  unfold uploadHandler. apply safe_try_catch.
  destruct reqFiles as [[|file rest]|]; try exact I.
  destruct (parseOptions optionsRaw) as [options|]; [|exact I].
  apply safe_call_bind; [done| |intros; exact I].
  intros job _. simpl claim_after. apply safe_bind.
  eapply safe_mono.
  - apply safe_createFiles with (Q := λ l c', holds (PdfJob.id job) l c').
    + split; [constructor|]. split; [simpl; by apply elem_of_union_l, elem_of_singleton|].
      intros f Hf. by apply elem_of_nil in Hf.
    + intros l c' Hc'. exact Hc'.
  - intros jobFiles c' Hholds. cbn [safe]. split; [|exact I].
    by apply safe_processJob.
  - intros; exact I.
Qed.

Ltac harmless_tac :=
  repeat first
    [ match goal with
      | |- harmless (Return _) => exact I
      | |- harmless (Throw _) => exact I
      | |- harmless (if ?c then _ else _) => destruct c
      | |- harmless (match ?c with _ => _ end) => destruct c
      | |- harmless (call _) => apply harmless_call; reflexivity
      | |- harmless (try_catch _ _) => apply harmless_try_catch
      | |- harmless (forEach _ _) => apply harmless_forEach
      | |- harmless (bind _ _) => apply harmless_bind
      | |- harmless (_ ≫= _) => apply harmless_bind
      end
    | intros ? ].

Lemma harmless_statusHandler (jobId : option Z) : harmless (statusHandler jobId).
Proof. unfold statusHandler. harmless_tac. Qed.

Lemma harmless_resultsHandler (jobId : option Z) : harmless (resultsHandler jobId).
Proof. unfold resultsHandler. harmless_tac. Qed.

Lemma harmless_downloadHandler (fileId : option Z) : harmless (downloadHandler fileId).
Proof. unfold downloadHandler. harmless_tac. Qed.

Lemma harmless_cancelHandler (jobId : option Z) : harmless (cancelHandler jobId).
Proof. unfold cancelHandler. harmless_tac. Qed.

Lemma safe_serve (req : Request) (c : Claim) :
  safe (serve req) c (λ _ _, True) (λ _ _, True).
Proof.
  assert (Hread : ∀ (A : Type) (t : Task A), harmless t →
                    safe (detach t) c (λ _ _, True) (λ _ _, True)).
  { intros A t Ht. apply harmless_safe; [|done|done].
    unfold detach. by apply harmless_bind. }
  destruct req as [parts optionsRaw|jobId|jobId|fileId|jobId]; simpl.
  - unfold detach, postUpload. apply safe_bind.
    destruct parts as [parts|].
    + destruct (uploadArray parts) as [accepted|message]; [|exact I].
      apply safe_bind. eapply safe_mono; [apply safe_uploadHandler| |];
        intros; exact I.
    + apply safe_bind. eapply safe_mono; [apply safe_uploadHandler| |];
        intros; exact I.
  - apply Hread, harmless_statusHandler.
  - apply Hread, harmless_resultsHandler.
  - apply Hread, harmless_downloadHandler.
  - apply Hread, harmless_cancelHandler.
Qed.

(** ** One call at a time *)

Lemma advances_refl (s : MemStorage) : advances s s.
Proof.
  split; intros k x Hx; exists x; [by split|].
  split; [done|]. split; [done|]. split; [done|lia].
Qed.

Lemma advances_trans (s1 s2 s3 : MemStorage) :
  advances s1 s2 → advances s2 s3 → advances s1 s3.
Proof.
  intros [Hj12 Hf12] [Hj23 Hf23]. split.
  - intros k job Hjob. destruct (Hj12 k job Hjob) as (job2 & Hjob2 & Hdate2).
    destruct (Hj23 k job2 Hjob2) as (job3 & Hjob3 & Hdate3).
    exists job3. split; [done|]. intros Hset.
    rewrite Hdate3; [by apply Hdate2|]. by rewrite Hdate2.
  - intros k file Hfile.
    destruct (Hf12 k file Hfile) as (file2 & Hfile2 & Hid2 & Hjob2 & Hle2).
    destruct (Hf23 k file2 Hfile2) as (file3 & Hfile3 & Hid3 & Hjob3 & Hle3).
    exists file3. split; [done|]. split; [congruence|]. split; [congruence|lia].
Qed.

Lemma call_ok_unchanged (w : World) (op : Op) (s : MemStorage) (c : Claim) :
  store_ok s → claim_ok s c →
  (run_op w op s).2 = s →
  (∀ r, claim_after op c r = c) →
  (∀ r, result_fresh op c r) →
  call_ok w op s c.
Proof.
  intros Hstore Hclaim Hsame Hafter Hfresh. unfold call_ok.
  rewrite Hsame, Hafter.
  split; [done|]. split; [done|]. split; [done|]. split; [apply advances_refl|done].
Qed.

Lemma call_ok_createPdfJob (w : World) (job : InsertPdfJob.t) (s : MemStorage) (c : Claim) :
  store_ok s → claim_ok s c → op_allowed (StCreatePdfJob job) c →
  call_ok w (StCreatePdfJob job) s c.
Proof.
  intros [[Hjb Hfb] Hjobs] [Hcj Hcf] Hallowed. simpl in Hallowed.
  unfold call_ok. simpl.
  set (newJob := PdfJob.mk (jobCurrentId s) (InsertPdfJob.status job) (now w) None
                   (InsertPdfJob.options job)).
  assert (Hold : ∀ k, k < jobCurrentId s →
                      <[jobCurrentId s := newJob]> (jobs s) !! k = jobs s !! k).
  { intros k Hk. apply lookup_insert_ne. lia. }
  assert (Hkeep : ∀ c', claim_ok s c' →
            claim_ok {| jobs := <[jobCurrentId s := newJob]> (jobs s); files := files s;
                        jobCurrentId := jobCurrentId s + 1;
                        fileCurrentId := fileCurrentId s |} c').
  { intros c' [Hcj' Hcf']. split; simpl.
    - intros j Hj. destruct (Hcj' j Hj) as [Hlt Hnone]. split; [lia|].
      intros job' Hjob'. rewrite Hold in Hjob' by done. by apply Hnone.
    - exact Hcf'. }
  split; [|split; [|split; [|split]]].
  - split; [split|]; simpl.
    + intros k Hk. destruct (decide (k = jobCurrentId s)) as [->|Hne]; [lia|].
      rewrite lookup_insert_ne in Hk by done. specialize (Hjb k Hk). lia.
    + exact Hfb.
    + intros k job' Hk. destruct (decide (k = jobCurrentId s)) as [->|Hne].
      * rewrite lookup_insert_eq in Hk. injection Hk as <-.
        split; simpl; [done|]. by intros [x Hx].
      * rewrite lookup_insert_ne in Hk by done. by apply (Hjobs k).
  - split; simpl.
    + intros j Hj. apply elem_of_union in Hj as [Hj|Hj].
      * apply elem_of_singleton in Hj as ->. split; [lia|].
        intros job' Hjob'. rewrite lookup_insert_eq in Hjob'. by injection Hjob' as <-.
      * destruct (Hcj j Hj) as [Hlt Hnone]. split; [lia|].
        intros job' Hjob'. rewrite Hold in Hjob' by done. by apply Hnone.
    + exact Hcf.
  - exact I.
  - split; simpl.
    + intros k job' Hk. exists job'. split; [|done].
      rewrite Hold; [done|]. apply Hjb. by eexists.
    + intros k file Hk. exists file. split; [done|]. split; [done|]. split; [done|lia].
  - intros c' Hc' [Hdj Hdf]. split; [by apply Hkeep|]. split; simpl.
    + intros j Hj Hj'. apply elem_of_union in Hj as [Hj|Hj]; [|by apply (Hdj j)].
      apply elem_of_singleton in Hj as ->.
      destruct Hc' as [Hcj' _]. destruct (Hcj' _ Hj') as [Hlt _]. lia.
    + exact Hdf.
Qed.

Lemma call_ok_createPdfFile (w : World) (file : InsertPdfFile.t) (s : MemStorage) (c : Claim) :
  store_ok s → claim_ok s c →
  call_ok w (StCreatePdfFile file) s c.
Proof.
  intros [[Hjb Hfb] Hjobs] [Hcj Hcf].
  unfold call_ok. simpl.
  set (id := fileCurrentId s).
  set (newFile := PdfFile.mk id _ _ _ _ _ _ _ _ _ _ _ _).
  assert (Hold : ∀ k, k < id → <[id := newFile]> (files s) !! k = files s !! k).
  { intros k Hk. apply lookup_insert_ne. lia. }
  assert (Hkeep : ∀ c', claim_ok s c' →
            claim_ok {| jobs := jobs s; files := <[id := newFile]> (files s);
                        jobCurrentId := jobCurrentId s; fileCurrentId := id + 1 |} c').
  { intros c' [Hcj' Hcf']. split; simpl.
    - exact Hcj'.
    - intros f b Hf. destruct (Hcf' f b Hf) as [Hlt Hle]. split; [lia|].
      intros file' Hfile'. rewrite Hold in Hfile' by done. by apply Hle. }
  assert (Hunclaimed : ∀ c', claim_ok s c' → own_files c' !! id = None).
  { intros c' [_ Hcf']. destruct (own_files c' !! id) as [b|] eqn:Hb; [|done].
    destruct (Hcf' id b Hb) as [Hlt _]. unfold id in Hlt. lia. }
  split; [|split; [|split; [|split]]].
  - split; [split|]; simpl.
    + exact Hjb.
    + intros k Hk. destruct (decide (k = id)) as [->|Hne]; [lia|].
      rewrite lookup_insert_ne in Hk by done. specialize (Hfb k Hk). fold id in Hfb. lia.
    + exact Hjobs.
  - split; simpl.
    + exact Hcj.
    + intros f b Hf. destruct (decide (f = id)) as [->|Hne].
      * rewrite lookup_insert_eq in Hf. injection Hf as <-. split; [lia|].
        intros file' Hfile'. rewrite lookup_insert_eq in Hfile'.
        by injection Hfile' as <-.
      * rewrite lookup_insert_ne in Hf by done.
        destruct (Hcf f b Hf) as [Hlt Hle]. fold id in Hlt. split; [lia|].
        intros file' Hfile'. rewrite Hold in Hfile' by done. by apply Hle.
  - by apply Hunclaimed.
  - split; simpl.
    + intros k job' Hk. exists job'. by split.
    + intros k file' Hk. exists file'. split; [|split; [done|split; [done|lia]]].
      rewrite Hold; [done|]. apply Hfb. by eexists.
  - intros c' Hc' [Hdj Hdf]. split; [by apply Hkeep|]. split; simpl.
    + exact Hdj.
    + intros f Hf Hf'. destruct (decide (f = id)) as [->|Hne].
      * rewrite (Hunclaimed c' Hc') in Hf'. by destruct Hf'.
      * rewrite lookup_insert_ne in Hf by done. by apply (Hdf f).
Qed.

Lemma call_ok_updatePdfJob (w : World) (id : Z) (updates : PartialPdfJob.t)
    (s : MemStorage) (c : Claim) :
  store_ok s → claim_ok s c → op_allowed (StUpdatePdfJob id updates) c →
  call_ok w (StUpdatePdfJob id updates) s c.
Proof.
  intros [[Hjb Hfb] Hjobs] [Hcj Hcf] Hallowed. simpl in Hallowed.
  unfold call_ok. simpl.
  set (c1 := match PartialPdfJob.completedAt updates with
             | Some _ => {| own_jobs := own_jobs c ∖ {[id]}; own_files := own_files c |}
             | None => c
             end).
  assert (Hsub : ∀ j, j ∈ own_jobs c1 → j ∈ own_jobs c).
  { intros j. subst c1. destruct (PartialPdfJob.completedAt updates); simpl; [|done].
    intros Hj. by apply elem_of_difference in Hj as [Hj _]. }
  assert (Hfiles1 : own_files c1 = own_files c).
  { subst c1. by destruct (PartialPdfJob.completedAt updates). }
  assert (Hreleased : is_Some (PartialPdfJob.completedAt updates) → id ∉ own_jobs c1).
  { subst c1. destruct (PartialPdfJob.completedAt updates); simpl.
    - intros _ Hin. apply elem_of_difference in Hin as [_ Hne].
      apply Hne. by apply elem_of_singleton.
    - by intros [x Hx]. }
  assert (Hdisj : ∀ c', claims_disjoint c c' → claims_disjoint c1 c').
  { intros c' [Hdj Hdf]. split.
    - intros j Hj. by apply Hdj, Hsub.
    - rewrite Hfiles1. exact Hdf. }
  unfold updatePdfJob. destruct (jobs s !! id) as [job|] eqn:Hjob; simpl.
  - set (new := spreadJob job updates).
    assert (Hdate : PartialPdfJob.completedAt updates = None →
                    PdfJob.completedAt new = PdfJob.completedAt job).
    { intros Hnone. subst new. simpl. by rewrite Hnone. }
    assert (Hwriter : is_Some (PartialPdfJob.completedAt updates) →
                      id ∈ own_jobs c ∧ PdfJob.completedAt job = None).
    { intros [date Hdate']. rewrite Hdate' in Hallowed.
      destruct Hallowed as (Hown & _ & _). split; [done|].
      by apply (Hcj id Hown). }
    assert (Hkeep : ∀ c', claim_ok s c' →
              (is_Some (PartialPdfJob.completedAt updates) → id ∉ own_jobs c') →
              claim_ok {| jobs := <[id := new]> (jobs s); files := files s;
                          jobCurrentId := jobCurrentId s;
                          fileCurrentId := fileCurrentId s |} c').
    { intros c' [Hcj' Hcf'] Hout. split; simpl; [|exact Hcf'].
      intros j Hj. destruct (Hcj' j Hj) as [Hlt Hnone]. split; [done|].
      intros job' Hjob'. destruct (decide (j = id)) as [->|Hne].
      - rewrite lookup_insert_eq in Hjob'. injection Hjob' as <-.
        destruct (PartialPdfJob.completedAt updates) as [date|] eqn:Hdate'.
        + exfalso. apply Hout; [by eexists|done].
        + rewrite Hdate by done. by apply Hnone.
      - rewrite lookup_insert_ne in Hjob' by done. by apply Hnone. }
    split; [|split; [|split; [|split]]].
    + split; [split|]; simpl.
      * intros k Hk. apply Hjb. destruct (decide (k = id)) as [->|Hne]; [by eexists|].
        by rewrite lookup_insert_ne in Hk.
      * exact Hfb.
      * intros k job' Hk. destruct (decide (k = id)) as [->|Hne];
          [|rewrite lookup_insert_ne in Hk by done; by apply (Hjobs k)].
        rewrite lookup_insert_eq in Hk. injection Hk as <-.
        destruct (Hjobs id job Hjob) as [Hcompleted Hterminal].
        subst new. unfold job_ok. simpl.
        destruct (PartialPdfJob.completedAt updates) as [date|] eqn:Hdate'.
        -- destruct Hallowed as (_ & Hset & ->). simpl. by split.
        -- destruct (PartialPdfJob.status updates) as [[]|] eqn:Hstatus; simpl.
           ++ destruct (Hcj id Hallowed) as [_ Hnone].
              rewrite (Hnone job Hjob). split; [done|]. by intros [x Hx].
           ++ destruct (Hcj id Hallowed) as [_ Hnone].
              rewrite (Hnone job Hjob). split; [done|]. by intros [x Hx].
           ++ done.
           ++ by split.
           ++ by split.
    + apply Hkeep.
      * split; [|by rewrite Hfiles1]. intros j Hj. by apply Hcj, Hsub.
      * exact Hreleased.
    + exact I.
    + split; simpl.
      * intros k job' Hk. destruct (decide (k = id)) as [->|Hne].
        -- exists new. split; [apply lookup_insert_eq|].
           rewrite Hjob in Hk. injection Hk as <-. intros Hset.
           destruct (PartialPdfJob.completedAt updates) as [date|] eqn:Hdate'.
           ++ destruct Hwriter as [_ Hnone]; [by eexists|].
              rewrite Hnone in Hset. by destruct Hset.
           ++ by apply Hdate.
        -- exists job'. split; [|done]. by rewrite lookup_insert_ne.
      * intros k file Hk. exists file. split; [done|]. split; [done|]. split; [done|lia].
    + intros c' Hc' Hd. split; [|by apply Hdisj].
      apply Hkeep; [done|]. intros Hset Hin.
      destruct (Hwriter Hset) as [Hown _]. destruct Hd as [Hdj _]. by apply (Hdj id).
  - split; [|split; [|split; [|split]]].
    + done.
    + split; [|by rewrite Hfiles1]. intros j Hj. by apply Hcj, Hsub.
    + exact I.
    + apply advances_refl.
    + intros c' Hc' Hd. split; [done|by apply Hdisj].
Qed.

Lemma call_ok_updatePdfFile (w : World) (id : Z) (updates : PartialPdfFile.t)
    (s : MemStorage) (c : Claim) :
  store_ok s → claim_ok s c → op_allowed (StUpdatePdfFile id updates) c →
  call_ok w (StUpdatePdfFile id updates) s c.
Proof.
  intros [[Hjb Hfb] Hjobs] [Hcj Hcf] Hallowed. simpl in Hallowed.
  unfold call_ok. simpl.
  set (c1 := match PartialPdfFile.progress updates with
             | Some p => {| own_jobs := own_jobs c;
                            own_files := <[id := p]> (own_files c) |}
             | None => c
             end).
  assert (Hjobs1 : own_jobs c1 = own_jobs c).
  { subst c1. by destruct (PartialPdfFile.progress updates). }
  assert (Hother : ∀ f, f ≠ id → own_files c1 !! f = own_files c !! f).
  { intros f Hf. subst c1. destruct (PartialPdfFile.progress updates); [|done].
    simpl. by apply lookup_insert_ne. }
  assert (Hhere : ∀ b1, own_files c1 !! id = Some b1 →
            ∃ b, own_files c !! id = Some b ∧ b ≤ b1 ∧
                 default b (PartialPdfFile.progress updates) = b1).
  { intros b1. subst c1. destruct (PartialPdfFile.progress updates) as [p|]; simpl.
    - rewrite lookup_insert_eq. intros [= <-].
      destruct Hallowed as (_ & _ & b & Hb & Hle). by exists b.
    - intros Hb. exists b1. split; [done|]. split; [lia|done]. }
  assert (Hdom : ∀ f, is_Some (own_files c1 !! f) → is_Some (own_files c !! f)).
  { intros f [b1 Hb1]. destruct (decide (f = id)) as [->|Hne].
    - destruct (Hhere b1 Hb1) as (b & Hb & _). by eexists.
    - rewrite Hother in Hb1 by done. by eexists. }
  assert (Hdisj : ∀ c', claims_disjoint c c' → claims_disjoint c1 c').
  { intros c' [Hdj Hdf]. split.
    - rewrite Hjobs1. exact Hdj.
    - intros f Hf. by apply Hdf, Hdom. }
  assert (Hwriter : is_Some (PartialPdfFile.progress updates) →
                    is_Some (own_files c !! id)).
  { intros [p Hp]. rewrite Hp in Hallowed. destruct Hallowed as (_ & _ & b & Hb & _).
    by eexists. }
  unfold updatePdfFile. destruct (files s !! id) as [file|] eqn:Hfile; simpl.
  - set (new := spreadFile file updates).
    assert (Hprogress : PdfFile.progress new
                        = default (PdfFile.progress file) (PartialPdfFile.progress updates))
      by done.
    assert (Hkeep : ∀ c', claim_ok s c' →
              (is_Some (PartialPdfFile.progress updates) → own_files c' !! id = None) →
              claim_ok {| jobs := jobs s; files := <[id := new]> (files s);
                          jobCurrentId := jobCurrentId s;
                          fileCurrentId := fileCurrentId s |} c').
    { intros c' [Hcj' Hcf'] Hout. split; simpl; [exact Hcj'|].
      intros f b Hf. destruct (Hcf' f b Hf) as [Hlt Hle]. split; [done|].
      intros file' Hfile'. destruct (decide (f = id)) as [->|Hne].
      - rewrite lookup_insert_eq in Hfile'. injection Hfile' as <-.
        rewrite Hprogress.
        destruct (PartialPdfFile.progress updates) as [p|] eqn:Hp; simpl.
        + rewrite Hout in Hf by (by eexists). done.
        + by apply Hle.
      - rewrite lookup_insert_ne in Hfile' by done. by apply Hle. }
    split; [|split; [|split; [|split]]].
    + split; [split|]; simpl.
      * exact Hjb.
      * intros k Hk. apply Hfb. destruct (decide (k = id)) as [->|Hne]; [by eexists|].
        by rewrite lookup_insert_ne in Hk.
      * exact Hjobs.
    + split; simpl.
      * rewrite Hjobs1. exact Hcj.
      * intros f b1 Hf. destruct (decide (f = id)) as [->|Hne].
        -- destruct (Hhere b1 Hf) as (b & Hb & Hle & Hnoted).
           destruct (Hcf id b Hb) as [Hlt Hbound]. split; [done|].
           intros file' Hfile'. rewrite lookup_insert_eq in Hfile'.
           injection Hfile' as <-. rewrite Hprogress.
           specialize (Hbound file Hfile).
           destruct (PartialPdfFile.progress updates) as [p|]; simpl in *; lia.
        -- rewrite Hother in Hf by done. destruct (Hcf f b1 Hf) as [Hlt Hbound].
           split; [done|]. intros file' Hfile'.
           rewrite lookup_insert_ne in Hfile' by done. by apply Hbound.
    + exact I.
    + split; simpl.
      * intros k job Hk. exists job. by split.
      * intros k file' Hk. destruct (decide (k = id)) as [->|Hne].
        -- exists new. split; [apply lookup_insert_eq|].
           rewrite Hfile in Hk. injection Hk as <-.
           destruct Hallowed as (Hid & Hjobid & Hallowed).
           split; [subst new; simpl; by rewrite Hid|].
           split; [subst new; simpl; by rewrite Hjobid|].
           rewrite Hprogress.
           destruct (PartialPdfFile.progress updates) as [p|] eqn:Hp; simpl; [|lia].
           destruct Hallowed as (b & Hb & Hle).
           destruct (Hcf id b Hb) as [_ Hbound]. specialize (Hbound file Hfile). lia.
        -- exists file'. split; [by rewrite lookup_insert_ne|]. split; [done|].
           split; [done|lia].
    + intros c' Hc' Hd. split; [|by apply Hdisj].
      apply Hkeep; [done|]. intros Hset.
      destruct (own_files c' !! id) as [b'|] eqn:Hb'; [|done].
      exfalso. destruct Hd as [_ Hdf]. apply (Hdf id); [by apply Hwriter|by eexists].
  - split; [|split; [|split; [|split]]].
    + done.
    + split; [by rewrite Hjobs1|].
      intros f b1 Hf. destruct (decide (f = id)) as [->|Hne].
      * destruct (Hhere b1 Hf) as (b & Hb & _). destruct (Hcf id b Hb) as [Hlt _].
        split; [done|]. intros file' Hfile'. congruence.
      * rewrite Hother in Hf by done. by apply Hcf.
    + exact I.
    + apply advances_refl.
    + intros c' Hc' Hd. split; [done|by apply Hdisj].
Qed.

(** Any allowed call keeps the store well formed and every claim backed. *)
Lemma allowed_call_ok (w : World) (op : Op) (s : MemStorage) (c : Claim) :
  store_ok s → claim_ok s c → op_allowed op c → call_ok w op s c.
Proof.
  intros Hstore Hclaim Hallowed.
  destruct op as [id|job|id updates|id|file|id updates|jobId| | | | | | | |];
    try (apply call_ok_unchanged; [done|done| |done|done]; simpl).
  - done.
  - by apply call_ok_createPdfJob.
  - by apply call_ok_updatePdfJob.
  - done.
  - by apply call_ok_createPdfFile.
  - by apply call_ok_updatePdfFile.
  - done.
  - done.
  - done.
  - by destruct (exec_ok w tool input output).
  - done.
  - by destruct (statSync w path0).
  - done.
  - by destruct (renameSync_ok w oldPath newPath).
  - by destruct (copyFileSync_ok w src dest).
Qed.

(** ** The invariant *)

Lemma claims_disjoint_sym (c1 c2 : Claim) :
  claims_disjoint c1 c2 → claims_disjoint c2 c1.
Proof. intros [Hj Hf]. split; [intros j H1 H2; by apply (Hj j)|intros f H1 H2; by apply (Hf f)]. Qed.

Lemma noClaim_ok (s : MemStorage) : claim_ok s noClaim.
Proof.
  split; simpl.
  - intros j Hj. by apply not_elem_of_empty in Hj.
  - intros f b Hf. by rewrite lookup_empty in Hf.
Qed.

Lemma noClaim_disjoint (c : Claim) : claims_disjoint noClaim c.
Proof.
  split; simpl.
  - intros j Hj. by apply not_elem_of_empty in Hj.
  - intros f [b Hf]. by rewrite lookup_empty in Hf.
Qed.

(** Replacing the claim of one task after a call it made. *)
Lemma claims_ok_insert (s s' : MemStorage) (cs : list Claim) (i : nat) (c c1 : Claim) :
  claims_ok s cs →
  cs !! i = Some c →
  claim_ok s' c1 →
  (∀ c', claim_ok s c' → claims_disjoint c c' →
         claim_ok s' c' ∧ claims_disjoint c1 c') →
  claims_ok s' (<[i := c1]> cs).
Proof.
  intros [Hok Hdisj] Hi Hc1 Hothers.
  assert (Hlookup : ∀ j cj, <[i := c1]> cs !! j = Some cj →
            (j = i ∧ cj = c1) ∨ (j ≠ i ∧ cs !! j = Some cj)).
  { intros j cj Hj. destruct (decide (j = i)) as [->|Hne].
    - left. split; [done|].
      rewrite list_lookup_insert_eq in Hj by (by eapply lookup_lt_Some). congruence.
    - right. split; [done|]. by rewrite list_lookup_insert_ne in Hj. }
  assert (Hother : ∀ j cj, j ≠ i → cs !! j = Some cj →
            claim_ok s' cj ∧ claims_disjoint c1 cj).
  { intros j cj Hne Hj. apply Hothers; [by apply (Hok j)|].
    by apply (Hdisj i j). }
  split.
  - intros j cj Hj. destruct (Hlookup j cj Hj) as [[-> ->]|[Hne Hj']]; [done|].
    by apply (Hother j cj).
  - intros j1 j2 c1' c2' Hne H1 H2.
    destruct (Hlookup j1 c1' H1) as [[-> ->]|[Hne1 H1']];
      destruct (Hlookup j2 c2' H2) as [[-> ->]|[Hne2 H2']].
    + done.
    + by apply (Hother j2 c2').
    + apply claims_disjoint_sym. by apply (Hother j1 c1').
    + by apply (Hdisj j1 j2).
Qed.

(** Adding the claim of a task that has just started. *)
Lemma claims_ok_snoc (s : MemStorage) (cs : list Claim) (c : Claim) :
  claims_ok s cs →
  claim_ok s c →
  (∀ j cj, cs !! j = Some cj → claims_disjoint cj c) →
  claims_ok s (cs ++ [c]).
Proof.
  intros [Hok Hdisj] Hc Hnew.
  assert (Hlookup : ∀ j cj, (cs ++ [c]) !! j = Some cj →
            cs !! j = Some cj ∨ (j = length cs ∧ cj = c)).
  { intros j cj Hj. apply lookup_app_Some in Hj as [Hj|[Hlen Hj]]; [by left|right].
    apply list_lookup_singleton_Some in Hj as [Hzero <-]. split; [lia|done]. }
  split.
  - intros j cj Hj. destruct (Hlookup j cj Hj) as [Hj'|[_ ->]]; [by apply (Hok j)|done].
  - intros j1 j2 c1 c2 Hne H1 H2.
    destruct (Hlookup j1 c1 H1) as [H1'|[-> ->]];
      destruct (Hlookup j2 c2 H2) as [H2'|[-> ->]].
    + by apply (Hdisj j1 j2).
    + by apply (Hnew j1).
    + apply claims_disjoint_sym. by apply (Hnew j2).
    + done.
Qed.

Lemma invariant_boot : invariant boot.
Proof.
  split; [split; [split|]|].
  - intros k [x Hx]. simpl in Hx. by rewrite lookup_empty in Hx.
  - intros k [x Hx]. simpl in Hx. by rewrite lookup_empty in Hx.
  - intros k job Hk. simpl in Hk. by rewrite lookup_empty in Hk.
  - exists []. split; [constructor|]. split.
    + intros i c Hi. by rewrite lookup_nil in Hi.
    + intros i j ci cj _ Hi. by rewrite lookup_nil in Hi.
Qed.

(** Every event keeps the invariant, and moves the store forward only. *)
Lemma fire_invariant (e : Event) (σ σ' : Server) :
  invariant σ → fire e σ = Some σ' →
  invariant σ' ∧ advances (store σ) (store σ').
Proof.
  intros (Hstore & cs & Hsafe & Hclaims) Hfire.
  destruct e as [req|i w]; simpl in Hfire.
  - injection Hfire as <-. split; [|apply advances_refl].
    split; [done|]. exists (cs ++ [noClaim]). split; simpl.
    + apply Forall2_app; [done|]. constructor; [apply safe_serve|constructor].
    + apply claims_ok_snoc; [done|apply noClaim_ok|].
      intros j cj _. apply claims_disjoint_sym, noClaim_disjoint.
  - destruct (tasks σ !! i) as [t|] eqn:Ht; [|done].
    destruct (Forall2_lookup_l _ _ _ _ _ Hsafe Ht) as (c & Hc & Htc).
    assert (Hcok : claim_ok (store σ) c) by (by apply (proj1 Hclaims i)).
    destruct t as [a|m|op k h|child k]; simpl in Hfire; try done.
    + (* a call *)
      destruct Htc as (Hallowed & Hk & Hh).
      destruct (allowed_call_ok w op (store σ) c Hstore Hcok Hallowed)
        as (Hstore' & Hcok' & Hfresh & Hadv & Hothers).
      destruct (run_op w op (store σ)) as [[r|err] s'] eqn:Hrun;
        simpl in Hstore', Hcok', Hfresh, Hadv, Hothers;
        injection Hfire as <-; simpl; (split; [|exact Hadv]);
        (split; [exact Hstore'|]).
      * exists (<[i := claim_after op c (Ok r)]> cs). simpl. split.
        -- rewrite app_nil_r. apply Forall2_insert; [done|]. by apply Hk.
        -- by apply (claims_ok_insert (store σ) s' cs i c).
      * exists (<[i := claim_after op c (Thrown err)]> cs). simpl. split.
        -- rewrite app_nil_r. apply Forall2_insert; [done|]. by apply Hh.
        -- by apply (claims_ok_insert (store σ) s' cs i c).
    + (* a spawn: the child takes the claim *)
      destruct Htc as [Hchild Hk]. injection Hfire as <-.
      split; [|apply advances_refl]. split; [done|].
      exists (<[i := noClaim]> cs ++ [c]). simpl. split.
      * apply Forall2_app; [by apply Forall2_insert|]. constructor; [done|constructor].
      * apply claims_ok_snoc.
        -- apply (claims_ok_insert (store σ) (store σ) cs i c);
             [done|done|apply noClaim_ok|].
           intros c' Hc' _. split; [done|apply noClaim_disjoint].
        -- done.
        -- intros j cj Hj. destruct (decide (j = i)) as [->|Hne].
           ++ rewrite list_lookup_insert_eq in Hj by (by eapply lookup_lt_Some).
              injection Hj as <-. apply noClaim_disjoint.
           ++ rewrite list_lookup_insert_ne in Hj by done.
              by apply (proj2 Hclaims j i).
Qed.

Lemma step_invariant (σ σ' : Server) :
  invariant σ → step σ σ' → invariant σ' ∧ advances (store σ) (store σ').
Proof. intros Hinv [e Hfire]. by apply (fire_invariant e). Qed.

Lemma reachable_invariant (σ : Server) : reachable σ → invariant σ.
Proof.
  unfold reachable. intros Hreach.
  revert σ Hreach. apply (rtc_ind_r (R := step) invariant boot invariant_boot).
  intros σ1 σ2 _ Hstep Hinv. by apply (step_invariant σ1 σ2).
Qed.

Lemma steps_advance (σ σ' : Server) :
  invariant σ → rtc step σ σ' → advances (store σ) (store σ').
Proof.
  intros Hinv Hsteps. induction Hsteps as [σ|σ1 σ2 σ3 Hstep _ IH].
  - apply advances_refl.
  - destruct (step_invariant σ1 σ2 Hinv Hstep) as [Hinv2 Hadv].
    apply (advances_trans _ (store σ2)); [done|by apply IH].
Qed.

Lemma fireAll_steps (es : list Event) (σ σ' : Server) :
  fireAll es σ = Some σ' → rtc step σ σ'.
Proof.
  revert σ. induction es as [|e rest IH]; intros σ Hfire; simpl in Hfire.
  - injection Hfire as <-. apply rtc_refl.
  - destruct (fire e σ) as [σ1|] eqn:He; [|done].
    apply (rtc_l _ _ σ1); [by exists e|by apply IH].
Qed.

Lemma afterSchedule_reachable (es : list Event) : reachable (afterSchedule es).
Proof.
  unfold afterSchedule, reachable.
  destruct (fireAll es boot) as [σ|] eqn:Hfire; simpl.
  - by apply (fireAll_steps es).
  - apply rtc_refl.
Qed.

(** ** Completion dates *)

(** C4 (amended). In every state the server can reach, a completed job has
    its completedAt and a job with completedAt is completed or failed; and
    once completedAt is set, no later state shows another value. *)
Theorem completedAt_discipline (σ σ' : Server) (k : Z) (job : PdfJob.t) :
  reachable σ → rtc step σ σ' →
  jobs (store σ) !! k = Some job →
  (PdfJob.status job = completed → is_Some (PdfJob.completedAt job)) ∧
  (is_Some (PdfJob.completedAt job) → isTerminal (PdfJob.status job) = true) ∧
  (is_Some (PdfJob.completedAt job) →
   ∃ job', jobs (store σ') !! k = Some job' ∧
           PdfJob.completedAt job' = PdfJob.completedAt job).
Proof.
  intros Hreach Hsteps Hjob.
  assert (Hinv := reachable_invariant σ Hreach).
  destruct Hinv as [[_ Hjobs] Hclaims].
  destruct (Hjobs k job Hjob) as [Hcompleted Hterminal].
  split; [done|]. split; [done|]. intros Hset.
  destruct (steps_advance σ σ' (reachable_invariant σ Hreach) Hsteps) as [Hadv _].
  destruct (Hadv k job Hjob) as (job' & Hjob' & Hsame).
  exists job'. split; [done|by apply Hsame].
Qed.

Lemma completedAt_discipline_witness :
  let σ := afterSchedule (uploadSchedule ++ finishSchedule) in
  ∃ job, jobs (store σ) !! 1 = Some job ∧
         PdfJob.status job = completed ∧
         PdfJob.completedAt job = Some 1700000000000 ∧
         isTerminal (PdfJob.status job) = true.
Proof.
  intros σ.
  assert (Hjob : jobs (store σ) !! 1
                 = Some (PdfJob.mk 1 completed 1700000000000 (Some 1700000000000)
                           defaultOptions)) by (vm_compute; reflexivity).
  destruct (completedAt_discipline σ σ 1 _ (afterSchedule_reachable _) (rtc_refl _ _) Hjob)
    as (_ & Hterminal & _).
  eexists. split; [exact Hjob|]. split; [reflexivity|]. split; [reflexivity|].
  apply Hterminal. by eexists.
Defined.

(** C4, as stated, fails for a cancelled job: after the cancel request the
    job is failed and has no completedAt. *)
Lemma cancelled_without_completedAt_counterexample :
  let σ := afterSchedule cancelSchedule in
  reachable σ ∧
  (PdfJob.status <$> jobs (store σ) !! 1) = Some failed ∧
  (PdfJob.completedAt <$> jobs (store σ) !! 1) = Some None.
Proof.
  intros σ. split; [apply afterSchedule_reachable|].
  split; vm_compute; reflexivity.
Qed.

(** ** Progress *)

Lemma orNumber_progress (p : Z) : orNumber (Some p) 0 = p.
Proof. unfold orNumber. by destruct (Z.eqb_spec p 0) as [->|]. Qed.

(** The status route shows, for each file of the job, the stored progress. *)
Lemma elem_of_poll (w : World) (jobId : Z) (s : MemStorage) (fileId p : Z) :
  (fileId, p) ∈ poll w jobId s ↔
  is_Some (jobs s !! jobId) ∧
  ∃ k file, files s !! k = Some file ∧
            PdfFile.jobId file = jobId ∧
            PdfFile.id file = fileId ∧
            PdfFile.progress file = p.
Proof.
  unfold poll, statusHandler. cbn -[orNumber getPdfFilesByJobId]. unfold getPdfJob.
  destruct (jobs s !! jobId) as [job|] eqn:Hjob; cbn -[orNumber getPdfFilesByJobId].
  - rewrite list_elem_of_fmap. split.
    + intros (entry & Hpair & Hentry). apply list_elem_of_fmap in Hentry as (file & -> & Hfile).
      cbn -[orNumber] in Hpair. rewrite orNumber_progress in Hpair.
      injection Hpair as -> ->.
      apply elem_of_getPdfFilesByJobId in Hfile as [Hjobid [k Hk]].
      split; [by eexists|]. by exists k, file.
    + intros (_ & k & file & Hk & Hjobid & <- & <-).
      eexists. split; [|apply list_elem_of_fmap_2, elem_of_getPdfFilesByJobId].
      * cbn -[orNumber]. by rewrite orNumber_progress.
      * split; [done|]. by exists k.
  - split; [intros Hin; by apply elem_of_nil in Hin|].
    intros [[x Hx] _]. done.
Qed.

(** C5 (amended). In the job/file pipeline the stored progress of a file
    never goes down from one reachable state to a later one, and so a poll
    of the status route never shows a file a lower percentage than an
    earlier poll did. *)
Theorem polled_progress_monotone (w : World) (σ σ' : Server) :
  reachable σ → rtc step σ σ' →
  (∀ k file, files (store σ) !! k = Some file →
     ∃ file', files (store σ') !! k = Some file' ∧
              PdfFile.progress file ≤ PdfFile.progress file') ∧
  (∀ jobId fileId p, (fileId, p) ∈ poll w jobId (store σ) →
     ∃ p', (fileId, p') ∈ poll w jobId (store σ') ∧ p ≤ p').
Proof.
  intros Hreach Hsteps.
  destruct (steps_advance σ σ' (reachable_invariant σ Hreach) Hsteps) as [Hjobs Hfiles].
  split.
  - intros k file Hk. destruct (Hfiles k file Hk) as (file' & Hk' & _ & _ & Hle).
    by exists file'.
  - intros jobId fileId p Hpoll.
    apply elem_of_poll in Hpoll as ([job Hjob] & k & file & Hk & Hjobid & Hid & Hp).
    destruct (Hjobs jobId job Hjob) as (job' & Hjob' & _).
    destruct (Hfiles k file Hk) as (file' & Hk' & Hid' & Hjobid' & Hle).
    exists (PdfFile.progress file'). split; [|lia].
    apply elem_of_poll. split; [by eexists|].
    exists k, file'. split; [done|]. split; [congruence|]. split; [congruence|done].
Qed.

Lemma polled_progress_monotone_witness :
  let σ := afterSchedule uploadSchedule in
  let σ' := afterSchedule (uploadSchedule ++ finishSchedule) in
  (1, 10) ∈ poll fallbackWorld 1 (store σ) ∧
  ∃ p', (1, p') ∈ poll fallbackWorld 1 (store σ') ∧ 10 ≤ p'.
Proof.
  intros σ σ'.
  assert (Hpoll : (1, 10) ∈ poll fallbackWorld 1 (store σ)).
  { replace (poll fallbackWorld 1 (store σ)) with [(1, 10)] by (vm_compute; reflexivity).
    apply list_elem_of_here. }
  assert (Hsteps : rtc step σ σ').
  { apply (fireAll_steps finishSchedule). vm_compute. reflexivity. }
  split; [exact Hpoll|].
  destruct (polled_progress_monotone fallbackWorld σ σ'
              (afterSchedule_reachable _) Hsteps) as [_ Hpolls].
  by apply Hpolls.
Defined.

(** C5, as stated, fails on the progress route of the single-file variant:
    two polls of the same job, still processing, show 90 and then 10. *)
Lemma legacy_progress_counterexample :
  (Legacy.status <$> Legacy.getPdfJob 1 legacyProcessing) = Some processing ∧
  Legacy.shownProgress (Legacy.getProgress (Some 1) 80 legacyProcessing) = Some 90 ∧
  Legacy.shownProgress (Legacy.getProgress (Some 1) 0 legacyProcessing) = Some 10 ∧
  ¬ (90 ≤ 10).
Proof. repeat split; try (vm_compute; reflexivity). lia. Qed.

(** ** Cancellation against the running orchestrator *)

(** C2 fails on the code.  Job 1 is cancelled while its orchestrator waits
    inside the conversion of its file: the job and the file are failed.
    The orchestrator is then resumed, as nothing stops it: the file goes
    from failed to completed and the job from failed to completed. *)
Lemma cancelled_job_changes_status :
  let σ := afterSchedule cancelSchedule in
  ∃ σ',
    fireAll finishSchedule σ = Some σ' ∧
    reachable σ ∧ rtc step σ σ' ∧
    (PdfJob.status <$> jobs (store σ) !! 1) = Some failed ∧
    (PdfFile.status <$> files (store σ) !! 1) = Some failed ∧
    (PdfFile.error <$> files (store σ) !! 1) = Some (Some cancelledMessage) ∧
    (PdfJob.status <$> jobs (store σ') !! 1) = Some completed ∧
    (PdfFile.status <$> files (store σ') !! 1) = Some completed.
Proof.
  intros σ.
  destruct (fireAll finishSchedule σ) as [σ'|] eqn:Hfire;
    [|vm_compute in Hfire; discriminate].
  exists σ'. split; [reflexivity|].
  split; [apply afterSchedule_reachable|].
  split; [by apply (fireAll_steps finishSchedule)|].
  assert (Hjob' : (PdfJob.status <$> jobs (store σ') !! 1) = Some completed).
  { change (PdfJob.status <$> jobs (store (default boot (Some σ'))) !! 1 = Some completed).
    rewrite <-Hfire. vm_compute. reflexivity. }
  assert (Hfile' : (PdfFile.status <$> files (store σ') !! 1) = Some completed).
  { change (PdfFile.status <$> files (store (default boot (Some σ'))) !! 1 = Some completed).
    rewrite <-Hfire. vm_compute. reflexivity. }
  repeat split; try exact Hjob'; try exact Hfile'; vm_compute; reflexivity.
Qed.

(** ** File names *)

Lemma length_app_string (a b : string) :
  String.length (a +:+ b) = (String.length a + String.length b)%nat.
Proof. induction a as [|c a IH]; simpl; [done|by rewrite IH]. Qed.

Lemma app_string_assoc (a b c : string) : a +:+ (b +:+ c) = (a +:+ b) +:+ c.
Proof.
  induction a as [|x a IH]; [done|].
  change (String x (a +:+ (b +:+ c)) = String x ((a +:+ b) +:+ c)).
  by rewrite IH.
Qed.

Lemma substring_all (b : string) : String.substring 0 (String.length b) b = b.
Proof. induction b as [|c b IH]; simpl; [done|by rewrite IH]. Qed.

Lemma substring_app_r (a b : string) :
  String.substring (String.length a) (String.length b) (a +:+ b) = b.
Proof. induction a as [|c a IH]; simpl; [apply substring_all|apply IH]. Qed.

Lemma substring_app_l (a b : string) :
  String.substring 0 (String.length a) (a +:+ b) = a.
Proof.
  induction a as [|c a IH]; simpl.
  - by destruct b.
  - by rewrite IH.
Qed.

Lemma endsWith_app (a b : string) : endsWith (a +:+ b) b = true.
Proof.
  unfold endsWith. rewrite length_app_string.
  replace (String.length a + String.length b - String.length b)%nat
    with (String.length a) by lia.
  rewrite substring_app_r, String.eqb_refl.
  rewrite andb_true_r. apply Nat.leb_le. lia.
Qed.

Lemma toLowerCase_app (a b : string) :
  toLowerCase (a +:+ b) = toLowerCase a +:+ toLowerCase b.
Proof.
  induction a as [|c a IH]; [done|].
  change (toLowerCase (String c a +:+ b))
    with (String (toLowerChar c) (toLowerCase (a +:+ b))).
  by rewrite IH.
Qed.

Lemma toLowerCase_length (a : string) :
  String.length (toLowerCase a) = String.length a.
Proof.
  induction a as [|c a IH]; [done|].
  change (toLowerCase (String c a)) with (String (toLowerChar c) (toLowerCase a)).
  simpl. by rewrite IH.
Qed.

(** X3. The name of the converted file: an extension [.pdf], in whatever case,
    is taken off before the suffix is added, so that [Report.PDF] becomes
    [Report_PDFA2u.pdf]. *)
Theorem generatePdfaFilename_strips_extension (base ext : string) :
  toLowerCase ext = ".pdf" →
  generatePdfaFilename (base +:+ ext) = base +:+ "_PDFA2u.pdf".
Proof.
  intros Hext. unfold generatePdfaFilename.
  assert (Hlen : String.length ext = 4%nat).
  { by rewrite <- toLowerCase_length, Hext. }
  rewrite toLowerCase_app, Hext, endsWith_app.
  rewrite length_app_string, Hlen.
  replace (String.length base + 4 - 4)%nat with (String.length base) by lia.
  by rewrite substring_app_l.
Qed.

Lemma generatePdfaFilename_strips_extension_witness :
  toLowerCase ".PDF" = ".pdf" ∧
  generatePdfaFilename ("Report" +:+ ".PDF") = "Report" +:+ "_PDFA2u.pdf".
Proof.
  split; [reflexivity|].
  apply (generatePdfaFilename_strips_extension "Report" ".PDF"). reflexivity.
Defined.

Lemma list_ascii_app (a b : string) :
  String.list_ascii_of_string (a +:+ b)
  = String.list_ascii_of_string a ++ String.list_ascii_of_string b.
Proof.
  induction a as [|c a IH]; [done|].
  change (c :: String.list_ascii_of_string (a +:+ b)
          = c :: (String.list_ascii_of_string a ++ String.list_ascii_of_string b)).
  by rewrite IH.
Qed.

Lemma segments_cons (p : string) : ∃ segment more, segments p = segment :: more.
Proof.
  destruct p as [|c rest]; simpl; [by eexists _, _|].
  destruct (Ascii.eqb c "/"); [by eexists _, _|].
  destruct (segments rest); by eexists _, _.
Qed.

Lemma segments_slash (p : string) :
  segments (String "/" p) = EmptyString :: segments p.
Proof. reflexivity. Qed.

Lemma segments_app (a b : string) :
  segments (a +:+ String "/" b) = segments a ++ segments b.
Proof.
  induction a as [|c a IH]; [done|].
  change (String c a +:+ String "/" b) with (String c (a +:+ String "/" b)).
  cbn [segments]. rewrite IH.
  destruct (Ascii.eqb c "/"); [done|].
  by destruct (segments_cons a) as (segment & more & ->).
Qed.

Lemma segments_plainSegment (p : string) : plainSegment p → segments p = [p].
Proof.
  unfold plainSegment. induction p as [|c p IH]; [done|]. intros Hp.
  change (String.list_ascii_of_string (String c p))
    with (c :: String.list_ascii_of_string p) in Hp.
  apply not_elem_of_cons in Hp as [Hc Hp]. cbn [segments].
  destruct (Ascii.eqb_spec c "/") as [->|_]; [done|]. by rewrite IH.
Qed.

Lemma segments_plain (p : string) : Forall plainSegment (segments p).
Proof.
  induction p as [|c p IH]; cbn [segments].
  - constructor; [|constructor]. intros H. by apply elem_of_nil in H.
  - destruct (Ascii.eqb_spec c "/") as [->|Hc].
    + constructor; [|done]. intros H. by apply elem_of_nil in H.
    + destruct (segments_cons p) as (segment & more & Heq). rewrite Heq in *.
      apply Forall_cons in IH as [Hsegment Hmore]. constructor; [|done].
      intros H. change (String.list_ascii_of_string (String c segment))
        with (c :: String.list_ascii_of_string segment) in H.
      apply elem_of_cons in H as [H|H]; [by apply Hc|by apply Hsegment].
Qed.

Lemma segments_concat (l : list string) :
  l ≠ [] → Forall plainSegment l → segments (String.concat "/" l) = l.
Proof.
  induction l as [|segment more IH]; [done|]. intros _ Hl.
  apply Forall_cons in Hl as [Hsegment Hmore].
  destruct more as [|next more]; [by apply segments_plainSegment|].
  change (String.concat "/" (segment :: next :: more))
    with (segment +:+ String "/" (String.concat "/" (next :: more))).
  rewrite segments_app, IH by done. by rewrite segments_plainSegment.
Qed.

Lemma normalizeSegment_plain (allow : bool) (kept : list string) (segment : string) :
  Forall plainSegment kept → plainSegment segment →
  Forall plainSegment (normalizeSegment allow kept segment).
Proof.
  intros Hkept Hsegment. unfold normalizeSegment.
  destruct (_ || _); [done|].
  destruct (String.eqb segment "..").
  - destruct kept as [|top below]; [destruct allow; by repeat constructor|].
    destruct (String.eqb top "..");
      [destruct allow; [by constructor|done]|by apply Forall_cons in Hkept as [_ ?]].
  - by constructor.
Qed.

Lemma normalizeSegments_plain (allow : bool) (l kept : list string) :
  Forall plainSegment kept → Forall plainSegment l →
  Forall plainSegment (foldl (normalizeSegment allow) kept l).
Proof.
  revert kept. induction l as [|segment l IH]; intros kept Hkept Hl; [done|].
  apply Forall_cons in Hl as [Hsegment Hl]. simpl.
  apply IH; [by apply normalizeSegment_plain|done].
Qed.

Lemma basename_path_join (dir name : string) :
  plainName name → basename (path_join dir name) = name.
Proof.
  intros (Hplain & Hne & Hdot & Hdots). unfold path_join.
  set (joined := if String.eqb dir "" then _ else _).
  assert (Hsegments : ∃ before,
            segments joined = before ++ [name]).
  { subst joined. destruct (String.eqb dir "").
    - exists []. by apply segments_plainSegment.
    - destruct (String.eqb_spec name "") as [|_]; [done|].
      exists (segments dir).
      change (dir +:+ "/" +:+ name) with (dir +:+ String "/" name).
      by rewrite segments_app, (segments_plainSegment name). }
  destruct Hsegments as [before Hsegments].
  assert (Hall := segments_plain joined). rewrite Hsegments in Hall.
  apply Forall_app in Hall as [Hbefore _].
  unfold normalize.
  destruct (String.eqb_spec joined "") as [Hjoined|_].
  { rewrite Hjoined in Hsegments. destruct before as [|x [|y before]]; simplify_eq/=. }
  rewrite Hsegments, foldl_app. cbn [foldl].
  set (allow := negb _).
  set (kept := foldl (normalizeSegment allow) [] before).
  assert (Hkept : Forall plainSegment kept).
  { by apply normalizeSegments_plain. }
  assert (Hstep : normalizeSegment allow kept name = name :: kept).
  { unfold normalizeSegment.
    destruct (String.eqb_spec name "") as [|_]; [done|].
    destruct (String.eqb_spec name ".") as [|_]; [done|].
    by destruct (String.eqb_spec name "..") as [|_]. }
  rewrite Hstep, reverse_cons.
  set (l := reverse kept ++ [name]).
  assert (Hl : Forall plainSegment l).
  { apply Forall_app. split; [by apply Forall_reverse|by constructor]. }
  assert (Hres : segments (String.concat "/" l) = l).
  { apply segments_concat; [|done]. subst l. by destruct (reverse kept). }
  assert (Hlast : ∀ pre post,
            Forall (λ segment, segment = "") pre →
            Forall (λ segment, segment = "") post →
            default "" (last (filter (λ segment, segment ≠ "") (pre ++ l ++ post))) = name).
  { intros pre post Hpre Hpost. subst l.
    rewrite !filter_app.
    assert (Hnil : ∀ x : list string,
              Forall (λ segment, segment = "") x → filter (λ segment, segment ≠ "") x = []).
    { induction x as [|a x IHx]; [done|]. intros Hx.
      apply Forall_cons in Hx as [-> Hx]. rewrite filter_cons_False by (by intros ?).
      by apply IHx. }
    rewrite (Hnil pre), (Hnil post) by done.
    rewrite app_nil_l, app_nil_r.
    rewrite filter_cons_True, filter_nil by done.
    by rewrite last_snoc. }
  destruct (String.eqb_spec (String.concat "/" l) "") as [Hempty|_].
  { rewrite Hempty in Hres. subst l. destruct (reverse kept) as [|x [|y k]]; simplify_eq/=. }
  unfold basename.
  destruct (String.prefix "/" joined), (endsWith joined "/"); cbn zeta.
  - change ("/" +:+ ?x) with (String "/" x). rewrite segments_slash.
    change (String.concat "/" l +:+ "/") with (String.concat "/" l +:+ String "/" "").
    rewrite segments_app, Hres.
    apply (Hlast [EmptyString] [EmptyString]); by repeat constructor.
  - change ("/" +:+ ?x) with (String "/" x). rewrite segments_slash, Hres.
    rewrite <- (app_nil_r l). apply (Hlast [EmptyString] []); by repeat constructor.
  - change (String.concat "/" l +:+ "/") with (String.concat "/" l +:+ String "/" "").
    rewrite segments_app, Hres.
    apply (Hlast [] [EmptyString]); by repeat constructor.
  - rewrite Hres. rewrite <- (app_nil_r l). apply (Hlast [] []); by repeat constructor.
Qed.

Lemma path_join_nonempty (dir name : string) :
  String.eqb (path_join dir name) "" = false.
Proof.
  unfold path_join. generalize (if String.eqb dir "" then name
                                else if String.eqb name "" then dir
                                else dir +:+ "/" +:+ name).
  intros p. unfold normalize.
  destruct (String.eqb p ""); [done|]. cbv zeta.
  set (res := String.concat "/" _).
  destruct (String.eqb res "") eqn:Hres.
  - by destruct (String.prefix "/" p), (endsWith p "/").
  - destruct (String.prefix "/" p), (endsWith p "/"); try done.
    by destruct res.
Qed.

Lemma elem_of_substring (c : ascii) (s : string) (n m : nat) :
  c ∈ String.list_ascii_of_string (String.substring n m s) →
  c ∈ String.list_ascii_of_string s.
Proof.
  revert n m. induction s as [|x s IH]; intros n m Hc.
  - by destruct n, m.
  - destruct n as [|n]; simpl in Hc.
    + destruct m as [|m]; simpl in Hc; [by apply elem_of_nil in Hc|].
      apply elem_of_cons in Hc as [->|Hc]; [apply list_elem_of_here|].
      apply list_elem_of_further. by apply (IH 0%nat m).
    + apply list_elem_of_further. by apply (IH n m).
Qed.

Lemma generatePdfaFilename_length (name : string) :
  (11 ≤ String.length (generatePdfaFilename name))%nat.
Proof.
  unfold generatePdfaFilename. rewrite length_app_string. simpl. lia.
Qed.

Lemma generatePdfaFilename_no_separator (name : string) :
  "/"%char ∉ String.list_ascii_of_string name →
  "/"%char ∉ String.list_ascii_of_string (generatePdfaFilename name).
Proof.
  intros Hname Hin. unfold generatePdfaFilename in Hin.
  rewrite list_ascii_app in Hin. apply elem_of_app in Hin as [Hin|Hin].
  - destruct (endsWith (toLowerCase name) ".pdf"); [|done].
    by apply elem_of_substring in Hin.
  - vm_compute in Hin. repeat (apply elem_of_cons in Hin as [Hin|Hin]; [done|]).
    by apply elem_of_nil in Hin.
Qed.

Lemma generatePdfaFilename_plainName (name : string) :
  "/"%char ∉ String.list_ascii_of_string name →
  plainName (generatePdfaFilename name).
Proof.
  intros Hname. assert (Hlen := generatePdfaFilename_length name).
  split; [by apply generatePdfaFilename_no_separator|].
  repeat split; intros Heq; rewrite Heq in Hlen; simpl in Hlen; lia.
Qed.

(** ** How a task can end *)

Lemma ends_mono {A : Type} (t : Task A) (Q Q' : A → Prop) (E E' : string → Prop) :
  ends t Q E → (∀ a, Q a → Q' a) → (∀ e, E e → E' e) → ends t Q' E'.
Proof.
  induction t as [A a|A m|A op k IHk h IHh|A child _ k IHk]; simpl; intros Ht HQ HE.
  - by apply HQ.
  - by apply HE.
  - destruct Ht as [Hk Hh]. split; intros x; [by eapply IHk|by eapply IHh].
  - by eapply IHk.
Qed.

Lemma ends_bind {A B : Type} (t : Task A) (f : A → Task B)
    (Q : B → Prop) (E : string → Prop) :
  ends t (λ a, ends (f a) Q E) E → ends (bind t f) Q E.
Proof.
  induction t as [A a|A m|A op k IHk h IHh|A child _ k IHk]; simpl; intros Ht.
  - done.
  - done.
  - destruct Ht as [Hk Hh]. split; intros x; [by apply IHk|by apply IHh].
  - by apply IHk.
Qed.

Lemma ends_try_catch {A : Type} (t : Task A) (handler : string → Task A)
    (Q : A → Prop) (E : string → Prop) :
  ends t Q (λ e, ends (handler e) Q E) → ends (try_catch t handler) Q E.
Proof.
  induction t as [A a|A m|A op k IHk h IHh|A child _ k IHk]; simpl; intros Ht.
  - done.
  - done.
  - destruct Ht as [Hk Hh]. split; intros x; [by apply IHk|by apply IHh].
  - by apply IHk.
Qed.

Lemma ends_anyhow {A : Type} (t : Task A) (P : Prop) :
  P → ends t (λ _, P) (λ _, P).
Proof.
  intros HP.
  induction t as [A a|A m|A op k IHk h IHh|A child _ k IHk]; simpl; auto.
Qed.

Lemma run_ends {A : Type} (w : World) (t : Task A) (s : MemStorage)
    (Q : A → Prop) (E : string → Prop) :
  ends t Q E →
  match (run w t s).1 with
  | Ok a => Q a
  | Thrown e => E e
  end.
Proof.
  revert s. induction t as [A a|A m|A op k IHk h IHh|A child _ k IHk];
    intros s Ht; simpl in *.
  - done.
  - done.
  - destruct Ht as [Hk Hh].
    destruct (run_op w op s) as [[r|e] s']; [by apply IHk|by apply IHh].
  - by apply IHk.
Qed.

Lemma ends_any {A : Type} (t : Task A) (Q : A → Prop) (E : string → Prop) :
  (∀ a, Q a) → (∀ e, E e) → ends t Q E.
Proof.
  intros HQ HE.
  induction t as [A a|A m|A op k IHk h IHh|A child _ k IHk]; simpl; auto.
Qed.

Lemma ends_processFile (filePath originalName dir : string)
    (options : ConversionOptions) (callback : Z → Task unit) :
  ends (processFile filePath originalName dir options callback)
    (λ r, pr_convertedName r = generatePdfaFilename originalName ∧
          pr_outputPath r = path_join dir (generatePdfaFilename originalName) ∧
          pr_isPdfA r = true ∧
          pr_hasOcr r = applyOcr options)
    (λ e, e = "Falha ao processar o arquivo PDF").
Proof.
  unfold processFile. apply ends_try_catch. cbn [ends].
  set (Q := λ r : ProcessResult, _).
  destruct options as [o v z]; cbn [applyOcr verifyCompliance optimizeSize] in *.
  repeat first
    [ exact I
    | reflexivity
    | match goal with
      | |- ends (Return _) _ _ => cbn [ends]
      | |- ends (Throw _) _ _ => cbn [ends]
      | |- ends dirname _ _ => unfold dirname; cbn [ends]
      | |- ends (callback _) _ _ => apply ends_any; intros ?
      | |- ends (if ?c then _ else _) _ _ => destruct c
      | |- ends (match ?c with _ => _ end) _ _ => destruct c
      | |- ends (try_catch _ _) _ _ => apply ends_try_catch
      | |- ends (bind _ _) _ _ => apply ends_bind
      | |- ends (_ ≫= _) _ _ => apply ends_bind
      | |- ends (call _) _ _ => split; intros ?
      | |- ends (simulateProcessing _) _ _ => split; intros ?
      | |- Q _ => subst Q; cbn; done
      end ].
Qed.

(** ** The percentages a conversion reports *)

Lemma world_op_never_throws (w : World) (op : Op) (s : MemStorage) (e : string) :
  isWorldOp op = true → mayThrow op = false → (run_op w op s).1 ≠ Thrown e.
Proof. destruct op; try done. Qed.

Lemma run_reporting (w : World) (fileId : Z) {A : Type} (t : Task A)
    (Q E : list Z → Prop) :
  ∀ done s f,
    reporting fileId done t Q E →
    files s !! fileId = Some f →
    match (run w t s).1 with
    | Ok _ => Q (done ++ reports w t s)
    | Thrown _ => E (done ++ reports w t s)
    end.
Proof.
  induction t as [A a|A m|A op k IHk h IHh|A child _ k IHk]; intros done s f Ht Hf.
  - simpl. by rewrite app_nil_r.
  - simpl. by rewrite app_nil_r.
  - assert (Hworld : isWorldOp op = true →
              reporting fileId done (Await op k h) Q E →
              match (run w (Await op k h) s).1 with
              | Ok _ => Q (done ++ reports w (Await op k h) s)
              | Thrown _ => E (done ++ reports w (Await op k h) s)
              end).
    { intros Hop Hrep.
      assert (Hs := run_world_op w op s Hop). destruct Hs as [Hstore _].
      assert (Hnothrow := world_op_never_throws w op s).
      assert (Hparts : (∀ r, reporting fileId done (k r) Q E) ∧
                       (mayThrow op = true → ∀ e, reporting fileId done (h e) Q E)).
      { destruct op; try discriminate Hop; by destruct Hrep as (_ & ? & ?). }
      destruct Hparts as [Hk Hh].
      assert (Hnil : reports w (Await op k h) s
                     = match run_op w op s with
                       | (Ok r, s') => reports w (k r) s'
                       | (Thrown e, s') => reports w (h e) s'
                       end).
      { destruct op; try discriminate Hop; reflexivity. }
      rewrite Hnil. simpl run.
      destruct (run_op w op s) as [[r|e] s'] eqn:Hrun; simpl in Hstore; subst s'.
      - by eapply IHk.
      - destruct (mayThrow op) eqn:Hmay.
        + eapply IHh; [by apply Hh|done].
        + exfalso. by apply (Hnothrow e Hop eq_refl). }
    destruct op; try (by apply Hworld); try (by destruct Ht as [Hop _]).
    destruct Ht as (-> & p & -> & Hk).
    simpl run. simpl reports. simpl run_op.
    rewrite (updatePdfFile_present _ _ f s Hf). cbv beta iota.
    rewrite !(cons_middle p done), !app_assoc.
    eapply (IHk _ (done ++ [p])); [apply Hk|]. simpl. apply lookup_insert_eq.
  - destruct Ht.
Qed.

Lemma reporting_processFile (fileId : Z) (filePath originalName dir : string)
    (options : ConversionOptions) :
  reporting fileId []
    (processFile filePath originalName dir options (progressCallback fileId))
    (λ l, l = [10; 20; 40; 70; 90; 100])
    (λ l, l = [10; 20; 40; 70; 90]).
Proof.
  destruct options as [[] [] []]; unfold processFile, dirname.
  all: cbn -[path_join generatePdfaFilename pretty].
  all: repeat first
         [ reflexivity
         | discriminate
         | match goal with
           | |- _ ∧ _ => split
           | |- ∃ _, _ => eexists
           | |- ∀ _, _ => intros ?
           end ].
Qed.

Lemma setFile_id (id : Z) (f : PdfFile.t) (s : MemStorage) :
  files s !! id = Some f → setFile id f s = s.
Proof.
  intros Hf. destruct s as [js fs jc fc]. unfold setFile. simpl in *.
  f_equal. by apply insert_id.
Qed.

Lemma run_reporting_store (w : World) (fileId : Z) {A : Type} (t : Task A)
    (Q E : list Z → Prop) :
  ∀ done s f,
    reporting fileId done t Q E →
    files s !! fileId = Some f →
    (run w t s).2 = setFile fileId (reported f (reports w t s)) s.
Proof.
  induction t as [A a|A m|A op k IHk h IHh|A child _ k IHk]; intros done s f Ht Hf.
  - simpl. by rewrite setFile_id.
  - simpl. by rewrite setFile_id.
  - assert (Hworld : isWorldOp op = true →
              reporting fileId done (Await op k h) Q E →
              (run w (Await op k h) s).2
              = setFile fileId (reported f (reports w (Await op k h) s)) s).
    { intros Hop Hrep.
      assert (Hs := run_world_op w op s Hop). destruct Hs as [Hstore _].
      assert (Hnothrow := world_op_never_throws w op s).
      assert (Hparts : (∀ r, reporting fileId done (k r) Q E) ∧
                       (mayThrow op = true → ∀ e, reporting fileId done (h e) Q E)).
      { destruct op; try discriminate Hop; by destruct Hrep as (_ & ? & ?). }
      destruct Hparts as [Hk Hh].
      assert (Hnil : reports w (Await op k h) s
                     = match run_op w op s with
                       | (Ok r, s') => reports w (k r) s'
                       | (Thrown e, s') => reports w (h e) s'
                       end).
      { destruct op; try discriminate Hop; reflexivity. }
      rewrite Hnil. simpl run.
      destruct (run_op w op s) as [[r|e] s'] eqn:Hrun; simpl in Hstore; subst s'.
      - by eapply IHk.
      - destruct (mayThrow op) eqn:Hmay.
        + eapply IHh; [by apply Hh|done].
        + exfalso. by apply (Hnothrow e Hop eq_refl). }
    destruct op; try (by apply Hworld); try (by destruct Ht as [Hop _]).
    destruct Ht as (-> & p & -> & Hk).
    simpl run. simpl reports. simpl run_op.
    rewrite (updatePdfFile_present _ _ f s Hf). cbv beta iota.
    rewrite (IHk _ (done ++ [p]) _ (spreadFile f (progressUpdate p)));
      [|apply Hk|apply lookup_insert_eq].
    by rewrite setFile_setFile.
  - destruct Ht.
Qed.

(** X9. Whatever callback it is given and whatever the tools and the file
    system do, [processFile] either returns a result named after the
    original file ([generatePdfaFilename]), marked PDF/A and carrying the
    OCR option as it was asked, or it throws the one message "Falha ao
    processar o arquivo PDF", whatever the cause.  The path of the result is
    what [path.join] makes of the output directory and that name.  For an
    original name without a separator the file it names has the generated
    name; a name with one may lead out of the directory: for [../x.pdf]
    and the directory [tmp/converted] the path is [tmp/x_PDFA2u.pdf]. *)
Theorem processFile_outcome (w : World) (s : MemStorage)
    (filePath originalName dir : string) (options : ConversionOptions)
    (callback : Z → Task unit) :
  match (run w (processFile filePath originalName dir options callback) s).1 with
  | Ok r =>
      pr_convertedName r = generatePdfaFilename originalName ∧
      pr_outputPath r = path_join dir (generatePdfaFilename originalName) ∧
      ("/"%char ∉ String.list_ascii_of_string originalName →
       basename (pr_outputPath r) = generatePdfaFilename originalName) ∧
      pr_isPdfA r = true ∧
      pr_hasOcr r = applyOcr options
  | Thrown e => e = "Falha ao processar o arquivo PDF"
  end ∧
  path_join outputDir (generatePdfaFilename "../x.pdf") = "tmp/x_PDFA2u.pdf".
Proof.
  split; [|reflexivity].
  apply (run_ends w _ s
           (λ r, pr_convertedName r = generatePdfaFilename originalName ∧
                 pr_outputPath r = path_join dir (generatePdfaFilename originalName) ∧
                 ("/"%char ∉ String.list_ascii_of_string originalName →
                  basename (pr_outputPath r) = generatePdfaFilename originalName) ∧
                 pr_isPdfA r = true ∧
                 pr_hasOcr r = applyOcr options)
           (λ e, e = "Falha ao processar o arquivo PDF")).
  apply (ends_mono _
           (λ r, pr_convertedName r = generatePdfaFilename originalName ∧
                 pr_outputPath r = path_join dir (generatePdfaFilename originalName) ∧
                 pr_isPdfA r = true ∧
                 pr_hasOcr r = applyOcr options) _
           (λ e, e = "Falha ao processar o arquivo PDF")
           (λ e, e = "Falha ao processar o arquivo PDF"));
    [apply ends_processFile| |done].
  intros r (Hname & Hpath & Hpdfa & Hocr). repeat split; try done.
  intros Hplain. rewrite Hpath.
  by apply basename_path_join, generatePdfaFilename_plainName.
Qed.

Lemma processFile_outcome_witness :
  basename
    (path_join outputDir (generatePdfaFilename (PdfFile.originalName uploadedFile)))
  = "a_PDFA2u.pdf".
Proof.
  destruct (processFile_outcome fallbackWorld uploadedStore
              (default "" (PdfFile.storagePath uploadedFile))
              (PdfFile.originalName uploadedFile) outputDir defaultOptions
              (progressCallback (PdfFile.id uploadedFile))) as [Hrun _].
  destruct (run _ _ _).1 as [r|e] eqn:Hresult.
  - destruct Hrun as (_ & Hpath & Hbase & _). rewrite <- Hpath. apply Hbase.
    vm_compute. intros Hin. by repeat (apply elem_of_cons in Hin as [?|Hin]; [done|]);
      apply elem_of_nil in Hin.
  - reflexivity.
Defined.

(** X10. A conversion that succeeds has reported 10, 20, 40, 70, 90 and 100
    percent, in this order; one that fails has reported 10, 20, 40, 70 and
    90, and never 100.  The record of the file is then the record from
    before with these percentages written to it, one after the other. *)
Theorem processFile_progress_reports (w : World) (s : MemStorage) (fileId : Z)
    (f : PdfFile.t) (filePath originalName dir : string) (options : ConversionOptions) :
  files s !! fileId = Some f →
  let t := processFile filePath originalName dir options (progressCallback fileId) in
  reports w t s = match (run w t s).1 with
                  | Ok _ => [10; 20; 40; 70; 90; 100]
                  | Thrown _ => [10; 20; 40; 70; 90]
                  end ∧
  (run w t s).2 = setFile fileId (reported f (reports w t s)) s.
Proof.
  intros Hf t. split.
  - assert (H := run_reporting w fileId t _ _ [] s f
                   (reporting_processFile fileId filePath originalName dir options) Hf).
    by destruct ((run w t s).1).
  - apply (run_reporting_store w fileId t _ _ [] s f
             (reporting_processFile fileId filePath originalName dir options) Hf).
Qed.

Lemma processFile_progress_reports_witness :
  let t := processFile "tmp/uploads/0e1f-a.pdf" "a.pdf" outputDir defaultOptions
             (progressCallback 1) in
  files uploadedStore !! 1 = Some uploadedFile ∧
  reports fallbackWorld t uploadedStore = [10; 20; 40; 70; 90; 100] ∧
  reports brokenWorld t uploadedStore = [10; 20; 40; 70; 90].
Proof.
  intros t.
  assert (Hf : files uploadedStore !! 1 = Some uploadedFile) by reflexivity.
  split; [exact Hf|]. split.
  - destruct (processFile_progress_reports fallbackWorld uploadedStore 1 uploadedFile
                "tmp/uploads/0e1f-a.pdf" "a.pdf" outputDir defaultOptions Hf) as [H _].
    exact H.
  - destruct (processFile_progress_reports brokenWorld uploadedStore 1 uploadedFile
                "tmp/uploads/0e1f-a.pdf" "a.pdf" outputDir defaultOptions Hf) as [H _].
    exact H.
Defined.

(** ** One turn of the orchestrator *)

(** X12. One turn of the loop of [processJob], for a file whose record is in the
    store and whose job exists.  The turn never throws and changes the
    record of this file alone.  If the conversion succeeds the file is
    completed at 100 percent: its converted name is the name
    [generatePdfaFilename] makes of the original name, its storage path is
    that name in the output directory and its download URL is that name
    under [/files], which is where the output directory is served.  If the
    conversion fails the file is failed at 90 percent with the message of
    the converter, and keeps the name, path and URL it had.  Either way the
    id, the job, the original name and the original size stay. *)
Theorem processOne_record (w : World) (jobId : Z) (job : PdfJob.t)
    (file before : PdfFile.t) (s : MemStorage) :
  jobs s !! jobId = Some job →
  files s !! PdfFile.id file = Some before →
  "/"%char ∉ String.list_ascii_of_string (PdfFile.originalName file) →
  let name := generatePdfaFilename (PdfFile.originalName file) in
  ∃ after,
    run w (processOne jobId file) s = (Ok tt, setFile (PdfFile.id file) after s) ∧
    PdfFile.id after = PdfFile.id before ∧
    PdfFile.jobId after = PdfFile.jobId before ∧
    PdfFile.originalName after = PdfFile.originalName before ∧
    PdfFile.originalSize after = PdfFile.originalSize before ∧
    ((PdfFile.status after = completed ∧
      PdfFile.progress after = 100 ∧
      PdfFile.convertedName after = Some name ∧
      is_Some (PdfFile.convertedSize after) ∧
      PdfFile.storagePath after = Some (path_join outputDir name) ∧
      PdfFile.downloadUrl after = Some ("/files/" +:+ name) ∧
      PdfFile.isPdfA after = true ∧
      PdfFile.hasOcr after = applyOcr (PdfJob.options job) ∧
      PdfFile.error after = PdfFile.error before)
     ∨
     (PdfFile.status after = failed ∧
      PdfFile.progress after = 90 ∧
      PdfFile.error after = Some "Falha ao processar o arquivo PDF" ∧
      PdfFile.convertedName after = PdfFile.convertedName before ∧
      PdfFile.convertedSize after = PdfFile.convertedSize before ∧
      PdfFile.storagePath after = PdfFile.storagePath before ∧
      PdfFile.downloadUrl after = PdfFile.downloadUrl before ∧
      PdfFile.isPdfA after = PdfFile.isPdfA before ∧
      PdfFile.hasOcr after = PdfFile.hasOcr before)).
Proof.
  intros Hjob Hbefore Hname name. unfold processOne.
  rewrite run_seq, run_call. simpl run_op.
  rewrite (updatePdfFile_present _ _ before s Hbefore). cbv beta iota.
  set (f1 := spreadFile before (statusUpdate processing)).
  set (s1 := setFile (PdfFile.id file) f1 s).
  assert (Hf1 : files s1 !! PdfFile.id file = Some f1) by apply lookup_insert_eq.
  rewrite run_try_catch, run_bind, run_call. simpl run_op.
  unfold getPdfJob. change (jobs s1) with (jobs s). rewrite Hjob. cbv beta iota.
  rewrite run_bind.
  set (t := processFile (default "" (PdfFile.storagePath file))
              (PdfFile.originalName file) outputDir (PdfJob.options job)
              (progressCallback (PdfFile.id file))).
  assert (Hrep := reporting_processFile (PdfFile.id file)
                    (default "" (PdfFile.storagePath file))
                    (PdfFile.originalName file) outputDir (PdfJob.options job)).
  assert (Htrace := run_reporting w (PdfFile.id file) t _ _ [] s1 f1 Hrep Hf1).
  assert (Hstore := run_reporting_store w (PdfFile.id file) t _ _ [] s1 f1 Hrep Hf1).
  assert (Hends := run_ends w t s1 _ _
                     (ends_processFile (default "" (PdfFile.storagePath file))
                        (PdfFile.originalName file) outputDir (PdfJob.options job)
                        (progressCallback (PdfFile.id file)))).
  destruct (run w t s1) as [[result|e] s2] eqn:Hrun;
    cbn [fst snd app] in Htrace, Hstore, Hends; rewrite Htrace in Hstore;
    subst s2; cbv beta iota.
  - destruct Hends as (Hcn & Hop & Hpa & Hocr).
    rewrite run_seq, run_call. simpl run_op.
    erewrite updatePdfFile_present by apply lookup_insert_eq. cbv beta iota.
    subst s1. rewrite !setFile_setFile.
    eexists. split; [reflexivity|].
    destruct before. cbn. repeat (split; [reflexivity|]). left.
    rewrite Hcn, Hop, Hpa, Hocr.
    rewrite basename_path_join by (by apply generatePdfaFilename_plainName).
    repeat split; try reflexivity. by eexists.
  - subst e.
    rewrite run_seq, run_call. simpl run_op.
    erewrite updatePdfFile_present by apply lookup_insert_eq. cbv beta iota.
    subst s1. rewrite !setFile_setFile.
    eexists. split; [reflexivity|].
    destruct before. cbn. repeat (split; [reflexivity|]). right.
    repeat split; reflexivity.
Qed.

Lemma processOne_record_witness :
  ∃ after,
    run fallbackWorld (processOne 1 uploadedFile) uploadedStore
    = (Ok tt, setFile 1 after uploadedStore) ∧
    PdfFile.status after = completed ∧
    PdfFile.storagePath after = Some "tmp/converted/a_PDFA2u.pdf" ∧
    PdfFile.downloadUrl after = Some "/files/a_PDFA2u.pdf".
Proof.
  destruct (processOne_record fallbackWorld 1
              (PdfJob.mk 1 pending 1700000000000 None defaultOptions)
              uploadedFile uploadedFile uploadedStore)
    as (after & Hrun & _ & _ & _ & _ & Hcase).
  - reflexivity.
  - reflexivity.
  - apply (bool_decide_unpack _). vm_compute. exact I.
  - exists after. split; [exact Hrun|].
    destruct Hcase as [(Hst & _ & _ & _ & Hpath & Hurl & _)|(Hst & _)].
    + done.
    + exfalso. vm_compute in Hrun. injection Hrun as Hafter.
      rewrite <- Hafter in Hst. discriminate Hst.
Defined.

(** ** What the upload middleware lets through *)

Lemma uploadArray_cases (parts : list IncomingFile) :
  (Forall passes parts ∧ uploadArray parts = Ok (stored <$> parts)) ∨
  (¬ Forall passes parts ∧ ∃ message, uploadArray parts = Thrown message).
Proof.
  assert (Hone : ∀ part rest,
            (passes part ∧
             uploadArray (part :: rest)
             = match uploadArray rest with
               | Thrown message => Thrown message
               | Ok files => Ok (stored part :: files)
               end) ∨
            (¬ passes part ∧ ∃ m, uploadArray (part :: rest) = Thrown m)).
  { intros part rest. unfold passes. cbn [uploadArray].
    destruct (String.eqb_spec (in_fieldname part) "files") as [Hfield|Hfield];
      cbn [negb]; [|right; split; [by intros [? _]|by eexists]].
    unfold fileFilter, isPdfFile.
    destruct (String.eqb (in_mimetype part) "application/pdf");
      destruct (endsWith (toLowerCase (in_originalname part)) ".pdf"); simpl;
      try (right; split; [by intros (_ & ? & _)|by eexists]);
      (destruct (Z.leb_spec fileSizeLimit (in_size part));
       [right; split; [intros (_ & _ & ?); lia|by eexists]
       |left; repeat split; (done || lia)]). }
  induction parts as [|part rest IH]; [left; split; [constructor|done]|].
  destruct (Hone part rest) as [[Hp ->]|[Hp [m ->]]].
  - destruct IH as [[Hrest ->]|[Hrest [m ->]]].
    + left. split; [by constructor|done].
    + right. split; [|by eexists]. intros H. apply Hrest. by inversion H.
  - right. split; [|by eexists]. intros H. apply Hp. by inversion H.
Qed.

(** X4. The upload middleware hands the handler the whole request exactly when
    every part [passes]: it was sent under the field [files], it is a PDF by
    the test of the client ([isPdfFile]: the type is application/pdf or the
    name ends in .pdf) and it is smaller than 20 MB; a part of exactly
    20971520 bytes does not pass.  The files then arrive one per part, in
    the order of the parts, under [uploadDir].  In every other case the
    request ends with the error of the first part that does not pass:
    "Unexpected field" for a part under another field, the message of the
    filter for one that is not a PDF, "File too large" for one that reaches
    the limit. *)
Theorem uploadArray_accepts (parts : list IncomingFile) :
  (uploadArray parts = Ok (stored <$> parts) ↔ Forall passes parts) ∧
  ((∃ message, uploadArray parts = Thrown message) ↔ ¬ Forall passes parts) ∧
  (∀ before part after,
     parts = before ++ part :: after → Forall passes before → ¬ passes part →
     uploadArray parts
     = Thrown (if negb (String.eqb (in_fieldname part) "files")
               then "Unexpected field"
               else if negb (isPdfFile (in_mimetype part) (in_originalname part))
                    then "Apenas arquivos PDF são permitidos"
                    else "File too large")).
Proof.
  split; [|split].
  - destruct (uploadArray_cases parts) as [[Hyes Heq]|[Hno [m Heq]]]; rewrite Heq;
      by split.
  - destruct (uploadArray_cases parts) as [[Hyes Heq]|[Hno [m Heq]]]; rewrite Heq.
    + split; [|done]. intros [m' Hm']. discriminate.
    + split; [done|]. intros _. by exists m.
  - intros before part after -> Hbefore Hpart.
    induction Hbefore as [|first before Hfirst _ IH].
    + cbn [app uploadArray]. unfold passes in Hpart.
      destruct (String.eqb_spec (in_fieldname part) "files") as [Hfield|Hfield];
        cbn [negb]; [|done].
      unfold fileFilter, isPdfFile in *.
      destruct (String.eqb (in_mimetype part) "application/pdf");
        destruct (endsWith (toLowerCase (in_originalname part)) ".pdf");
        cbn [negb andb orb] in *; try done;
        (destruct (Z.leb_spec fileSizeLimit (in_size part)); [done|];
         destruct Hpart; by repeat split).
    + change ((first :: before) ++ part :: after)
        with (first :: (before ++ part :: after)).
      cbn [uploadArray]. rewrite IH. destruct Hfirst as (Hfield & Hpdf & Hsize).
      rewrite Hfield. cbn [String.eqb negb].
      change (String.eqb "files" "files") with true. cbn [negb].
      unfold fileFilter. unfold isPdfFile in Hpdf.
      destruct (String.eqb (in_mimetype first) "application/pdf");
        destruct (endsWith (toLowerCase (in_originalname first)) ".pdf");
        cbn [negb andb orb] in *; try done;
        by rewrite (proj2 (Z.leb_gt _ _)) by lia.
Qed.

Lemma uploadArray_accepts_witness :
  uploadArray [smallPdf; limitPdf] = Thrown "File too large".
Proof.
  apply (proj2 (proj2 (uploadArray_accepts [smallPdf; limitPdf])) [smallPdf] limitPdf []).
  - reflexivity.
  - constructor; [|constructor]. split; [reflexivity|split; reflexivity].
  - intros (_ & _ & Hsize). vm_compute in Hsize. discriminate.
Defined.

(** ** The routes that only read *)

(** X7. The status, results and download routes never change the store, and
    none of them ends in its [catch] block, whatever the request and the
    state of the store.  The status route and the results route answer
    200, 400 or 404.  The download route answers 400 or 404 itself, or
    hands a file to [res.download]: the file is then completed, the path
    is the stored path of its record and is not empty, and the name is its
    converted name, or its original name when it has none. *)
Theorem reading_routes_change_nothing (w : World) (s : MemStorage) (id : option Z) :
  (∃ response,
     run w (statusHandler id) s = (Ok response, s) ∧
     (statusCode response = 200 ∨ statusCode response = 400
      ∨ statusCode response = 404)) ∧
  (∃ response,
     run w (resultsHandler id) s = (Ok response, s) ∧
     (statusCode response = 200 ∨ statusCode response = 400
      ∨ statusCode response = 404)) ∧
  (∃ served,
     run w (downloadHandler id) s = (Ok served, s) ∧
     match served with
     | Answered response => statusCode response = 400 ∨ statusCode response = 404
     | Download path filename =>
         ∃ fileId file,
           id = Some fileId ∧ files s !! fileId = Some file ∧
           PdfFile.status file = completed ∧
           PdfFile.storagePath file = Some path ∧ path ≠ "" ∧
           filename = orString (PdfFile.convertedName file) (PdfFile.originalName file)
     end).
Proof.
  split; [|split].
  - unfold statusHandler. rewrite run_try_catch.
    destruct id as [jobId|]; [|simpl; eauto 6].
    rewrite run_bind, run_call. simpl run_op. cbv beta iota.
    destruct (getPdfJob jobId s) as [job|]; simpl; eauto 6.
  - unfold resultsHandler. rewrite run_try_catch.
    destruct id as [jobId|]; [|simpl; eauto 6].
    rewrite run_bind, run_call. simpl run_op. cbv beta iota.
    destruct (getPdfJob jobId s) as [job|]; [|simpl; eauto 6].
    destruct (bool_decide (PdfJob.status job ≠ completed)); simpl; eauto 6.
  - unfold downloadHandler. rewrite run_try_catch.
    destruct id as [fileId|];
      [|simpl; eexists; split; [reflexivity|]; simpl; auto].
    rewrite run_bind, run_call. simpl run_op. cbv beta iota. unfold getPdfFile.
    destruct (files s !! fileId) as [file|] eqn:Hfile;
      [|simpl; eexists; split; [reflexivity|]; simpl; auto].
    destruct (PdfFile.status file) eqn:Hstatus,
             (PdfFile.storagePath file) as [p|] eqn:Hpath;
      try (simpl; eexists; split; [reflexivity|]; simpl; by auto).
    destruct (String.eqb_spec p "") as [->|Hp];
      [simpl; eexists; split; [reflexivity|]; simpl; by auto|].
    simpl. eexists. split; [reflexivity|]. by exists fileId, file.
Qed.

(** X8. The status route answers 404 for a job that is not in the store and 200
    for one that is, with the status of the job and the list of its files:
    one entry for each file of the job and no other, in the order of the
    keys under which the files are stored, which is the order in which
    they were created.  An entry shows the id, original name, status,
    stored progress and error of its file. *)
Theorem status_route (w : World) (s : MemStorage) (jobId : Z) :
  match jobs s !! jobId with
  | None =>
      (run w (statusHandler (Some jobId)) s).1
      = Ok {| statusCode := 404; body := ErrorBody "Trabalho não encontrado" |}
  | Some job =>
      ∃ (keys : list Z) (listing : list PdfFile.t),
        (run w (statusHandler (Some jobId)) s).1
        = Ok {| statusCode := 200;
                body := StatusBody (PdfJob.id job) (PdfJob.status job)
                          ((λ file,
                              {| StatusEntry.fileId := PdfFile.id file;
                                 StatusEntry.name := PdfFile.originalName file;
                                 StatusEntry.status := PdfFile.status file;
                                 StatusEntry.percentage := PdfFile.progress file;
                                 StatusEntry.error := PdfFile.error file |})
                             <$> listing) |} ∧
        StronglySorted Z.lt keys ∧
        (∀ k, k ∈ keys ↔
              ∃ file, files s !! k = Some file ∧ PdfFile.jobId file = jobId) ∧
        Forall2 (λ k file, files s !! k = Some file) keys listing
  end.
Proof.
  unfold statusHandler. rewrite run_try_catch, run_bind, run_call.
  simpl run_op. cbv beta iota. unfold getPdfJob.
  destruct (jobs s !! jobId) as [job|]; [|reflexivity].
  rewrite run_bind, run_call. simpl run_op. cbv beta iota.
  cbn -[orNumber getPdfFilesByJobId].
  destruct (getPdfFilesByJobId_listing jobId s) as (keys & Hsorted & Hkeys & Hall).
  exists keys, (getPdfFilesByJobId jobId s).
  split; [|done]. do 3 f_equal.
  apply list_fmap_ext. intros i file _. by rewrite orNumber_progress.
Qed.

(** ** An upload that is accepted *)

Lemma started_bind {A B : Type} (w : World) (t : Task A) (f : A → Task B)
    (s : MemStorage) :
  started w (bind t f) s =
  started w t s ++ match run w t s with
                   | (Ok a, s') => started w (f a) s'
                   | (Thrown _, _) => []
                   end.
Proof.
  revert s. induction t as [A a|A m|A op k IHk h IHh|A child _ k IHk]; intros s; simpl.
  - reflexivity.
  - reflexivity.
  - destruct (run_op w op s) as [[r|e] s']; [apply IHk|apply IHh].
  - f_equal. apply IHk.
Qed.

Lemma started_try_catch {A : Type} (w : World) (t : Task A) (handler : string → Task A)
    (s : MemStorage) :
  started w (try_catch t handler) s =
  started w t s ++ match run w t s with
                   | (Ok _, _) => []
                   | (Thrown e, s') => started w (handler e) s'
                   end.
Proof.
  revert s. induction t as [A a|A m|A op k IHk h IHh|A child _ k IHk]; intros s; simpl.
  - reflexivity.
  - reflexivity.
  - destruct (run_op w op s) as [[r|e] s']; [apply IHk|apply IHh].
  - f_equal. apply IHk.
Qed.

(** The loop that registers the files: the records it collects and the
    store it leaves. *)
Lemma run_createFiles (w : World) (jobId : Z) (parts : list IncomingFile)
    (jobFiles : list PdfFile.t) (s : MemStorage) :
  ∃ s',
    run w (createFiles jobId (stored <$> parts) jobFiles) s
    = (Ok (jobFiles ++ imap (uploadedRecord jobId (fileCurrentId s)) parts), s') ∧
    started w (createFiles jobId (stored <$> parts) jobFiles) s = [] ∧
    jobs s' = jobs s ∧
    jobCurrentId s' = jobCurrentId s ∧
    fileCurrentId s' = fileCurrentId s + Z.of_nat (length parts) ∧
    (∀ k, k < fileCurrentId s → files s' !! k = files s !! k) ∧
    (∀ (i : nat) part, parts !! i = Some part →
       files s' !! (fileCurrentId s + Z.of_nat i)
       = Some (uploadedRecord jobId (fileCurrentId s) i part)).
Proof.
  revert jobFiles s. induction parts as [|part rest IH]; intros jobFiles s.
  - exists s. simpl. rewrite app_nil_r. repeat split; try done. lia.
  - rewrite fmap_cons. cbn [createFiles].
    rewrite run_bind, started_bind, run_call.
    change (run_op w (StCreatePdfFile (insertFile jobId (stored part))) s)
      with (Ok (createPdfFile (insertFile jobId (stored part)) s).1,
            (createPdfFile (insertFile jobId (stored part)) s).2).
    cbv beta iota.
    set (s1 := (createPdfFile (insertFile jobId (stored part)) s).2).
    set (f := (createPdfFile (insertFile jobId (stored part)) s).1).
    change (started w (call (StCreatePdfFile (insertFile jobId (stored part)))) s)
      with (@nil (Task unit)).
    rewrite app_nil_l.
    destruct (IH (jobFiles ++ [f]) s1) as (s' & Hrun & Hst & Hjobs & Hjc & Hfc & Hold & Hnew).
    exists s'. cbn [Ret]. rewrite Hrun, Hst.
    assert (Hnext : fileCurrentId s1 = fileCurrentId s + 1) by reflexivity.
    assert (Hf : f = uploadedRecord jobId (fileCurrentId s) 0 part).
    { unfold f, uploadedRecord. simpl. by rewrite Z.add_0_r. }
    split; [|split; [|split; [|split; [|split; [|split]]]]].
    + rewrite <- app_assoc. do 3 f_equal.
      rewrite imap_cons, <- Hf. cbn [app]. f_equal.
      apply imap_ext. intros i x _. unfold uploadedRecord. cbn [compose].
      rewrite Hnext. f_equal. lia.
    + reflexivity.
    + by rewrite Hjobs.
    + by rewrite Hjc.
    + rewrite Hfc, Hnext. simpl. lia.
    + intros k Hk. rewrite Hold by (rewrite Hnext; lia).
      simpl. apply lookup_insert_ne. lia.
    + intros [|i] x Hx; simpl in Hx.
      * injection Hx as <-. rewrite Hold by (rewrite Hnext; simpl; lia).
        simpl. rewrite Z.add_0_r, lookup_insert_eq. f_equal. by rewrite <- Hf.
      * specialize (Hnew i x Hx). rewrite Hnext in Hnew.
        replace (fileCurrentId s + Z.of_nat (S i)) with (fileCurrentId s + 1 + Z.of_nat i) by lia.
        rewrite Hnew. f_equal. unfold uploadedRecord. f_equal. lia.
Qed.

(** X6. An upload whose parts all pass the middleware (each sent under the
    field [files], a PDF, smaller than 20971520 bytes) and whose options
    parse is answered 200 with the id of a new job.  By then the store holds that
    job, with the parsed options and no completion date, and one pending
    file per part, in the order of the parts and under consecutive new ids,
    each with the name and size of its part, the path under which the
    middleware stored it and no progress; no other record has changed.  The
    handler has started [processJob] on exactly these files, without
    waiting for it. *)
Theorem upload_accepted (w : World) (s : MemStorage) (parts : list IncomingFile)
    (optionsRaw : OptionsRaw) (options : ConversionOptions) :
  parts ≠ [] →
  Forall passes parts →
  parseOptions optionsRaw = Some options →
  let jobId := jobCurrentId s in
  let jobFiles := imap (uploadedRecord jobId (fileCurrentId s)) parts in
  ∃ s',
    run w (postUpload (Some parts) optionsRaw) s
    = (Ok (Responded
             {| statusCode := 200;
                body := UploadBody jobId
                          "Arquivos enviados com sucesso. Processamento iniciado." |}),
       s') ∧
    started w (postUpload (Some parts) optionsRaw) s = [processJob jobId jobFiles] ∧
    (∃ job, jobs s' !! jobId = Some job ∧
            PdfJob.id job = jobId ∧
            PdfJob.options job = options ∧
            PdfJob.createdAt job = now w ∧
            PdfJob.completedAt job = None) ∧
    (∀ k, k ≠ jobId → jobs s' !! k = jobs s !! k) ∧
    (∀ (i : nat) part, parts !! i = Some part →
       files s' !! (fileCurrentId s + Z.of_nat i)
       = Some (uploadedRecord jobId (fileCurrentId s) i part)) ∧
    (∀ k, k < fileCurrentId s → files s' !! k = files s !! k) ∧
    jobCurrentId s' = jobId + 1 ∧
    fileCurrentId s' = fileCurrentId s + Z.of_nat (length parts).
Proof.
  intros Hsome Hpass Hparse jobId jobFiles.
  destruct (uploadArray_cases parts) as [[_ Harray]|[Hno _]]; [|done].
  unfold postUpload. rewrite Harray.
  rewrite run_bind, started_bind.
  unfold uploadHandler. rewrite run_try_catch, started_try_catch.
  destruct parts as [|part rest]; [done|].
  rewrite fmap_cons. cbv beta iota. rewrite <- fmap_cons. rewrite Hparse.
  rewrite run_bind, started_bind, run_call.
  set (insert := {| InsertPdfJob.status := pending; InsertPdfJob.options := options |}).
  change (run_op w (StCreatePdfJob insert) s)
    with (Ok (createPdfJob (now w) insert s).1, (createPdfJob (now w) insert s).2).
  change (started w (call (StCreatePdfJob insert)) s) with (@nil (Task unit)).
  cbv beta iota.
  set (s1 := (createPdfJob (now w) insert s).2).
  change (PdfJob.id (createPdfJob (now w) insert s).1) with jobId.
  rewrite run_bind, started_bind.
  destruct (run_createFiles w jobId (part :: rest) [] s1)
    as (s' & Hrun & Hst & Hjobs & Hjc & Hfc & Hold & Hnew).
  cbn [Ret] in *. rewrite Hrun, Hst. cbv beta iota.
  change (fileCurrentId s1) with (fileCurrentId s) in *.
  exists s'. simpl run. simpl started. rewrite !app_nil_r. simpl app.
  split; [reflexivity|]. split; [reflexivity|].
  split; [|split; [|split; [|split; [|split]]]].
  - eexists. split; [rewrite Hjobs; apply lookup_insert_eq|]. done.
  - intros k Hk. rewrite Hjobs. simpl. by apply lookup_insert_ne.
  - exact Hnew.
  - exact Hold.
  - by rewrite Hjc.
  - exact Hfc.
Qed.

Lemma upload_accepted_witness :
  run fallbackWorld (postUpload (Some [smallPdf]) emptyOptions) newMemStorage
  = (Ok (Responded
           {| statusCode := 200;
              body := UploadBody 1
                        "Arquivos enviados com sucesso. Processamento iniciado." |}),
     uploadedStore) ∧
  started fallbackWorld (postUpload (Some [smallPdf]) emptyOptions) newMemStorage
  = [processJob 1 [uploadedFile]].
Proof.
  destruct (upload_accepted fallbackWorld newMemStorage [smallPdf] emptyOptions
              defaultOptions) as (s' & Hrun & Hstarted & _).
  - discriminate.
  - constructor; [|constructor]. split; [reflexivity|split; reflexivity].
  - reflexivity.
  - split; [|exact Hstarted].
    rewrite Hrun. f_equal. vm_compute in Hrun. by injection Hrun as <-.
Defined.

(** ** From the upload to the download *)

Lemma uploadedRecords_lookup (jobId next : Z) (parts : list IncomingFile)
    (file : PdfFile.t) :
  file ∈ imap (uploadedRecord jobId next) parts ↔
  ∃ (i : nat) part, parts !! i = Some part ∧ file = uploadedRecord jobId next i part.
Proof.
  rewrite list_elem_of_lookup. split.
  - intros [i Hi]. rewrite list_lookup_imap in Hi.
    destruct (parts !! i) as [part|] eqn:Hpart; [|done].
    injection Hi as <-. by exists i, part.
  - intros (i & part & Hpart & ->). exists i.
    by rewrite list_lookup_imap, Hpart.
Qed.

Lemma uploadedRecords_NoDup (jobId next : Z) (parts : list IncomingFile) :
  NoDup (PdfFile.id <$> imap (uploadedRecord jobId next) parts).
Proof.
  apply NoDup_alt. intros i j x Hi Hj.
  rewrite list_lookup_fmap, list_lookup_imap in Hi, Hj.
  destruct (parts !! i); [|done]. destruct (parts !! j); [|done].
  simpl in Hi, Hj. injection Hi as <-. injection Hj as Hj. lia.
Qed.

Lemma generatePdfaFilename_nonempty (name : string) :
  String.eqb (generatePdfaFilename name) "" = false.
Proof.
  apply String.eqb_neq. intros Hempty.
  apply (f_equal String.length) in Hempty.
  unfold generatePdfaFilename in Hempty. rewrite length_app_string in Hempty.
  simpl in Hempty. lia.
Qed.

Lemma sorted_offsets (next : Z) (start n : nat) :
  StronglySorted Z.lt ((λ i : nat, next + Z.of_nat i) <$> seq start n).
Proof.
  revert start. induction n as [|n IH]; intros start; [constructor|].
  cbn [seq]. rewrite fmap_cons. constructor; [apply IH|].
  apply Forall_forall. intros k Hk.
  apply list_elem_of_fmap in Hk as (i & -> & Hi). apply elem_of_seq in Hi. lia.
Qed.

Lemma listing_fmap_unique {B : Type} (s : MemStorage) (h : PdfFile.t → B)
    (keys : list Z) (l : list PdfFile.t) (shown : list B) :
  Forall2 (λ k file, files s !! k = Some file) keys l →
  Forall2 (λ k b, ∃ file, files s !! k = Some file ∧ h file = b) keys shown →
  h <$> l = shown.
Proof.
  intros Hl. revert shown. induction Hl as [|k f keys l Hk Hl IH]; intros shown Hshown.
  - by inversion Hshown.
  - inversion Hshown as [|k' b keys' shown' (f' & Hk' & <-) Hrest]; subst.
    rewrite Hk in Hk'. injection Hk' as <-. rewrite fmap_cons. f_equal. by apply IH.
Qed.

(** X14. The orchestrator run to its end on the files of an upload, and the
    results and download routes after it.  The results route answers 200
    with one entry for each file of the upload, in the order of the
    upload.  A file whose conversion succeeded is listed under its
    converted name, with the URL of that name under [/files], as PDF/A and
    with the OCR option of the job, and the download route hands it to
    [res.download] from the output directory under the converted name.  A
    file whose conversion failed is listed all the same, under its original
    name and size, with an empty URL and neither flag, and the download
    route answers 400 for it. *)
Theorem converted_files_are_listed (w : World) (s : MemStorage) (jobId next : Z)
    (job : PdfJob.t) (parts : list IncomingFile) :
  jobs s !! jobId = Some job →
  (∀ (i : nat) part, parts !! i = Some part →
     files s !! (next + Z.of_nat i) = Some (uploadedRecord jobId next i part)) →
  (∀ k f, files s !! k = Some f → PdfFile.jobId f = jobId →
     ∃ i : nat, is_Some (parts !! i) ∧ k = next + Z.of_nat i) →
  (∀ part, part ∈ parts →
     "/"%char ∉ String.list_ascii_of_string (in_originalname part)) →
  let jobFiles := imap (uploadedRecord jobId next) parts in
  let s' := (run w (processJob jobId jobFiles) s).2 in
  let converted (i : nat) (part : IncomingFile) :=
    conversion w (PdfJob.options job) (uploadedRecord jobId next i part) s in
  let name (part : IncomingFile) := generatePdfaFilename (in_originalname part) in
  (run w (resultsHandler (Some jobId)) s').1
  = Ok {| statusCode := 200;
          body := ResultsBody (PdfJob.id job) completed
                    (imap (λ i part,
                             match converted i part with
                             | Ok result =>
                                 {| ResultEntry.id := next + Z.of_nat i;
                                    ResultEntry.name := name part;
                                    ResultEntry.size :=
                                      orNumber (Some (pr_convertedSize result))
                                        (in_size part);
                                    ResultEntry.url := "/files/" +:+ name part;
                                    ResultEntry.hasPdfA := true;
                                    ResultEntry.hasOcr := applyOcr (PdfJob.options job) |}
                             | Thrown _ =>
                                 {| ResultEntry.id := next + Z.of_nat i;
                                    ResultEntry.name := in_originalname part;
                                    ResultEntry.size := in_size part;
                                    ResultEntry.url := "";
                                    ResultEntry.hasPdfA := false;
                                    ResultEntry.hasOcr := false |}
                             end) parts) |} ∧
  ∀ (i : nat) part, parts !! i = Some part →
    (run w (downloadHandler (Some (next + Z.of_nat i))) s').1
    = Ok match converted i part with
         | Ok _ => Download (path_join outputDir (name part)) (name part)
         | Thrown _ =>
             Answered {| statusCode := 400;
                         body := ErrorBody "Arquivo não está disponível para download" |}
         end.
Proof.
  intros Hjob Hfiles Hothers Hnames jobFiles s' converted name.
  assert (Hnodup := uploadedRecords_NoDup jobId next parts). fold jobFiles in Hnodup.
  assert (Hstored : ∀ file, file ∈ jobFiles → files s !! PdfFile.id file = Some file).
  { intros file Hfile. apply uploadedRecords_lookup in Hfile as (i & part & Hpart & ->).
    by apply Hfiles. }
  destruct (run_processJob w jobId job jobFiles s Hnodup Hjob)
    as (s1 & Hjobs & Hout & Hin & Hrun).
  { intros file Hfile. rewrite (Hstored file Hfile). by eexists. }
  (* the record of each file after the run *)
  assert (Hafter : ∀ (i : nat) part, parts !! i = Some part →
            let file := uploadedRecord jobId next i part in
            match converted i part with
            | Ok result =>
                files s1 !! (next + Z.of_nat i)
                = Some (spreadFile file (completedUpdate result)) ∧
                pr_convertedName result = name part ∧
                pr_outputPath result = path_join outputDir (name part) ∧
                pr_isPdfA result = true ∧
                pr_hasOcr result = applyOcr (PdfJob.options job)
            | Thrown e =>
                ∃ p, files s1 !! (next + Z.of_nat i)
                     = Some (spreadFile (spreadFile file (progressUpdate p))
                               (failedUpdate e))
            end).
  { intros i part Hpart file. subst converted name. cbv beta.
    assert (Hfile : file ∈ jobFiles).
    { apply uploadedRecords_lookup. by exists i, part. }
    destruct (Hin file file Hfile (Hstored file Hfile)) as (after & Hlookup & Hrec).
    unfold recorded in Hrec.
    assert (Hends := run_ends w _ s _ _
                       (ends_processFile (default "" (PdfFile.storagePath file))
                          (PdfFile.originalName file) outputDir (PdfJob.options job)
                          (progressCallback (PdfFile.id file)))).
    fold (conversion w (PdfJob.options job) file s) in Hends.
    fold file.
    destruct (conversion w (PdfJob.options job) file s) as [result|e].
    - subst after. split; [exact Hlookup|]. exact Hends.
    - destruct Hrec as [p ->]. by exists p. }
  (* the files of the job are those of the upload, and every one is terminal *)
  assert (Hmine : ∀ k f, files s1 !! k = Some f → PdfFile.jobId f = jobId →
            ∃ (i : nat) part, parts !! i = Some part ∧ k = next + Z.of_nat i).
  { intros k f Hk Hfjob.
    destruct (decide (k ∈ PdfFile.id <$> jobFiles)) as [Hk_in|Hk_out].
    - apply list_elem_of_fmap in Hk_in as (file & -> & Hfile).
      apply uploadedRecords_lookup in Hfile as (i & part & Hpart & ->). by exists i, part.
    - rewrite Hout in Hk by done.
      destruct (Hothers k f Hk Hfjob) as (i & [part Hpart] & ->). by exists i, part. }
  assert (Hcheck : forallb (λ file, isTerminal (PdfFile.status file))
                     (getPdfFilesByJobId jobId s1) = true).
  { apply Is_true_true, forallb_True, Forall_forall. intros f Hf.
    apply elem_of_getPdfFilesByJobId in Hf as [Hfjob [k Hk]].
    destruct (Hmine k f Hk Hfjob) as (i & part & Hpart & ->).
    specialize (Hafter i part Hpart). cbv zeta in Hafter.
    destruct (converted i part).
    - destruct Hafter as [Hlookup _]. rewrite Hlookup in Hk. by injection Hk as <-.
    - destruct Hafter as [p Hlookup]. rewrite Hlookup in Hk. by injection Hk as <-. }
  rewrite Hcheck in Hrun.
  assert (Hs' : s' = setJob jobId
                       (spreadJob (spreadJob job (jobStatusUpdate processing))
                          (jobCompletedUpdate (now w))) s1).
  { unfold s'. by rewrite Hrun. }
  clearbody s'. subst s'. split.
  - unfold resultsHandler. rewrite run_try_catch, run_bind, run_call.
    simpl run_op. unfold getPdfJob. cbn [jobs setJob].
    rewrite lookup_insert_eq. cbv beta iota.
    rewrite (bool_decide_false (completed ≠ completed)) by (intros H; by apply H).
    cbn -[getPdfFilesByJobId orNumber]. do 3 f_equal.
    change (getPdfFilesByJobId jobId (setJob jobId _ s1))
      with (getPdfFilesByJobId jobId s1).
    destruct (getPdfFilesByJobId_listing jobId s1) as (keys & Hsorted & Hkeys & Hall).
    assert (Heq : keys = (λ i : nat, next + Z.of_nat i) <$> seq 0 (length parts)).
    { apply sorted_keys_unique; [done|apply sorted_offsets|].
      intros k. rewrite Hkeys, list_elem_of_fmap. split.
      - intros (f & Hk & Hfjob). destruct (Hmine k f Hk Hfjob) as (i & part & Hpart & ->).
        exists i. split; [done|]. apply elem_of_seq.
        apply lookup_lt_Some in Hpart. lia.
      - intros (i & -> & Hi). apply elem_of_seq in Hi.
        destruct (lookup_lt_is_Some_2 parts i) as [part Hpart]; [lia|].
        specialize (Hafter i part Hpart). cbv zeta in Hafter.
        destruct (converted i part).
        + destruct Hafter as [Hlookup _]. eexists. split; [exact Hlookup|done].
        + destruct Hafter as [p Hlookup]. eexists. split; [exact Hlookup|done]. }
    subst keys. apply (listing_fmap_unique s1 resultEntry _ _ _ Hall).
    apply Forall2_same_length_lookup_2.
    { by rewrite length_fmap, length_seq, length_imap. }
    intros i k shown Hk Hshown.
    rewrite list_lookup_fmap in Hk.
    destruct (seq 0 (length parts) !! i) as [j|] eqn:Hj; [|done].
    apply lookup_seq in Hj as [-> _]. injection Hk as <-. cbn [Nat.add] in *.
    rewrite list_lookup_imap in Hshown.
    destruct (parts !! i) as [part|] eqn:Hpart; [|done]. injection Hshown as <-.
    specialize (Hafter i part Hpart). cbv zeta in Hafter.
    specialize (Hnames part (list_elem_of_lookup_2 _ _ _ Hpart)).
    destruct (converted i part) as [result|e].
    + destruct Hafter as (Hlookup & Hcn & Hop & Hpa & Hocr).
      eexists. split; [exact Hlookup|].
      unfold resultEntry. cbn -[orNumber orString].
      rewrite Hcn, Hop, Hpa, Hocr.
      rewrite basename_path_join by (by apply generatePdfaFilename_plainName).
      fold (name part). unfold orString.
      assert (Hne : String.eqb (name part) "" = false)
        by apply generatePdfaFilename_nonempty.
      rewrite Hne.
      change (String.eqb ("/files/" +:+ name part) "") with false.
      reflexivity.
    + destruct Hafter as [p Hlookup]. eexists. split; [exact Hlookup|]. reflexivity.
  - intros i part Hpart.
    specialize (Hafter i part Hpart). cbv zeta in Hafter.
    unfold downloadHandler. rewrite run_try_catch, run_bind, run_call.
    simpl run_op. unfold getPdfFile. cbn [files setJob].
    destruct (converted i part) as [result|e].
    + destruct Hafter as (Hlookup & Hcn & Hop & Hpa & Hocr).
      rewrite Hlookup. cbv beta iota. cbn -[path_join generatePdfaFilename orString].
      rewrite Hcn, Hop, path_join_nonempty. unfold orString.
      assert (Hne : String.eqb (name part) "" = false)
        by apply generatePdfaFilename_nonempty.
      fold (name part). by rewrite Hne.
    + destruct Hafter as [p Hlookup]. by rewrite Hlookup.
Qed.

Lemma converted_files_are_listed_witness :
  let s' := (run fallbackWorld (processJob 1 [uploadedFile]) uploadedStore).2 in
  (run fallbackWorld (resultsHandler (Some 1)) s').1
  = Ok {| statusCode := 200;
          body := ResultsBody 1 completed
                    [{| ResultEntry.id := 1; ResultEntry.name := "a_PDFA2u.pdf";
                        ResultEntry.size := 2048;
                        ResultEntry.url := "/files/a_PDFA2u.pdf";
                        ResultEntry.hasPdfA := true; ResultEntry.hasOcr := true |}] |} ∧
  (run fallbackWorld (downloadHandler (Some 1)) s').1
  = Ok (Download "tmp/converted/a_PDFA2u.pdf" "a_PDFA2u.pdf").
Proof.
  intros s'.
  destruct (converted_files_are_listed fallbackWorld uploadedStore 1 1
              (PdfJob.mk 1 pending 1700000000000 None defaultOptions) [smallPdf])
    as (Hresults & Hfiles).
  - reflexivity.
  - intros [|i] part Hpart; [|done]. injection Hpart as <-. reflexivity.
  - intros k f Hk _. exists 0%nat. split; [by eexists|].
    unfold uploadedStore in Hk. simpl in Hk.
    apply lookup_insert_Some in Hk as [[<- _]|[_ Hk]]; [done|].
    by rewrite lookup_empty in Hk.
  - intros part Hpart. apply list_elem_of_singleton in Hpart as ->.
    apply (bool_decide_unpack _). vm_compute. exact I.
  - split; [exact Hresults|exact (Hfiles 0%nat smallPdf eq_refl)].
Defined.

(** ** Records that stay in place *)

Lemma tidy_mono {A : Type} (t : Task A) (known : gset Z)
    (Q Q' : A → gset Z → Prop) :
  tidy t known Q → (∀ a k, Q a k → Q' a k) → tidy t known Q'.
Proof.
  revert known.
  induction t as [A a|A m|A op k IHk h IHh|A child _ k IHk]; intros known Ht HQ; simpl in *.
  - by apply HQ.
  - done.
  - destruct Ht as (Hop & Hk & Hh). split; [done|]. split.
    + intros r. by eapply IHk.
    + intros e. by eapply IHh.
  - destruct Ht as [Hchild Hk]. split; [done|]. by eapply IHk.
Qed.

Lemma tidy_bind {A B : Type} (t : Task A) (f : A → Task B) (known : gset Z)
    (Q : B → gset Z → Prop) :
  tidy t known (λ a known', tidy (f a) known' Q) → tidy (bind t f) known Q.
Proof.
  revert known.
  induction t as [A a|A m|A op k IHk h IHh|A child _ k IHk]; intros known Ht; simpl in *.
  - done.
  - done.
  - destruct Ht as (Hop & Hk & Hh). split; [done|]. split.
    + intros r. by apply IHk.
    + intros e. by apply IHh.
  - destruct Ht as [Hchild Hk]. split; [done|]. by apply IHk.
Qed.

Lemma plain_tidy {A : Type} (t : Task A) (known : gset Z) (Q : A → gset Z → Prop) :
  plain t → (∀ a, Q a known) → tidy t known Q.
Proof.
  intros Ht HQ.
  induction t as [A a|A m|A op k IHk h IHh|A child _ k IHk]; simpl in *.
  - apply HQ.
  - done.
  - destruct Ht as (Hop & Hk & Hh).
    assert (Hknown : ∀ r, known_after op known r = known).
    { intros r. by destruct op. }
    split; [|split].
    + destruct op; try done; simpl in *.
      * destruct (PartialPdfJob.id updates), (PartialPdfJob.createdAt updates),
          (PartialPdfJob.options updates); done.
      * destruct (PartialPdfFile.id updates), (PartialPdfFile.jobId updates),
          (PartialPdfFile.originalName updates),
          (PartialPdfFile.originalSize updates); done.
    + intros r. rewrite Hknown. by apply IHk.
    + intros e. by apply IHh.
  - done.
Qed.

Lemma plain_bind {A B : Type} (t : Task A) (f : A → Task B) :
  plain t → (∀ a, plain (f a)) → plain (bind t f).
Proof.
  intros Ht Hf.
  induction t as [A a|A m|A op k IHk h IHh|A child _ k IHk]; simpl in *.
  - apply Hf.
  - done.
  - destruct Ht as (Hop & Hk & Hh). split; [done|]. split.
    + intros r. by apply IHk.
    + intros e. by apply IHh.
  - done.
Qed.

Lemma plain_try_catch {A : Type} (t : Task A) (handler : string → Task A) :
  plain t → (∀ e, plain (handler e)) → plain (try_catch t handler).
Proof.
  intros Ht Hh'.
  induction t as [A a|A m|A op k IHk h IHh|A child _ k IHk]; simpl in *.
  - done.
  - apply Hh'.
  - destruct Ht as (Hop & Hk & Hh). split; [done|]. split.
    + intros r. by apply IHk.
    + intros e. by apply IHh.
  - done.
Qed.

Lemma plain_forEach {X : Type} (l : list X) (body : X → Task unit) :
  (∀ x, plain (body x)) → plain (forEach l body).
Proof.
  intros Hbody. induction l as [|x rest IH]; [done|].
  rewrite forEach_cons. by apply plain_bind.
Qed.

Lemma plain_call (op : Op) : op_plain op = true → plain (call op).
Proof. intros Hop. simpl. done. Qed.

Ltac plain_tac :=
  repeat first
    [ match goal with
      | |- plain (Return _) => exact I
      | |- plain (Throw _) => exact I
      | |- plain (if ?c then _ else _) => destruct c
      | |- plain (match ?c with _ => _ end) => destruct c
      | |- plain (call _) => apply plain_call; reflexivity
      | |- plain (simulateProcessing _) => apply plain_call; reflexivity
      | |- plain (progressCallback _ _) => unfold progressCallback
      | |- plain (try_catch _ _) => apply plain_try_catch
      | |- plain (forEach _ _) => apply plain_forEach
      | |- plain (bind _ _) => apply plain_bind
      | |- plain (_ ≫= _) => apply plain_bind
      end
    | intros ? ].

Lemma plain_processFile (fileId : Z) (filePath originalName dir : string)
    (options : ConversionOptions) :
  plain (processFile filePath originalName dir options (progressCallback fileId)).
Proof. unfold processFile, dirname. plain_tac. Qed.

Lemma plain_processJob (jobId : Z) (l : list PdfFile.t) : plain (processJob jobId l).
Proof.
  unfold processJob, processOne. plain_tac; try apply plain_processFile.
Qed.

Lemma plain_statusHandler (jobId : option Z) : plain (statusHandler jobId).
Proof. unfold statusHandler. plain_tac. Qed.

Lemma plain_resultsHandler (jobId : option Z) : plain (resultsHandler jobId).
Proof. unfold resultsHandler. plain_tac. Qed.

Lemma plain_downloadHandler (fileId : option Z) : plain (downloadHandler fileId).
Proof. unfold downloadHandler. plain_tac. Qed.

Lemma plain_cancelHandler (jobId : option Z) : plain (cancelHandler jobId).
Proof. unfold cancelHandler. plain_tac. Qed.

Lemma tidy_createFiles (jobId : Z) (l : list MulterFile) (jobFiles : list PdfFile.t)
    (known : gset Z) (Q : list PdfFile.t → gset Z → Prop) :
  jobId ∈ known → (∀ r, Q r known) → tidy (createFiles jobId l jobFiles) known Q.
Proof.
  intros Hknown HQ. revert jobFiles.
  induction l as [|file rest IH]; intros jobFiles; simpl.
  - apply HQ.
  - split; [done|]. split; [|done]. intros r. apply IH.
Qed.

Lemma tidy_try_catch {A : Type} (t : Task A) (handler : string → Task A)
    (known : gset Z) (Q : A → gset Z → Prop) :
  tidy t known Q → (∀ e known', tidy (handler e) known' Q) →
  tidy (try_catch t handler) known Q.
Proof.
  revert known.
  induction t as [A a|A m|A op k IHk h IHh|A child _ k IHk];
    intros known Ht Hhandler; simpl in *.
  - done.
  - apply Hhandler.
  - destruct Ht as (Hop & Hk & Hh). split; [done|]. split.
    + intros r. by apply IHk.
    + intros e. by apply IHh.
  - destruct Ht as [Hchild Hk]. split; [done|]. by apply IHk.
Qed.

Lemma tidy_uploadHandler (reqFiles : option (list MulterFile)) (optionsRaw : OptionsRaw)
    (known : gset Z) :
  tidy (uploadHandler reqFiles optionsRaw) known (λ _ _, True).
Proof.
  unfold uploadHandler. apply tidy_try_catch; [|intros; exact I].
  destruct reqFiles as [[|file rest]|]; try exact I.
  destruct (parseOptions optionsRaw) as [options|]; [|exact I].
  apply tidy_bind. cbn [call tidy]. split; [exact I|]. split; [|intros; exact I].
  intros job. cbn [known_after]. apply tidy_bind. apply tidy_createFiles.
  - apply elem_of_union_l, elem_of_singleton_2, eq_refl.
  - intros jobFiles. cbn [tidy]. split; [|exact I].
    apply plain_tidy; [apply plain_processJob|done].
Qed.

Lemma tidy_serve (req : Request) (known : gset Z) :
  tidy (serve req) known (λ _ _, True).
Proof.
  assert (Hplain : ∀ (A : Type) (t : Task A),
            plain t → tidy (detach t) known (λ _ _, True)).
  { intros A t Ht. apply plain_tidy; [|done]. unfold detach. by apply plain_bind. }
  destruct req as [parts optionsRaw|jobId|jobId|fileId|jobId]; simpl.
  - unfold detach, postUpload. apply tidy_bind.
    destruct parts as [parts|].
    + destruct (uploadArray parts) as [accepted|message]; [|exact I].
      apply tidy_bind. eapply tidy_mono; [apply tidy_uploadHandler|]. done.
    + apply tidy_bind. eapply tidy_mono; [apply tidy_uploadHandler|]. done.
  - apply Hplain, plain_statusHandler.
  - apply Hplain, plain_resultsHandler.
  - apply Hplain, plain_downloadHandler.
  - apply Hplain, plain_cancelHandler.
Qed.

Lemma keeps_refl (s : MemStorage) : keeps s s.
Proof. split; intros k x Hx; exists x; by repeat split. Qed.

Lemma keeps_trans (s1 s2 s3 : MemStorage) : keeps s1 s2 → keeps s2 s3 → keeps s1 s3.
Proof.
  intros [Hj12 Hf12] [Hj23 Hf23]. split.
  - intros k job Hjob.
    destruct (Hj12 k job Hjob) as (job2 & Hjob2 & ? & ? & ?).
    destruct (Hj23 k job2 Hjob2) as (job3 & Hjob3 & ? & ? & ?).
    exists job3. repeat split; congruence.
  - intros k file Hfile.
    destruct (Hf12 k file Hfile) as (file2 & Hfile2 & ? & ? & ? & ?).
    destruct (Hf23 k file2 Hfile2) as (file3 & Hfile3 & ? & ? & ? & ?).
    exists file3. repeat split; congruence.
Qed.

(** One call that is [op_tidy], on a store that is linked. *)
Lemma tidy_call_ok (w : World) (op : Op) (s : MemStorage) (known : gset Z) :
  ids_below_counters s →
  store_linked s →
  (∀ j, j ∈ known → is_Some (jobs s !! j)) →
  op_tidy known op →
  let r := (run_op w op s).1 in
  let s' := (run_op w op s).2 in
  ids_below_counters s' ∧
  store_linked s' ∧
  keeps s s' ∧
  (∀ j, is_Some (jobs s !! j) → is_Some (jobs s' !! j)) ∧
  match r with
  | Ok r => ∀ j, j ∈ known_after op known r → is_Some (jobs s' !! j)
  | Thrown _ => True
  end.
Proof.
  intros [Hbj Hbf] [Hkj Hkf] Hknown Hop.
  assert (Hsame : (run_op w op s).2 = s →
            (∀ r, known_after op known r = known) →
            let r := (run_op w op s).1 in
            let s' := (run_op w op s).2 in
            ids_below_counters s' ∧ store_linked s' ∧ keeps s s' ∧
            (∀ j, is_Some (jobs s !! j) → is_Some (jobs s' !! j)) ∧
            match r with
            | Ok r => ∀ j, j ∈ known_after op known r → is_Some (jobs s' !! j)
            | Thrown _ => True
            end).
  { intros Hs Hk. cbv zeta. rewrite Hs.
    split; [done|]. split; [done|]. split; [apply keeps_refl|]. split; [done|].
    destruct (run_op w op s).1; [|done]. intros j. rewrite Hk. apply Hknown. }
  destruct op; try (by apply Hsame).
  - (* createPdfJob *)
    cbn. split; [|split; [|split; [|split]]].
    + split; simpl; [|done]. intros k Hk.
      destruct (decide (jobCurrentId s = k)) as [<-|Hne]; [lia|].
      rewrite lookup_insert_ne in Hk by done. specialize (Hbj k Hk). lia.
    + split; simpl.
      * intros k j Hj. apply lookup_insert_Some in Hj as [[<- <-]|[_ Hj]]; [done|].
        by apply Hkj.
      * intros k f Hf. destruct (Hkf k f Hf) as [Hid [j Hj]]. split; [done|].
        destruct (decide (jobCurrentId s = PdfFile.jobId f)) as [Heq|Hne].
        -- rewrite <- Heq, lookup_insert_eq. by eexists.
        -- rewrite lookup_insert_ne by done. by eexists.
    + split; simpl.
      * intros k j Hj. exists j. split; [|done].
        rewrite lookup_insert_ne; [done|].
        intros <-. assert (jobCurrentId s < jobCurrentId s); [|lia].
        apply Hbj. by eexists.
      * intros k f Hf. exists f. by repeat split.
    + intros j Hj. simpl. destruct (decide (jobCurrentId s = j)) as [<-|Hne].
      * rewrite lookup_insert_eq. by eexists.
      * by rewrite lookup_insert_ne.
    + intros j Hj. simpl.
      apply elem_of_union in Hj as [Hj|Hj].
      * apply elem_of_singleton in Hj as ->. rewrite lookup_insert_eq. by eexists.
      * destruct (decide (jobCurrentId s = j)) as [<-|Hne].
        -- rewrite lookup_insert_eq. by eexists.
        -- rewrite lookup_insert_ne by done. by apply Hknown.
  - (* updatePdfJob *)
    destruct Hop as (Hid & Hcreated & Hoptions).
    cbn. unfold updatePdfJob.
    destruct (jobs s !! id) as [job|] eqn:Hjob; cbn.
    2:{ split; [done|]. split; [done|]. split; [apply keeps_refl|]. done. }
    assert (Hsome : ∀ j, is_Some (jobs s !! j) →
              is_Some (<[id := spreadJob job updates]> (jobs s) !! j)).
    { intros j Hj. destruct (decide (id = j)) as [<-|Hne].
      - rewrite lookup_insert_eq. by eexists.
      - by rewrite lookup_insert_ne. }
    split; [|split; [|split; [|split]]].
    + split; simpl; [|done]. intros k Hk.
      destruct (decide (id = k)) as [<-|Hne]; [apply Hbj; by eexists|].
      rewrite lookup_insert_ne in Hk by done. by apply Hbj.
    + split; simpl.
      * intros k j Hj. apply lookup_insert_Some in Hj as [[<- <-]|[_ Hj]].
        -- unfold spreadJob. simpl. rewrite Hid. simpl. by apply Hkj.
        -- by apply Hkj.
      * intros k f Hf. destruct (Hkf k f Hf) as [Hfid Hj]. split; [done|].
        by apply Hsome.
    + split; simpl.
      * intros k j Hj. destruct (decide (id = k)) as [<-|Hne].
        -- rewrite lookup_insert_eq. eexists. split; [done|].
           rewrite Hjob in Hj. injection Hj as <-.
           unfold spreadJob. simpl. by rewrite Hid, Hcreated, Hoptions.
        -- rewrite lookup_insert_ne by done. exists j. by repeat split.
      * intros k f Hf. exists f. by repeat split.
    + exact Hsome.
    + intros j Hj. by apply Hsome, Hknown.
  - (* createPdfFile *)
    simpl in Hop. cbn. split; [|split; [|split; [|split]]].
    + split; simpl; [done|]. intros k Hk.
      destruct (decide (fileCurrentId s = k)) as [<-|Hne]; [lia|].
      rewrite lookup_insert_ne in Hk by done. specialize (Hbf k Hk). lia.
    + split; simpl; [done|].
      intros k f Hf. apply lookup_insert_Some in Hf as [[<- <-]|[_ Hf]].
      * simpl. split; [done|]. by apply Hknown.
      * by apply Hkf.
    + split; simpl.
      * intros k j Hj. exists j. by repeat split.
      * intros k f Hf. exists f. split; [|done].
        rewrite lookup_insert_ne; [done|].
        intros <-. assert (fileCurrentId s < fileCurrentId s); [|lia].
        apply Hbf. by eexists.
    + done.
    + intros j Hj. by apply Hknown.
  - (* updatePdfFile *)
    destruct Hop as (Hid & Hjob & Hname & Hsize).
    cbn. unfold updatePdfFile.
    destruct (files s !! id) as [file|] eqn:Hfile; cbn.
    2:{ split; [done|]. split; [done|]. split; [apply keeps_refl|]. done. }
    split; [|split; [|split; [|split]]].
    + split; simpl; [done|]. intros k Hk.
      destruct (decide (id = k)) as [<-|Hne]; [apply Hbf; by eexists|].
      rewrite lookup_insert_ne in Hk by done. by apply Hbf.
    + split; simpl; [done|].
      intros k f Hf. apply lookup_insert_Some in Hf as [[<- <-]|[_ Hf]].
      * unfold spreadFile. simpl. rewrite Hid, Hjob. simpl. by apply Hkf.
      * by apply Hkf.
    + split; simpl.
      * intros k j Hj. exists j. by repeat split.
      * intros k f Hf. destruct (decide (id = k)) as [<-|Hne].
        -- rewrite lookup_insert_eq. eexists. split; [done|].
           rewrite Hfile in Hf. injection Hf as <-.
           unfold spreadFile. simpl. by rewrite Hid, Hjob, Hname, Hsize.
        -- rewrite lookup_insert_ne by done. exists f. by repeat split.
    + done.
    + intros j Hj. by apply Hknown.
Qed.

Lemma linked_boot : linked boot.
Proof.
  split; [|split].
  - split; intros k [x Hx]; simpl in Hx; by rewrite lookup_empty in Hx.
  - split; intros k x Hx; simpl in Hx; by rewrite lookup_empty in Hx.
  - exists []. split; [constructor|]. intros known j Hknown. by apply elem_of_nil in Hknown.
Qed.

Lemma fire_linked (e : Event) (σ σ' : Server) :
  linked σ → fire e σ = Some σ' → linked σ' ∧ keeps (store σ) (store σ').
Proof.
  intros (Hbelow & Hstore & ks & Htidy & Hknown) Hfire.
  destruct e as [req|i w]; simpl in Hfire.
  - injection Hfire as <-. split; [|apply keeps_refl].
    split; [done|]. split; [done|]. exists (ks ++ [∅]). split; simpl.
    + apply Forall2_app; [done|]. constructor; [apply tidy_serve|constructor].
    + intros known j Hin Hj. apply elem_of_app in Hin as [Hin|Hin].
      * by apply (Hknown known).
      * apply list_elem_of_singleton in Hin as ->. by apply elem_of_empty in Hj.
  - destruct (tasks σ !! i) as [t|] eqn:Ht; [|done].
    destruct (Forall2_lookup_l _ _ _ _ _ Htidy Ht) as (known & Hk & Htk).
    assert (Hin : known ∈ ks) by (by eapply list_elem_of_lookup_2).
    destruct t as [a|m|op k h|child k]; simpl in Hfire; try done.
    + (* a call *)
      destruct Htk as (Hop & Hkr & Hhe).
      assert (Hmine : ∀ j, j ∈ known → is_Some (jobs (store σ) !! j)).
      { intros j Hj. by apply (Hknown known). }
      destruct (tidy_call_ok w op (store σ) known Hbelow Hstore Hmine Hop)
        as (Hbelow' & Hstore' & Hkeeps & Hsome & Hafter).
      assert (Hrest : ∀ known' j, known' ∈ ks → j ∈ known' →
                is_Some (jobs (run_op w op (store σ)).2 !! j)).
      { intros known' j Hin' Hj. by apply Hsome, (Hknown known'). }
      destruct (run_op w op (store σ)) as [[r|err] s'] eqn:Hrun;
        simpl in Hbelow', Hstore', Hkeeps, Hsome, Hafter, Hrest;
        injection Hfire as <-; simpl; (split; [|exact Hkeeps]);
        (split; [exact Hbelow'|]); (split; [exact Hstore'|]).
      * exists (<[i := known_after op known r]> ks). split.
        -- rewrite app_nil_r. apply Forall2_insert; [done|]. apply Hkr.
        -- intros known' j Hin' Hj.
           apply list_elem_of_lookup in Hin' as [n Hn].
           destruct (decide (n = i)) as [->|Hne].
           ++ rewrite list_lookup_insert_eq in Hn by (by eapply lookup_lt_Some).
              injection Hn as <-. by apply Hafter.
           ++ rewrite list_lookup_insert_ne in Hn by done.
              apply (Hrest known'); [by eapply list_elem_of_lookup_2|done].
      * exists (<[i := known]> ks). split.
        -- rewrite app_nil_r. apply Forall2_insert; [done|]. apply Hhe.
        -- rewrite (list_insert_id ks i known Hk). exact Hrest.
    + (* a spawn *)
      destruct Htk as [Hchild Hk']. injection Hfire as <-.
      split; [|apply keeps_refl]. split; [done|]. split; [done|].
      exists (<[i := known]> ks ++ [known]). simpl. split.
      * apply Forall2_app.
        -- by apply Forall2_insert.
        -- constructor; [done|constructor].
      * rewrite (list_insert_id ks i known Hk).
        intros known' j Hin' Hj. apply elem_of_app in Hin' as [Hin'|Hin'].
        -- by apply (Hknown known').
        -- apply list_elem_of_singleton in Hin' as ->. by apply (Hknown known).
Qed.

Lemma reachable_linked (σ : Server) : reachable σ → linked σ.
Proof.
  unfold reachable. intros Hreach.
  revert σ Hreach. apply (rtc_ind_r (R := step) linked boot linked_boot).
  intros σ1 σ2 _ [e Hfire] Hlinked. by apply (fire_linked e σ1 σ2).
Qed.

(** X16. In every state the server can reach, under any interleaving of requests
    and resumptions, every record sits under its own id and every file
    belongs to a job that is in the store: [getPdfJob(file.jobId)] never
    comes back empty for a file of the store. *)
Theorem files_belong_to_jobs (σ : Server) (k : Z) (file : PdfFile.t) :
  reachable σ →
  files (store σ) !! k = Some file →
  PdfFile.id file = k ∧
  ∃ job, getPdfJob (PdfFile.jobId file) (store σ) = Some job ∧
         PdfJob.id job = PdfFile.jobId file.
Proof.
  intros Hreach Hfile.
  destruct (reachable_linked σ Hreach) as (_ & [Hjobs Hfiles] & _).
  destruct (Hfiles k file Hfile) as [Hid [job Hjob]].
  split; [exact Hid|]. exists job. split; [exact Hjob|]. by apply Hjobs.
Qed.

(** X17. Whatever happens between two states of the server, a job keeps its
    id, its creation date and its options, and a file keeps its id, its
    job, its original name and its original size; no record is ever
    removed. *)
Theorem records_keep_their_identity (σ σ' : Server) :
  reachable σ → rtc step σ σ' → keeps (store σ) (store σ').
Proof.
  intros Hreach Hsteps.
  assert (Hlinked := reachable_linked σ Hreach). clear Hreach.
  induction Hsteps as [σ|σ1 σ2 σ3 [e Hfire] _ IH].
  - apply keeps_refl.
  - destruct (fire_linked e σ1 σ2 Hlinked Hfire) as [Hlinked2 Hkeeps].
    apply (keeps_trans _ (store σ2)); [exact Hkeeps|by apply IH].
Qed.

Lemma files_belong_to_jobs_witness :
  let σ := afterSchedule (uploadSchedule ++ finishSchedule) in
  ∃ file, files (store σ) !! 1 = Some file ∧
          PdfFile.id file = 1 ∧
          is_Some (getPdfJob (PdfFile.jobId file) (store σ)).
Proof.
  intros σ.
  assert (Hfile : ∃ file, files (store σ) !! 1 = Some file)
    by (vm_compute; eexists; reflexivity).
  destruct Hfile as [file Hfile]. exists file. split; [exact Hfile|].
  destruct (files_belong_to_jobs σ 1 file (afterSchedule_reachable _) Hfile)
    as [Hid (job & Hjob & _)].
  split; [exact Hid|]. by exists job.
Defined.

Lemma records_keep_their_identity_witness :
  let σ := afterSchedule uploadSchedule in
  let σ' := afterSchedule (uploadSchedule ++ finishSchedule) in
  keeps (store σ) (store σ').
Proof.
  intros σ σ'.
  assert (Hsteps : rtc step σ σ').
  { apply (fireAll_steps finishSchedule). vm_compute. reflexivity. }
  exact (records_keep_their_identity σ σ' (afterSchedule_reachable _) Hsteps).
Defined.

(** ** After a cancellation *)

(** X15. Once a job has been cancelled, the cancel route refuses it from then on
    and the results route does not serve it: both answer 400 and neither
    changes the store. *)
Theorem cancelled_job_is_refused (w w' : World) (s : MemStorage) (jobId : Z)
    (job : PdfJob.t) :
  records_keyed s →
  jobId ≠ 0 →
  jobs s !! jobId = Some job →
  isTerminal (PdfJob.status job) = false →
  let s' := (run w (cancelHandler (Some jobId)) s).2 in
  run w' (cancelHandler (Some jobId)) s'
  = (Ok {| statusCode := 400;
           body := ErrorBody "Trabalho já foi concluído ou falhou" |}, s') ∧
  run w' (resultsHandler (Some jobId)) s'
  = (Ok {| statusCode := 400;
           body := ErrorBody "Conversão ainda não foi concluída" |}, s').
Proof.
  intros Hkeyed Hnonzero Hjob Hterminal s'.
  set (s1 := {| jobs := <[jobId := spreadJob job (jobStatusUpdate failed)]> (jobs s);
                files := files s; jobCurrentId := jobCurrentId s;
                fileCurrentId := fileCurrentId s |}).
  assert (Hkeyed1 : records_keyed s1) by exact Hkeyed.
  destruct (run_forEach_update w
              (λ file, bool_decide (PdfFile.status file = pending)
                       || bool_decide (PdfFile.status file = processing))
              (failedUpdate cancelledMessage) (getPdfFilesByJobId jobId s1) s1)
    as (s2 & Hrun & Hjobs & _ & _).
  { by apply getPdfFilesByJobId_NoDup. }
  { intros f Hf. apply elem_of_getPdfFilesByJobId in Hf as [_ [k Hk]].
    by rewrite (Hkeyed1 k f Hk). }
  assert (Hs' : s' = s2).
  { unfold s', cancelHandler.
    rewrite (proj2 (Z.eqb_neq jobId 0) Hnonzero).
    rewrite run_try_catch, run_bind, run_call. simpl run_op.
    unfold getPdfJob. rewrite Hjob. cbv beta iota. rewrite Hterminal.
    rewrite run_seq, run_call. simpl run_op.
    unfold updatePdfJob. rewrite Hjob. cbv beta iota zeta. fold s1.
    rewrite run_bind, run_call. simpl run_op. cbv beta iota. rewrite run_seq.
    by rewrite Hrun. }
  clearbody s'. subst s'.
  assert (Hfailed : jobs s2 !! jobId = Some (spreadJob job (jobStatusUpdate failed))).
  { rewrite Hjobs. apply lookup_insert_eq. }
  split.
  - unfold cancelHandler. rewrite (proj2 (Z.eqb_neq jobId 0) Hnonzero).
    rewrite run_try_catch, run_bind, run_call. simpl run_op.
    unfold getPdfJob. rewrite Hfailed. reflexivity.
  - unfold resultsHandler.
    rewrite run_try_catch, run_bind, run_call. simpl run_op.
    unfold getPdfJob. rewrite Hfailed. reflexivity.
Qed.

Lemma cancelled_job_is_refused_witness :
  let s' := (run fallbackWorld (cancelHandler (Some 1)) uploadedStore).2 in
  (run fallbackWorld (cancelHandler (Some 1)) s').1
  = Ok {| statusCode := 400; body := ErrorBody "Trabalho já foi concluído ou falhou" |} ∧
  (run fallbackWorld (resultsHandler (Some 1)) s').1
  = Ok {| statusCode := 400; body := ErrorBody "Conversão ainda não foi concluída" |}.
Proof.
  intros s'.
  assert (Hkeyed : records_keyed uploadedStore).
  { intros k f Hk. unfold uploadedStore in Hk. simpl in Hk.
    apply lookup_insert_Some in Hk as [[<- <-]|[_ Hk]]; [done|].
    by rewrite lookup_empty in Hk. }
  destruct (cancelled_job_is_refused fallbackWorld fallbackWorld uploadedStore 1
              (PdfJob.mk 1 pending 1700000000000 None defaultOptions) Hkeyed)
    as [Hcancel Hresults]; [lia|reflexivity|reflexivity|].
  fold s' in Hcancel, Hresults. by rewrite Hcancel, Hresults.
Defined.

(** ** The options of a conversion *)

Lemma booleanWithDefault_Some (d : bool) (field : option Json) (b : bool) :
  booleanWithDefault d field = Some b ↔
  (field = None ∧ b = d) ∨ field = Some (JBool b).
Proof.
  destruct field as [[]|]; simpl; split;
    try (intros [[??]|?]; congruence); try congruence.
  - intros [= ->]. by right.
  - intros [= ->]. by left.
Qed.

Lemma conversionOptionsSchema_parse_Some (value : option Json)
    (options : ConversionOptions) :
  conversionOptionsSchema_parse value = Some options ↔
  ∃ fields,
    value = Some (JObject fields) ∧
    booleanWithDefault true (lookupField "applyOcr" fields)
    = Some (applyOcr options) ∧
    booleanWithDefault true (lookupField "verifyCompliance" fields)
    = Some (verifyCompliance options) ∧
    booleanWithDefault false (lookupField "optimizeSize" fields)
    = Some (optimizeSize options).
Proof.
  split.
  - destruct value as [[]|]; try done. unfold conversionOptionsSchema_parse.
    destruct (booleanWithDefault true (lookupField "applyOcr" fields)) as [a|]
      eqn:Ha; [|done].
    destruct (booleanWithDefault true (lookupField "verifyCompliance" fields))
      as [v|] eqn:Hv; [|done].
    destruct (booleanWithDefault false (lookupField "optimizeSize" fields))
      as [o|] eqn:Ho; [|done].
    intros [= <-]. by exists fields.
  - intros (fields & -> & Ha & Hv & Ho). unfold conversionOptionsSchema_parse.
    rewrite Ha, Hv, Ho. by destruct options.
Qed.

(** X5. The options of an upload.  The handler takes them exactly when
    [req.body.options] is an object, or a text that [JSON.parse] turns into
    one, in which each of the three flags is missing or a boolean; a flag
    that is missing takes its default (OCR and verification on,
    optimisation off) and one that is present is taken as it is.  The job
    the handler then creates carries these options.  In
    every other case (no options, a text that is not JSON, a value that is
    not an object, a flag that is not a boolean) an upload that carries
    files is answered 400 "Opções de conversão inválidas" and the store is
    left as it was. *)
Theorem upload_options (optionsRaw : OptionsRaw) :
  let object (fields : list (string * Json)) :=
    optionsRaw = RawValue (JObject fields)
    ∨ ∃ text, optionsRaw = RawText text (Some (JObject fields)) in
  let flag (d : bool) (field : option Json) (b : bool) :=
    (field = None ∧ b = d) ∨ field = Some (JBool b) in
  (∀ options,
     parseOptions optionsRaw = Some options ↔
     ∃ fields,
       object fields ∧
       flag true (lookupField "applyOcr" fields) (applyOcr options) ∧
       flag true (lookupField "verifyCompliance" fields) (verifyCompliance options) ∧
       flag false (lookupField "optimizeSize" fields) (optimizeSize options)) ∧
  (∀ w s part rest options,
     parseOptions optionsRaw = Some options →
     ∃ job,
       jobs (run w (uploadHandler (Some (stored <$> part :: rest)) optionsRaw) s).2
         !! jobCurrentId s = Some job ∧
       PdfJob.options job = options) ∧
  (∀ w s file rest,
     parseOptions optionsRaw = None →
     run w (uploadHandler (Some (file :: rest)) optionsRaw) s
     = (Ok {| statusCode := 400; body := ErrorBody "Opções de conversão inválidas" |},
        s)).
Proof.
  intros object flag. split; [|split].
  - intros options. subst object flag. cbv beta.
    setoid_rewrite <- booleanWithDefault_Some.
    destruct optionsRaw as [text parsed|value|]; cbn [parseOptions];
      rewrite conversionOptionsSchema_parse_Some; split.
    + intros (fields & -> & Hflags). exists fields.
      split; [right; by exists text|done].
    + intros (fields & [?|[text' [= _ ->]]] & Hflags); [done|]. by exists fields.
    + intros (fields & [= ->] & Hflags). exists fields. split; [by left|done].
    + intros (fields & [[= ->]|[text' ?]] & Hflags); [|done]. by exists fields.
    + by intros (fields & ? & _).
    + by intros (fields & [?|[text' ?]] & _).
  - intros w s part rest options Hparse. unfold uploadHandler.
    rewrite run_try_catch. rewrite fmap_cons. cbv beta iota.
    rewrite <- fmap_cons. rewrite Hparse.
    rewrite run_bind, run_call.
    set (insert := {| InsertPdfJob.status := pending; InsertPdfJob.options := options |}).
    change (run_op w (StCreatePdfJob insert) s)
      with (Ok (createPdfJob (now w) insert s).1, (createPdfJob (now w) insert s).2).
    cbv beta iota.
    set (s1 := (createPdfJob (now w) insert s).2).
    change (PdfJob.id (createPdfJob (now w) insert s).1) with (jobCurrentId s).
    rewrite run_bind.
    destruct (run_createFiles w (jobCurrentId s) (part :: rest) [] s1)
      as (s' & Hrun & _ & Hjobs & _).
    cbn [Ret] in *. rewrite Hrun. cbv beta iota. simpl run. cbn [snd].
    rewrite Hjobs. eexists. split; [apply lookup_insert_eq|]. done.
  - intros w s file rest Hparse. unfold uploadHandler.
    rewrite run_try_catch. cbv beta iota. rewrite Hparse. reflexivity.
Qed.

Lemma upload_options_witness :
  parseOptions (RawText "{}" (Some (JObject []))) = Some defaultOptions ∧
  (run fallbackWorld
     (uploadHandler (Some [stored smallPdf])
        (RawValue (JObject [("applyOcr", JString "true")])))
     newMemStorage).1
  = Ok {| statusCode := 400; body := ErrorBody "Opções de conversão inválidas" |}.
Proof.
  split.
  - apply (upload_options (RawText "{}" (Some (JObject [])))).
    exists []. split; [right; by exists "{}"|].
    repeat split; by left.
  - by rewrite (proj2 (proj2 (upload_options _)) fallbackWorld newMemStorage).
Defined.

(** ** The single-file variant *)

Lemma removeFirst_extension (base : string) :
  "."%char ∉ String.list_ascii_of_string base →
  Legacy.removeFirst ".pdf" (base +:+ ".pdf") = base.
Proof.
  induction base as [|c base IH]; intros Hdot; [reflexivity|].
  simpl in Hdot. apply not_elem_of_cons in Hdot as [Hc Hdot].
  change (String c base +:+ ".pdf") with (String c (base +:+ ".pdf")).
  cbn [Legacy.removeFirst String.prefix].
  destruct (Ascii.ascii_dec "." c) as [<-|_]; [done|].
  by rewrite IH.
Qed.

Lemma validHeaderValue_app (a b : string) :
  validHeaderValue (a +:+ b) = validHeaderValue a && validHeaderValue b.
Proof. unfold validHeaderValue. by rewrite list_ascii_app, forallb_app. Qed.

Lemma validHeaderValue_attachment (filename : string) :
  validHeaderValue (attachment filename) = validHeaderValue filename.
Proof.
  unfold attachment. rewrite !validHeaderValue_app.
  change (validHeaderValue "attachment; filename=") with true.
  change (validHeaderValue doubleQuote) with true.
  by rewrite andb_true_r.
Qed.

Lemma validHeaderValue_removeFirst (pattern name : string) :
  validHeaderValue name = true →
  validHeaderValue (Legacy.removeFirst pattern name) = true.
Proof.
  unfold validHeaderValue. rewrite <- !Is_true_true, !forallb_True, !Forall_forall.
  intros Hname c Hc. apply Hname. clear Hname.
  induction name as [|x name IH]; cbn [Legacy.removeFirst] in Hc.
  - destruct (String.prefix pattern ""); [|done]. by apply elem_of_substring in Hc.
  - destruct (String.prefix pattern (String x name)).
    + by apply elem_of_substring in Hc.
    + change (String.list_ascii_of_string (String x (Legacy.removeFirst pattern name)))
        with (x :: String.list_ascii_of_string (Legacy.removeFirst pattern name)) in Hc.
      apply elem_of_cons in Hc as [->|Hc]; [apply list_elem_of_here|].
      apply list_elem_of_further. by apply IH.
Qed.

(** X19. The single-file flow, from the process route to the download.  For a
    job that is in the storage and options the schema takes (or none), the
    process route answers "Processing started" and sets the job to
    processing; until its timer fires the download route answers 400.
    When the timer fires the job is completed with the output URL
    [/api/pdf/downloads/<id>] and the progress route shows 100.  The
    download route then builds the file name from the original name, with
    the first [.pdf] taken out and [_PDFA.pdf] added: it sends the sample
    PDF under this name when the name can stand in a header, which it can
    whenever the original name can, and answers 500 when it cannot. *)
Theorem legacy_conversion_flow (a : Legacy.App) (id : Z) (job : Legacy.PdfJob)
    (options : option Json) :
  Legacy.getPdfJob id (Legacy.storage a) = Some job →
  match options with
  | Some value => truthy value = true → Legacy.conversionOptionsSchema_accepts value = true
  | None => True
  end →
  let a1 := (Legacy.processRoute (Some id) options a).2 in
  let filename := Legacy.removeFirst ".pdf" (Legacy.originalName job) +:+ "_PDFA.pdf" in
  (Legacy.processRoute (Some id) options a).1
  = Legacy.MessageReply 200 "Processing started" ∧
  (∃ job1, Legacy.getPdfJob id (Legacy.storage a1) = Some job1 ∧
           Legacy.status job1 = processing) ∧
  Legacy.downloadRoute (Some id) a1
  = Legacy.MessageReply 400 "PDF conversion not yet completed" ∧
  ∃ a2,
    Legacy.timerFires (length (Legacy.timers a)) a1 = Some a2 ∧
    (∃ job2, Legacy.getPdfJob id (Legacy.storage a2) = Some job2 ∧
             Legacy.status job2 = completed ∧
             Legacy.outputUrl job2 = Some ("/api/pdf/downloads/" +:+ pretty id) ∧
             Legacy.originalName job2 = Legacy.originalName job) ∧
    (∀ draw, Legacy.shownProgress
               (Legacy.getProgress (Some id) draw (Legacy.storage a2)) = Some 100) ∧
    Legacy.downloadRoute (Some id) a2
    = (if validHeaderValue filename
       then Legacy.PdfReply filename Legacy.SamplePdf
       else Legacy.MessageReply 500 "Failed to download the converted PDF") ∧
    (validHeaderValue (Legacy.originalName job) = true →
     Legacy.downloadRoute (Some id) a2 = Legacy.PdfReply filename Legacy.SamplePdf) ∧
    (∀ base, Legacy.originalName job = base +:+ ".pdf" →
       "."%char ∉ String.list_ascii_of_string base →
       filename = base +:+ "_PDFA.pdf").
Proof.
  intros Hjob Hoptions a1 filename.
  assert (Haccept : Legacy.conversionOptionsSchema_accepts
                      match options with
                      | Some v => if truthy v then v else JObject []
                      | None => JObject []
                      end = true).
  { destruct options as [value|]; [|reflexivity].
    destruct (truthy value); [by apply Hoptions|reflexivity]. }
  assert (Hroute : Legacy.processRoute (Some id) options a
                   = (Legacy.MessageReply 200 "Processing started",
                      {| Legacy.storage :=
                           (Legacy.updatePdfJobStatus id processing (Legacy.storage a)).2;
                         Legacy.pdfDataStore := Legacy.pdfDataStore a;
                         Legacy.timers := Legacy.timers a ++ [id] |})).
  { unfold Legacy.processRoute. by rewrite Haccept, Hjob. }
  unfold a1. rewrite Hroute. clear a1. cbn [fst snd].
  unfold Legacy.getPdfJob in Hjob.
  unfold Legacy.updatePdfJobStatus. rewrite Hjob. cbn [snd].
  split; [reflexivity|]. split.
  { eexists. split; [apply lookup_insert_eq|reflexivity]. }
  split.
  { unfold Legacy.downloadRoute, Legacy.getPdfJob. cbn [Legacy.storage Legacy.pdfJobs].
    by rewrite lookup_insert_eq. }
  unfold Legacy.timerFires. cbn [Legacy.timers].
  rewrite lookup_app_r by lia. rewrite Nat.sub_diag. cbn [lookup list_lookup].
  eexists. split; [reflexivity|].
  unfold Legacy.updatePdfJobOutput. cbn [Legacy.storage Legacy.pdfJobs].
  rewrite lookup_insert_eq. cbn [snd Legacy.storage Legacy.pdfJobs].
  assert (Hdownload : ∀ (jobs : gmap Z Legacy.PdfJob) (job2 : Legacy.PdfJob)
                        (data : gmap Z Legacy.Buffer) next pending,
            Legacy.status job2 = completed →
            Legacy.originalName job2 = Legacy.originalName job →
            Legacy.downloadRoute (Some id)
              {| Legacy.storage := {| Legacy.pdfJobs := <[id := job2]> jobs;
                                      Legacy.currentId := next |};
                 Legacy.pdfDataStore := <[id := Legacy.SamplePdf]> data;
                 Legacy.timers := pending |}
            = (if validHeaderValue filename
               then Legacy.PdfReply filename Legacy.SamplePdf
               else Legacy.MessageReply 500 "Failed to download the converted PDF")).
  { intros jobs job2 data next pending Hdone Hname.
    unfold Legacy.downloadRoute, Legacy.getPdfJob.
    cbn [Legacy.storage Legacy.pdfJobs Legacy.pdfDataStore].
    rewrite !lookup_insert_eq, Hdone, Hname.
    rewrite bool_decide_false by (intros Hne; by apply Hne).
    cbv zeta. fold filename. by rewrite validHeaderValue_attachment. }
  split; [|split; [|split; [|split]]].
  - eexists. split; [apply lookup_insert_eq|]. done.
  - intros draw. unfold Legacy.getProgress, Legacy.getPdfJob.
    cbn [Legacy.pdfJobs]. by rewrite lookup_insert_eq.
  - by rewrite Hdownload.
  - intros Hname. rewrite Hdownload by done.
    subst filename. rewrite validHeaderValue_app.
    by rewrite (validHeaderValue_removeFirst _ _ Hname).
  - intros base Hname Hdot. subst filename.
    by rewrite Hname, removeFirst_extension.
Qed.

Lemma legacy_conversion_flow_witness :
  let a := {| Legacy.storage :=
                (Legacy.createPdfJob 1700000000000 "a.pdf" "local" pending
                   Legacy.newMemStorage).2;
              Legacy.pdfDataStore := ∅; Legacy.timers := [] |} in
  let a1 := (Legacy.processRoute (Some 1) None a).2 in
  ∃ a2, Legacy.timerFires 0 a1 = Some a2 ∧
        Legacy.downloadRoute (Some 1) a2 = Legacy.PdfReply "a_PDFA.pdf" Legacy.SamplePdf.
Proof.
  intros a a1.
  destruct (legacy_conversion_flow a 1
              {| Legacy.id := 1; Legacy.originalName := "a.pdf";
                 Legacy.status := pending; Legacy.inputUrl := "local";
                 Legacy.outputUrl := None; Legacy.errorMessage := None;
                 Legacy.createdAt := 1700000000000 |} None)
    as (_ & _ & _ & a2 & Hfire & _ & _ & _ & Hsent & _).
  - reflexivity.
  - exact I.
  - exists a2. split; [exact Hfire|]. apply Hsent. reflexivity.
Defined.

(** X20. The progress route of the single-file variant shows 100 percent for a
    completed job and for no other, 0 for a job that is pending or failed,
    and for a job that is processing a percentage between 10 and 95 with
    the stage that goes with it: analysing below 30, OCR below 60,
    converting from there on. *)
Theorem legacy_progress_range (status : Status) (draw : Z) :
  0 ≤ draw < 90 →
  let progress := (Legacy.progressAndStage status draw).1 in
  let stage := (Legacy.progressAndStage status draw).2 in
  (progress = 100 ↔ status = completed) ∧
  (status = pending ∨ status = failed → progress = 0) ∧
  (status = processing →
     10 ≤ progress ≤ 95 ∧
     (progress < 30 → stage = "Analisando documento...") ∧
     (30 ≤ progress < 60 → stage = "Aplicando OCR...") ∧
     (60 ≤ progress → stage = "Convertendo para PDF/A-2U...")).
Proof.
  intros Hdraw progress stage. unfold progress, stage, Legacy.progressAndStage.
  destruct status; cbn [fst snd].
  - split; [split; intros; discriminate|]. split; [done|]. intros; discriminate.
  - unfold Legacy.simulatedProgress.
    split; [split; [lia|intros; discriminate]|].
    split; [intros [?|?]; discriminate|]. intros _.
    split; [lia|].
    destruct (Z.ltb_spec (Z.min (draw + 10) 95) 30);
      destruct (Z.ltb_spec (Z.min (draw + 10) 95) 60);
      repeat split; intros; (reflexivity || lia).
  - split; [done|]. split; [intros [?|?]; discriminate|]. intros; discriminate.
  - split; [split; intros; discriminate|]. split; [done|]. intros; discriminate.
Qed.

Lemma legacy_progress_range_witness :
  (Legacy.progressAndStage processing 89).1 = 95 ∧
  (Legacy.progressAndStage processing 89).2 = "Convertendo para PDF/A-2U...".
Proof.
  destruct (legacy_progress_range processing 89) as (_ & _ & Hprocessing); [lia|].
  destruct (Hprocessing eq_refl) as (_ & _ & _ & Hstage).
  split; [reflexivity|]. apply Hstage. vm_compute. discriminate.
Defined.

(** X18. The convert route of the single-file variant takes a body whose
    original name and input URL are both strings, and nothing else.  It
    then answers 201 with a new pending job without output, which the job
    route gives back under its id; any other body is answered 400 and
    leaves the storage as it was. *)
Theorem legacy_convert_route (now : Z) (name url : option Json) (a : Legacy.App) :
  match name, url with
  | Some (JString original), Some (JString input) =>
      ∃ job,
        (Legacy.convertRoute now name url a).1 = Legacy.JobReply 201 job ∧
        job = {| Legacy.id := Legacy.currentId (Legacy.storage a);
                 Legacy.originalName := original; Legacy.status := pending;
                 Legacy.inputUrl := input; Legacy.outputUrl := None;
                 Legacy.errorMessage := None; Legacy.createdAt := now |} ∧
        Legacy.jobRoute (Some (Legacy.id job)) (Legacy.convertRoute now name url a).2
        = Legacy.JobReply 200 job
  | _, _ =>
      Legacy.convertRoute now name url a
      = (Legacy.MessageReply 400 "Invalid input data", a)
  end.
Proof.
  destruct name as [[| | |original| |]|], url as [[| | |input| |]|]; try reflexivity.
  eexists. split; [reflexivity|]. split; [reflexivity|].
  unfold Legacy.jobRoute, Legacy.getPdfJob. simpl.
  by rewrite lookup_insert_eq.
Qed.

(** ** The serverless variant *)

Lemma api_numbered (st : Api.State) :
  Api.reachable st →
  Api.currentJobId st = Z.of_nat (length (Api.pdfJobs st)) ∧
  ∀ (i : nat) job, Api.pdfJobs st !! i = Some job → Api.id job = Z.of_nat i + 1.
Proof.
  induction 1 as [|now name url st _ [IHn IHj]|jobId st _ [IHn IHj]
                  |n made st st' _ [IHn IHj] Hfire].
  - split; [reflexivity|]. intros i job Hjob. simpl in Hjob. by destruct i.
  - unfold Api.createPdfJob.
    destruct name as [name|]; [|done]. destruct (truthy name); [|done].
    cbn [snd Api.pdfJobs Api.currentJobId]. split.
    + rewrite length_app, IHn. simpl. lia.
    + intros i job Hjob. apply lookup_app_Some in Hjob as [Hjob|[Hlen Hjob]].
      * by apply IHj.
      * apply list_lookup_singleton_Some in Hjob as [Hi <-]. simpl. lia.
  - unfold Api.processPdfJob. destruct jobId as [jobId|]; [|done].
    destruct (Api.find jobId st) as [[i job]|] eqn:Hfind; [|done].
    cbn [snd Api.pdfJobs Api.currentJobId].
    apply list_find_Some in Hfind as (Hi & _ & _).
    split; [by rewrite length_insert|].
    intros i' job' Hjob'. destruct (decide (i = i')) as [<-|Hne].
    + rewrite list_lookup_insert_eq in Hjob' by (by eapply lookup_lt_Some).
      injection Hjob' as <-. simpl. by apply IHj.
    + rewrite list_lookup_insert_ne in Hjob' by done. by apply IHj.
  - unfold Api.timerFires in Hfire.
    destruct (Api.timers st !! n) as [[i jobId]|]; [|done]. injection Hfire as <-.
    cbn [Api.pdfJobs Api.currentJobId]. split; [by rewrite length_alter|].
    intros i' job' Hjob'. destruct (decide (i = i')) as [<-|Hne].
    + rewrite list_lookup_alter, decide_True in Hjob' by done.
      destruct (Api.pdfJobs st !! i) as [job|] eqn:Hjob; simpl in Hjob'; [|done].
      injection Hjob' as <-. specialize (IHj i job Hjob). by destruct made.
    + rewrite list_lookup_alter_ne in Hjob' by done. by apply IHj.
Qed.

(** X21. The jobs of the serverless variant are numbered from 1 in the order in
    which they were created, whatever was processed in between: looking a
    job up by id succeeds exactly for the ids handed out so far, and gives
    the job that sits at that place. *)
Theorem api_jobs_are_numbered (st : Api.State) (jobId : Z) :
  Api.reachable st →
  match Api.find jobId st with
  | Some (i, job) =>
      1 ≤ jobId ≤ Api.currentJobId st ∧
      Z.of_nat i = jobId - 1 ∧
      Api.id job = jobId ∧
      Api.pdfJobs st !! i = Some job
  | None => jobId < 1 ∨ Api.currentJobId st < jobId
  end.
Proof.
  intros Hreach. destruct (api_numbered st Hreach) as [Hn Hj].
  destruct (Api.find jobId st) as [[i job]|] eqn:Hfind.
  - apply list_find_Some in Hfind as (Hi & Hid & _).
    specialize (Hj i job Hi). apply lookup_lt_Some in Hi as Hlt.
    repeat split; try done; lia.
  - destruct (decide (1 ≤ jobId ≤ Api.currentJobId st)) as [Hin|Hout]; [|lia].
    exfalso. apply list_find_None in Hfind.
    destruct (lookup_lt_is_Some_2 (Api.pdfJobs st) (Z.to_nat (jobId - 1))) as [job Hjob];
      [lia|].
    apply (proj1 (Forall_lookup _ _) Hfind _ _ Hjob).
    rewrite (Hj _ _ Hjob). lia.
Qed.

Lemma api_jobs_are_numbered_witness :
  let st := (Api.createPdfJob 1700000000000 (Some (JString "a.pdf")) None Api.init).2 in
  ∃ job, Api.find 1 st = Some (0%nat, job) ∧ Api.id job = 1.
Proof.
  intros st.
  assert (Hreach : Api.reachable st) by apply Api.reach_create, Api.reach_init.
  assert (H := api_jobs_are_numbered st 1 Hreach).
  destruct (Api.find 1 st) as [[i job]|] eqn:Hfind.
  - destruct H as (_ & Hi & Hid & _). exists job. split; [|exact Hid].
    do 2 f_equal. lia.
  - exfalso. vm_compute in Hfind. discriminate.
Defined.

Lemma api_find_last (l : list Api.Job) (job : Api.Job) (data : gmap Z Legacy.Buffer)
    (next : Z) (pending : list (nat * Z)) :
  (∀ (i : nat) y, l !! i = Some y → Api.id y ≠ Api.id job) →
  Api.find (Api.id job)
    {| Api.pdfJobs := l ++ [job]; Api.currentJobId := next;
       Api.pdfDataStore := data; Api.timers := pending |}
  = Some (length l, job).
Proof.
  intros Hfresh. unfold Api.find. cbn [Api.pdfJobs].
  apply list_find_Some. split; [|split; [done|]].
  - rewrite lookup_app_r by lia. by rewrite Nat.sub_diag.
  - intros j y Hy Hlt. rewrite lookup_app_l in Hy by done. by apply (Hfresh j).
Qed.

(** X22. The serverless flow for a job that has just been created.  Any body
    whose original name is truthy creates a job, under the next number.
    The process handler then starts it, and until the timer fires the
    download is refused with 400.  When the sample PDF can be made the job
    is completed and shown at 100 percent.  The download then sends the
    PDF if the original name was a string and the file name made of it can
    stand in a header, and fails with 500 if the name was any other value
    or the file name cannot; when the sample cannot be made the job is
    failed with "Conversion failed" and the download stays refused. *)
Theorem api_conversion_flow (st : Api.State) (now draw : Z) (name : Json)
    (url : option Json) (made : bool) :
  Api.reachable st →
  truthy name = true →
  let jobId := Api.currentJobId st + 1 in
  let st1 := (Api.createPdfJob now (Some name) url st).2 in
  let st2 := (Api.processPdfJob (Some jobId) st1).2 in
  (∃ job, (Api.createPdfJob now (Some name) url st).1 = Api.JobReply 201 job ∧
          Api.id job = jobId ∧ Api.status job = pending ∧
          Api.originalName job = name) ∧
  (Api.processPdfJob (Some jobId) st1).1 = Api.MessageReply 200 "Processing started" ∧
  Api.downloadPdf (Some jobId) st2
  = Api.MessageReply 400 "PDF conversion not yet completed" ∧
  ∃ st3,
    Api.timerFires (length (Api.timers st)) made st2 = Some st3 ∧
    if made then
      Api.getPdfJobProgress (Some jobId) draw st3
      = Api.ProgressReply jobId completed 100 "Conversão concluída!"
          (Some ("/api/pdf/downloads/" +:+ pretty jobId)) None ∧
      Api.downloadPdf (Some jobId) st3
      = match name with
        | JString original =>
            let filename := Legacy.removeFirst ".pdf" original +:+ "_PDFA.pdf" in
            if validHeaderValue filename
            then Api.PdfReply filename Legacy.SamplePdf
            else Api.MessageReply 500 "Failed to download the converted PDF"
        | _ => Api.MessageReply 500 "Failed to download the converted PDF"
        end
    else
      Api.getPdfJobProgress (Some jobId) draw st3
      = Api.ProgressReply jobId failed 0 "Falha na conversão" None
          (Some "Conversion failed") ∧
      Api.downloadPdf (Some jobId) st3
      = Api.MessageReply 400 "PDF conversion not yet completed".
Proof.
  intros Hreach Htruthy jobId st1 st2.
  destruct (api_numbered st Hreach) as [Hn Hj].
  set (job := {| Api.id := jobId; Api.originalName := name; Api.status := pending;
                 Api.inputUrl := Api.orJson url (JString "local");
                 Api.createdAt := now; Api.outputUrl := None;
                 Api.errorMessage := None |}).
  assert (Hcreate : Api.createPdfJob now (Some name) url st
                    = (Api.JobReply 201 job,
                       {| Api.pdfJobs := Api.pdfJobs st ++ [job];
                          Api.currentJobId := jobId;
                          Api.pdfDataStore := Api.pdfDataStore st;
                          Api.timers := Api.timers st |})).
  { unfold Api.createPdfJob. by rewrite Htruthy. }
  assert (Hfresh : ∀ (i : nat) y, Api.pdfJobs st !! i = Some y → Api.id y ≠ Api.id job).
  { intros i y Hy. rewrite (Hj i y Hy). apply lookup_lt_Some in Hy.
    simpl. unfold jobId. lia. }
  assert (Hat : ∀ (job' : Api.Job) data next pending,
            Api.id job' = jobId →
            Api.find jobId
              {| Api.pdfJobs := <[length (Api.pdfJobs st) := job']>
                                  (Api.pdfJobs st ++ [job]);
                 Api.currentJobId := next; Api.pdfDataStore := data;
                 Api.timers := pending |}
            = Some (length (Api.pdfJobs st), job')).
  { intros job' data next pending Hid.
    assert (Hlist : <[length (Api.pdfJobs st) := job']> (Api.pdfJobs st ++ [job])
                    = Api.pdfJobs st ++ [job']).
    { rewrite insert_app_r_alt by lia. by rewrite Nat.sub_diag. }
    rewrite Hlist, <- Hid. apply api_find_last.
    intros i y Hy. rewrite Hid. by apply (Hfresh i). }
  unfold st2, st1. rewrite Hcreate. cbn [fst snd].
  split; [by exists job|].
  unfold Api.processPdfJob.
  rewrite (api_find_last (Api.pdfJobs st) job _ _ _ Hfresh). cbn [fst snd].
  split; [reflexivity|]. split.
  { unfold Api.downloadPdf. by rewrite Hat. }
  unfold Api.timerFires. cbn [Api.timers].
  rewrite lookup_app_r by lia. rewrite Nat.sub_diag. cbn [lookup list_lookup].
  eexists. split; [reflexivity|].
  cbn [Api.pdfJobs Api.pdfDataStore Api.currentJobId].
  assert (Hlist : ∀ f : Api.Job → Api.Job,
            alter f (length (Api.pdfJobs st))
              (<[length (Api.pdfJobs st) := Api.setStatus processing job]>
                 (Api.pdfJobs st ++ [job]))
            = <[length (Api.pdfJobs st) := f (Api.setStatus processing job)]>
                (Api.pdfJobs st ++ [job])).
  { intros f. rewrite !insert_app_r_alt by lia.
    rewrite alter_app_r_alt by lia. by rewrite Nat.sub_diag. }
  rewrite Hlist.
  destruct made.
  - split.
    + unfold Api.getPdfJobProgress. by rewrite Hat.
    + unfold Api.downloadPdf. rewrite Hat by done.
      cbn [Api.status Api.pdfDataStore Api.originalName Api.setStatus job].
      rewrite bool_decide_false by (intros Hne; by apply Hne).
      rewrite lookup_insert_eq.
      destruct name; try reflexivity.
      cbv zeta. by rewrite validHeaderValue_attachment.
  - split.
    + unfold Api.getPdfJobProgress. by rewrite Hat.
    + unfold Api.downloadPdf. by rewrite Hat.
Qed.

Lemma api_conversion_flow_witness :
  (let st1 := (Api.createPdfJob 1700000000000 (Some (JNumber 5)) None Api.init).2 in
   let st2 := (Api.processPdfJob (Some 1) st1).2 in
   ∃ st3, Api.timerFires 0 true st2 = Some st3 ∧
          Api.downloadPdf (Some 1) st3
          = Api.MessageReply 500 "Failed to download the converted PDF") ∧
  (let st1 := (Api.createPdfJob 1700000000000 (Some (JString "a.pdf")) None
                 Api.init).2 in
   let st2 := (Api.processPdfJob (Some 1) st1).2 in
   ∃ st3, Api.timerFires 0 true st2 = Some st3 ∧
          Api.downloadPdf (Some 1) st3 = Api.PdfReply "a_PDFA.pdf" Legacy.SamplePdf).
Proof.
  split; intros st1 st2.
  - destruct (api_conversion_flow Api.init 1700000000000 0 (JNumber 5) None true)
      as (_ & _ & _ & st3 & Hfire & _ & Hdownload).
    + apply Api.reach_init.
    + reflexivity.
    + exists st3. split; [exact Hfire|exact Hdownload].
  - destruct (api_conversion_flow Api.init 1700000000000 0 (JString "a.pdf") None true)
      as (_ & _ & _ & st3 & Hfire & _ & Hdownload).
    + apply Api.reach_init.
    + reflexivity.
    + exists st3. split; [exact Hfire|exact Hdownload].
Defined.

(** ** The URLs of the serverless variant *)

Lemma isDigit_pretty_N_char (m : N) : Api.isDigit (pretty_N_char m) = true.
Proof. unfold pretty_N_char. by repeat case_match. Qed.

Lemma digit_pretty_N_char (m : N) :
  (m < 10)%N → Z.of_nat (nat_of_ascii (pretty_N_char m)) - 48 = Z.of_N m.
Proof.
  intros Hm.
  assert (m = 0 ∨ m = 1 ∨ m = 2 ∨ m = 3 ∨ m = 4 ∨ m = 5 ∨ m = 6 ∨ m = 7
          ∨ m = 8 ∨ m = 9)%N as Hcases by lia.
  repeat (destruct Hcases as [->|Hcases]; [reflexivity|]). by subst m.
Qed.

(** The digits [pretty] writes for a number, and what [parseInt] reads
    back from them. *)
Lemma pretty_N_go_digits (x : N) :
  ∃ digits : string,
    (∀ acc, pretty_N_go x acc = digits +:+ acc) ∧
    Forall (λ c, Api.isDigit c = true) (String.list_ascii_of_string digits) ∧
    Api.parseDigits digits = Z.of_N x ∧
    ((0 < x)%N → digits ≠ "").
Proof.
  induction (N.lt_wf_0 x) as [x _ IH].
  assert (x = 0 ∨ 0 < x)%N as [->|Hpos] by lia.
  - exists "". split; [done|]. split; [constructor|]. split; [done|]. lia.
  - destruct (IH (x `div` 10)%N) as (digits & Hgo & Hdigits & Hparse & _).
    { by apply N.div_lt. }
    exists (digits +:+ String (pretty_N_char (x `mod` 10)) "").
    split; [|split; [|split]].
    + intros acc. rewrite pretty_N_go_step by done. rewrite Hgo.
      by rewrite <- app_string_assoc.
    + rewrite list_ascii_app. apply Forall_app. split; [done|].
      constructor; [apply isDigit_pretty_N_char|constructor].
    + unfold Api.parseDigits in *. rewrite list_ascii_app, foldl_app, Hparse.
      cbn [String.list_ascii_of_string foldl].
      rewrite digit_pretty_N_char by (by apply N.mod_lt).
      rewrite (N.div_mod x 10) at 3 by done. lia.
    + intros _. by destruct digits.
Qed.

Lemma pretty_digits (n : Z) :
  0 ≤ n →
  pretty n ≠ "" ∧
  Forall (λ c, Api.isDigit c = true) (String.list_ascii_of_string (pretty n)) ∧
  Api.parseDigits (pretty n) = n.
Proof.
  intros Hn. destruct n as [|p|p]; [| |lia].
  - split; [done|]. split; [by repeat constructor|done].
  - change (pretty (Z.pos p)) with (pretty_N_go (N.pos p) "").
    destruct (pretty_N_go_digits (N.pos p)) as (digits & Hgo & Hdigits & Hparse & Hne).
    rewrite Hgo.
    assert (Hnil : digits +:+ "" = digits).
    { clear. induction digits as [|c d IH]; [done|].
      change (String c d +:+ "") with (String c (d +:+ "")). by rewrite IH. }
    rewrite Hnil. split; [apply Hne; lia|]. split; [done|]. by rewrite Hparse.
Qed.

Lemma takeDigits_app (digits rest : string) :
  Forall (λ c, Api.isDigit c = true) (String.list_ascii_of_string digits) →
  (rest = "" ∨ ∃ c tail, rest = String c tail ∧ Api.isDigit c = false) →
  Api.takeDigits (digits +:+ rest) = (digits, rest).
Proof.
  intros Hdigits Hrest. induction digits as [|c digits IH].
  - change ("" +:+ rest) with rest.
    destruct Hrest as [->|(c & tail & -> & Hc)]; [done|].
    cbn [Api.takeDigits]. by rewrite Hc.
  - change (String.list_ascii_of_string (String c digits))
      with (c :: String.list_ascii_of_string digits) in Hdigits.
    apply Forall_cons in Hdigits as [Hc Hdigits].
    change (String c digits +:+ rest) with (String c (digits +:+ rest)).
    cbn [Api.takeDigits]. by rewrite Hc, IH.
Qed.

Lemma includes_app_r (a b sub : string) :
  String.prefix sub b = true → Api.includes (a +:+ b) sub = true.
Proof.
  intros Hb. induction a as [|c a IH].
  - change ("" +:+ b) with b. destruct b; cbn [Api.includes]; by rewrite Hb.
  - change (String c a +:+ b) with (String c (a +:+ b)).
    cbn [Api.includes]. rewrite IH. apply orb_true_r.
Qed.

Lemma prefix_refl_app (a b : string) : String.prefix a (a +:+ b) = true.
Proof.
  induction a as [|c a IH]; [by destruct b|].
  change (String c a +:+ b) with (String c (a +:+ b)).
  cbn [String.prefix]. by destruct (Ascii.ascii_dec c c).
Qed.

Lemma matchHere_digits (before after digits tail : string) :
  digits ≠ "" →
  Forall (λ c, Api.isDigit c = true) (String.list_ascii_of_string digits) →
  (tail = "" ∨ ∃ c rest, tail = String c rest ∧ Api.isDigit c = false) →
  String.prefix after tail = true →
  Api.matchHere before after (before +:+ digits +:+ tail) = Some digits.
Proof.
  intros Hne Hdigits Htail Hafter. unfold Api.matchHere.
  rewrite prefix_refl_app.
  rewrite length_app_string.
  replace (String.length before + String.length (digits +:+ tail)
           - String.length before)%nat
    with (String.length (digits +:+ tail)) by lia.
  rewrite substring_app_r, (takeDigits_app digits tail) by done.
  rewrite Hafter.
  by destruct (String.eqb_spec digits "").
Qed.

Lemma prefix_digit_mismatch (c d : ascii) (pattern rest : string) :
  Api.isDigit c = false → Api.isDigit d = true →
  String.prefix (String c pattern) (String d rest) = false.
Proof.
  intros Hc Hd. cbn [String.prefix].
  destruct (Ascii.ascii_dec c d) as [->|_]; [congruence|done].
Qed.

Lemma includes_digits (digits rest : string) (c : ascii) (pattern : string) :
  Forall (λ c, Api.isDigit c = true) (String.list_ascii_of_string digits) →
  Api.isDigit c = false →
  Api.includes (digits +:+ rest) (String c pattern)
  = Api.includes rest (String c pattern).
Proof.
  intros Hdigits Hc. induction digits as [|d digits IH]; [done|].
  change (String.list_ascii_of_string (String d digits))
    with (d :: String.list_ascii_of_string digits) in Hdigits.
  apply Forall_cons in Hdigits as [Hd Hdigits].
  change (String d digits +:+ rest) with (String d (digits +:+ rest)).
  cbn [Api.includes]. rewrite prefix_digit_mismatch by done. by rewrite IH.
Qed.


Lemma prefix_slash_digit (c d : ascii) (pattern rest : string) :
  Api.isDigit c = false → Api.isDigit d = true →
  String.prefix (String "/" (String c pattern)) (String "/" (String d rest)) = false.
Proof.
  intros Hc Hd. cbn [String.prefix].
  destruct (Ascii.ascii_dec "/" "/"); [|done]. by apply prefix_digit_mismatch.
Qed.

Lemma includes_skip (c : ascii) (rest pattern : string) :
  String.prefix pattern (String c rest) = false →
  Api.includes (String c rest) pattern = Api.includes rest pattern.
Proof. intros Hprefix. cbn [Api.includes]. by rewrite Hprefix. Qed.

Lemma includes_here (s pattern : string) :
  String.prefix pattern s = true → Api.includes s pattern = true.
Proof. intros Hprefix. destruct s; cbn [Api.includes]; by rewrite Hprefix. Qed.

Lemma matchDigits_skip (before after : string) (c : ascii) (rest : string) :
  String.prefix before (String c rest) = false →
  Api.matchDigits before after (String c rest) = Api.matchDigits before after rest.
Proof.
  intros Hprefix. cbn [Api.matchDigits]. unfold Api.matchHere. by rewrite Hprefix.
Qed.

Lemma matchDigits_here (before after s digits : string) :
  Api.matchHere before after s = Some digits →
  Api.matchDigits before after s = Some digits.
Proof. intros Hhere. destruct s; cbn [Api.matchDigits]; by rewrite Hhere. Qed.

Ltac skip_chars :=
  repeat first
    [ rewrite includes_skip
        by first [ vm_compute; reflexivity | by apply prefix_slash_digit ]
    | rewrite matchDigits_skip
        by first [ vm_compute; reflexivity | by apply prefix_slash_digit ] ].


Lemma app_string_nil (a : string) : a +:+ "" = a.
Proof.
  induction a as [|c a IH]; [done|].
  change (String c a +:+ "") with (String c (a +:+ "")). by rewrite IH.
Qed.



Ltac scan_url :=
  skip_chars;
  first
    [ apply includes_here; vm_compute; reflexivity
    | rewrite includes_digits by done; vm_compute; reflexivity ].

(** X23. The URLs the clients build reach the handler they are meant for,
    with the id they carry: for every id that a JavaScript number holds
    exactly (from 0 to 2^53 - 1), the default handler of the serverless
    variant finds the number that was written into the path of the process,
    the progress and the download routes, and passes a POST to the convert
    path on to [createPdfJob].  This holds in particular for the output URL
    a completed job is given. *)
Theorem api_urls_reach_their_handlers (st : Api.State) (now draw : Z)
    (name inputUrl : option Json) (n : Z) :
  0 ≤ n ≤ 9007199254740991 →
  Api.handler now draw "POST" ("/api/pdf/jobs/" +:+ pretty n +:+ "/process")
    name inputUrl st
  = Api.processPdfJob (Some n) st ∧
  Api.handler now draw "GET" ("/api/pdf/jobs/" +:+ pretty n +:+ "/progress")
    name inputUrl st
  = (Api.getPdfJobProgress (Some n) draw st, st) ∧
  Api.handler now draw "GET" ("/api/pdf/downloads/" +:+ pretty n) name inputUrl st
  = (Api.downloadPdf (Some n) st, st) ∧
  Api.handler now draw "POST" "/api/pdf/convert" name inputUrl st
  = Api.createPdfJob now name inputUrl st.
Proof.
  intros [Hn _]. destruct (pretty_digits n Hn) as (Hne & Hdigits & Hparse).
  destruct (pretty n) as [|d digits] eqn:Hpretty; [done|].
  assert (Hd : Api.isDigit d = true).
  { change (String.list_ascii_of_string (String d digits))
      with (d :: String.list_ascii_of_string digits) in Hdigits.
    by apply Forall_cons in Hdigits as [Hd _]. }
  assert (Hjobs : ∀ suffix,
            "/api/pdf/jobs/" +:+ String d digits +:+ suffix = String "/" (String "a" (String "p" (String "i" (String "/" (String "p" (String "d" (String "f" (String "/" (String "j" (String "o" (String "b" (String "s" (String "/" (String d digits +:+ suffix)))))))))))))))
    by reflexivity.
  assert (Hdownloads :
            "/api/pdf/downloads/" +:+ String d digits = String "/" (String "a" (String "p" (String "i" (String "/" (String "p" (String "d" (String "f" (String "/" (String "d" (String "o" (String "w" (String "n" (String "l" (String "o" (String "a" (String "d" (String "s" (String "/" (String d digits +:+ ""))))))))))))))))))))
    by (by rewrite app_string_nil).
  assert (Hmatch : ∀ after suffix,
            (suffix = "" ∨ ∃ c rest, suffix = String c rest ∧ Api.isDigit c = false) →
            String.prefix after suffix = true →
            Api.matchDigits "/pdf/jobs/" after
              ("/api/pdf/jobs/" +:+ String d digits +:+ suffix)
            = Some (String d digits)).
  { intros after suffix Hsuffix Hafter.
    change ("/api/pdf/jobs/" +:+ String d digits +:+ suffix)
      with (String "/" (String "a" (String "p" (String "i"
              ("/pdf/jobs/" +:+ String d digits +:+ suffix))))).
    skip_chars. by apply matchDigits_here, matchHere_digits. }
  assert (Hmatch' :
            Api.matchDigits "/pdf/downloads/" ""
              ("/api/pdf/downloads/" +:+ String d digits)
            = Some (String d digits)).
  { rewrite <- (app_string_nil (String d digits)) at 1.
    change ("/api/pdf/downloads/" +:+ String d digits +:+ "")
      with (String "/" (String "a" (String "p" (String "i"
              ("/pdf/downloads/" +:+ String d digits +:+ ""))))).
    skip_chars. apply matchDigits_here, matchHere_digits; by auto. }
  assert (Hconvert : ∀ suffix,
            suffix = "/process" ∨ suffix = "/progress" →
            Api.includes ("/api/pdf/jobs/" +:+ String d digits +:+ suffix)
              "/pdf/convert" = false).
  { intros suffix [-> | ->]; rewrite Hjobs; scan_url. }
  assert (Hprefix : ∀ suffix,
            Api.includes ("/api/pdf/jobs/" +:+ String d digits +:+ suffix)
              "/pdf/jobs/" = true).
  { intros suffix. rewrite Hjobs. scan_url. }
  assert (Hprocess :
            Api.includes ("/api/pdf/jobs/" +:+ String d digits +:+ "/process")
              "/process" = true).
  { rewrite Hjobs. scan_url. }
  assert (Hprogress :
            Api.includes ("/api/pdf/jobs/" +:+ String d digits +:+ "/progress")
              "/progress" = true).
  { rewrite Hjobs. scan_url. }
  assert (Hother :
            Api.includes ("/api/pdf/downloads/" +:+ String d digits)
              "/pdf/jobs/" = false).
  { rewrite Hdownloads. scan_url. }
  assert (Hdownload :
            Api.includes ("/api/pdf/downloads/" +:+ String d digits)
              "/pdf/downloads/" = true).
  { rewrite Hdownloads. scan_url. }
  split; [|split; [|split]].
  - unfold Api.handler.
    rewrite Hconvert, Hprefix, Hprocess by auto.
    change (String.eqb "POST" "POST") with true. cbn [andb].
    rewrite Hmatch by (first [by eauto | reflexivity]).
    by rewrite Hparse.
  - unfold Api.handler.
    rewrite Hprefix, Hprogress.
    change (String.eqb "GET" "POST") with false.
    change (String.eqb "GET" "GET") with true. cbn [andb].
    rewrite Hmatch by (first [by eauto | reflexivity]).
    by rewrite Hparse.
  - unfold Api.handler.
    rewrite Hother, Hdownload.
    change (String.eqb "GET" "POST") with false.
    change (String.eqb "GET" "GET") with true. cbn [andb].
    rewrite Hmatch'. by rewrite Hparse.
  - reflexivity.
Qed.

Lemma api_urls_reach_their_handlers_witness :
  Api.handler 0 0 "POST" "/api/pdf/jobs/12/process" None None Api.init
  = Api.processPdfJob (Some 12) Api.init ∧
  Api.handler 0 0 "GET" "/api/pdf/downloads/12" None None Api.init
  = (Api.downloadPdf (Some 12) Api.init, Api.init).
Proof.
  destruct (api_urls_reach_their_handlers Api.init 0 0 None None 12)
    as (Hprocess & _ & Hdownload & _); [lia|].
  split; [exact Hprocess | exact Hdownload].
Defined.

(** ** When a conversion succeeds *)

Lemma run_outcome_in (w : World) (fileId : Z) {A : Type} (t : Task A)
    (Q : Result A → Prop) :
  reports_only fileId t → outcome_in w t Q →
  ∀ s f, files s !! fileId = Some f → Q (run w t s).1.
Proof.
  induction t as [A a|A m|A op k IHk h IHh|A child _ k IHk];
    intros Hrep Hout s f Hf.
  - exact Hout.
  - exact Hout.
  - destruct Hrep as (Hop & Hk & Hh). simpl in Hout.
    destruct Hop as [Hworld|[[p ->] Hconst]].
    + rewrite Hworld in Hout.
      destruct (run_world_op w op s Hworld) as [Hstore Hres].
      simpl run. destruct (run_op w op s) as [r s'] eqn:Hrun.
      simpl in Hstore, Hres. subst s'. rewrite <- Hres in Hout.
      destruct r as [r|e];
        [by apply (IHk r Q (Hk r) Hout s f)|by apply (IHh e Q (Hh e) Hout s f)].
    + simpl in Hout. simpl run. simpl run_op.
      rewrite (updatePdfFile_present _ _ f s Hf). cbv beta iota.
      eapply IHk; [apply Hk|apply Hout|]. simpl. apply lookup_insert_eq.
  - destruct Hrep.
Qed.

(** X11. What decides whether a conversion succeeds.  Ghostscript and the
    PDFKit document are never reached, because the block that holds them
    begins by reading [__dirname]: the output is the copy of the input,
    which is what OCRmyPDF left when it was asked for, ran and left a file,
    and the uploaded file otherwise.  The conversion succeeds exactly when
    this copy can be made and the output can then be read; the result
    carries the size of the output file, is marked PDF/A, and carries the
    OCR option as it was asked. *)
Theorem conversion_by_copy (w : World) (options : ConversionOptions)
    (file f : PdfFile.t) (s : MemStorage) :
  files s !! PdfFile.id file = Some f →
  let uploaded := default "" (PdfFile.storagePath file) in
  let name := generatePdfaFilename (PdfFile.originalName file) in
  let output := path_join outputDir name in
  let ocrTemp := path_join outputDir ("ocr_temp_" +:+ pretty (now w) +:+ ".pdf") in
  let input :=
    if applyOcr options && exec_ok w OcrMyPdf uploaded ocrTemp && existsSync w ocrTemp
    then ocrTemp else uploaded in
  conversion w options file s
  = if copyFileSync_ok w input output then
      match statSync w output with
      | Some size =>
          Ok {| pr_convertedName := name; pr_convertedSize := size;
                pr_outputPath := output; pr_isPdfA := true;
                pr_hasOcr := applyOcr options |}
      | None => Thrown "Falha ao processar o arquivo PDF"
      end
    else Thrown "Falha ao processar o arquivo PDF".
Proof.
  intros Hf uploaded name output ocrTemp input.
  assert (Hrep := reports_only_processFile (PdfFile.id file) uploaded
                    (PdfFile.originalName file) outputDir options).
  set (answer := if copyFileSync_ok w input output then _ else _).
  apply (λ H, run_outcome_in w (PdfFile.id file) _ (λ r, r = answer) Hrep H s f Hf).
  subst answer input.
  destruct options as [[] [] []]; unfold processFile, dirname.
  all: cbn -[path_join generatePdfaFilename pretty outputDir].
  all: fold uploaded; fold name; fold output; fold ocrTemp.
  all: repeat first
         [ reflexivity
         | match goal with
           | |- ∀ _, _ => intros ?
           | |- context [exec_ok ?w' OcrMyPdf ?a ?b] =>
               destruct (exec_ok w' OcrMyPdf a b); cbn [okOrThrow andb]
           | |- context [existsSync ?w' ?p] =>
               destruct (existsSync w' p); cbn [andb]
           | |- context [copyFileSync_ok ?w' ?a ?b] =>
               destruct (copyFileSync_ok w' a b); cbn [okOrThrow]
           | |- context [statSync ?w' ?p] => destruct (statSync w' p)
           end ].
Qed.

Lemma conversion_by_copy_witness :
  conversion brokenWorld defaultOptions uploadedFile uploadedStore
  = Thrown "Falha ao processar o arquivo PDF" ∧
  conversion fallbackWorld defaultOptions uploadedFile uploadedStore
  = Ok {| pr_convertedName := "a_PDFA2u.pdf"; pr_convertedSize := 2048;
          pr_outputPath := "tmp/converted/a_PDFA2u.pdf";
          pr_isPdfA := true; pr_hasOcr := true |}.
Proof.
  assert (Hf : files uploadedStore !! PdfFile.id uploadedFile = Some uploadedFile)
    by reflexivity.
  split.
  - exact (conversion_by_copy brokenWorld defaultOptions uploadedFile uploadedFile
             uploadedStore Hf).
  - exact (conversion_by_copy fallbackWorld defaultOptions uploadedFile uploadedFile
             uploadedStore Hf).
Defined.

(** ** More on the store *)

(** X1. A job that has just been created has the status and the options it was
    given, the creation date of the moment and no completion date.  Its id
    is new: no job of the store had it, and the next job gets the id after
    it.  The job is in the store under its id, and no other job and no file
    has changed. *)
Theorem createPdfJob_initial_state (now : Z) (job : InsertPdfJob.t) (s : MemStorage) :
  storage_reachable s →
  let newJob := (createPdfJob now job s).1 in
  let s' := (createPdfJob now job s).2 in
  PdfJob.status newJob = InsertPdfJob.status job ∧
  PdfJob.options newJob = InsertPdfJob.options job ∧
  PdfJob.createdAt newJob = now ∧
  PdfJob.completedAt newJob = None ∧
  getPdfJob (PdfJob.id newJob) s = None ∧
  getPdfJob (PdfJob.id newJob) s' = Some newJob ∧
  (∀ k, k ≠ PdfJob.id newJob → getPdfJob k s' = getPdfJob k s) ∧
  files s' = files s ∧
  (∀ now' job', PdfJob.id (createPdfJob now' job' s').1 = PdfJob.id newJob + 1).
Proof.
  intros Hreach newJob s'.
  destruct (reachable_ids_below_counters s Hreach) as [Hbelow _].
  subst newJob s'. unfold getPdfJob. simpl.
  do 4 (split; [reflexivity|]).
  split.
  { destruct (jobs s !! jobCurrentId s) eqn:Hlook; [|done].
    exfalso. assert (jobCurrentId s < jobCurrentId s); [|lia].
    apply Hbelow. by eexists. }
  split; [apply lookup_insert_eq|].
  split; [|done].
  intros k Hk. by apply lookup_insert_ne.
Qed.

Lemma createPdfJob_initial_state_witness :
  let s := (createPdfJob 1 {| InsertPdfJob.status := pending;
                              InsertPdfJob.options := defaultOptions |}
              newMemStorage).2 in
  let newJob := (createPdfJob 2 {| InsertPdfJob.status := pending;
                                   InsertPdfJob.options := defaultOptions |} s).1 in
  PdfJob.id newJob = 2 ∧ getPdfJob 2 s = None ∧ PdfJob.completedAt newJob = None.
Proof.
  intros s newJob.
  assert (Hreach : storage_reachable s) by apply reach_createPdfJob, reach_new.
  destruct (createPdfJob_initial_state 2
              {| InsertPdfJob.status := pending; InsertPdfJob.options := defaultOptions |}
              s Hreach) as (_ & _ & _ & Hdate & Hfresh & _).
  split; [reflexivity|]. split; [exact Hfresh|exact Hdate].
Defined.

Lemma mapEntries_insert_last {A : Type} (m : gmap Z A) (k : Z) (a : A) :
  (∀ k', is_Some (m !! k') → k' < k) →
  mapEntries (<[k := a]> m) = mapEntries m ++ [(k, a)].
Proof.
  intros Hbelow.
  assert (Hfresh : m !! k = None).
  { destruct (m !! k) eqn:Hk; [|done]. exfalso.
    assert (k < k); [|lia]. apply Hbelow. by eexists. }
  apply (StronglySorted_unique_strong (λ x y : Z * A, x.1 < y.1)).
  - intros x y _ _ Hxy Hyx. lia.
  - apply mapEntries_sorted.
  - apply StronglySorted_app_2.
    + intros [k' a'] x Hin Hx. apply list_elem_of_singleton in Hx as ->.
      apply elem_of_mapEntries in Hin. simpl. apply Hbelow. by eexists.
    + apply mapEntries_sorted.
    + repeat constructor.
  - rewrite !mapEntries_Permutation, (map_to_list_insert m k a Hfresh).
    by rewrite Permutation_cons_append.
Qed.

(** X2. Listing the files of a job after a file has been created: the new file
    is listed for its own job, once, after the files that were listed
    before, which keep their order; the listings of all other jobs are
    what they were. *)
Theorem getPdfFilesByJobId_after_create (file : InsertPdfFile.t) (s : MemStorage)
    (jobId : Z) :
  storage_reachable s →
  let newFile := (createPdfFile file s).1 in
  let s' := (createPdfFile file s).2 in
  getPdfFilesByJobId jobId s'
  = getPdfFilesByJobId jobId s
    ++ (if decide (InsertPdfFile.jobId file = jobId) then [newFile] else []).
Proof.
  intros Hreach newFile s'.
  destruct (reachable_ids_below_counters s Hreach) as [_ Hbelow].
  unfold getPdfFilesByJobId. subst s'. cbn [files createPdfFile snd].
  rewrite (mapEntries_insert_last (files s) (fileCurrentId s)) by exact Hbelow.
  rewrite fmap_app, filter_app. reflexivity.
Qed.

Lemma getPdfFilesByJobId_after_create_witness :
  let s := (createPdfJob 1 {| InsertPdfJob.status := pending;
                              InsertPdfJob.options := defaultOptions |}
              newMemStorage).2 in
  getPdfFilesByJobId 1 (createPdfFile (insertFile 1 (stored smallPdf)) s).2
  = [uploadedFile].
Proof.
  intros s.
  assert (Hreach : storage_reachable s) by apply reach_createPdfJob, reach_new.
  exact (getPdfFilesByJobId_after_create (insertFile 1 (stored smallPdf)) s 1 Hreach).
Defined.

(** ** The orchestrator on records that are missing *)

(** X13. The two ways in which [processJob] meets a record that is not there.
    For a job that is not in the store it throws "Job with id ... not
    found" and changes nothing: its [catch] block fails on the same
    update.  For a job that is there and a first file whose record is not,
    it ends in its [catch] block: the job is set to failed, without a
    completion date being written, and the rest of the list is never
    processed. *)
Theorem processJob_on_missing_records (w : World) (s : MemStorage) (jobId : Z)
    (file : PdfFile.t) (rest : list PdfFile.t) :
  (jobs s !! jobId = None →
   run w (processJob jobId (file :: rest)) s
   = (Thrown ("Job with id " +:+ pretty jobId +:+ " not found"), s)) ∧
  (∀ job,
     jobs s !! jobId = Some job →
     files s !! PdfFile.id file = None →
     run w (processJob jobId (file :: rest)) s
     = (Ok tt,
        setJob jobId
          {| PdfJob.id := PdfJob.id job; PdfJob.status := failed;
             PdfJob.createdAt := PdfJob.createdAt job;
             PdfJob.completedAt := PdfJob.completedAt job;
             PdfJob.options := PdfJob.options job |} s)).
Proof.
  split.
  - intros Hnone. unfold processJob.
    rewrite run_try_catch, run_seq, run_call. simpl run_op.
    unfold updatePdfJob. rewrite Hnone. cbv beta iota.
    rewrite run_seq, run_call. simpl run_op.
    unfold updatePdfJob. by rewrite Hnone.
  - intros job Hjob Hfile. unfold processJob.
    rewrite run_try_catch, run_seq, run_call. simpl run_op.
    rewrite (updatePdfJob_present _ _ job s Hjob). cbv beta iota.
    rewrite run_seq, forEach_cons, run_seq.
    unfold processOne at 1. rewrite run_seq, run_call. simpl run_op.
    unfold updatePdfFile. cbn [files setJob]. rewrite Hfile. cbv beta iota.
    rewrite run_seq, run_call. simpl run_op.
    erewrite updatePdfJob_present by apply lookup_insert_eq. cbv beta iota.
    unfold setJob. cbn. by rewrite insert_insert_eq.
Qed.

Lemma processJob_on_missing_records_witness :
  run fallbackWorld (processJob 7 [uploadedFile]) uploadedStore
  = (Thrown "Job with id 7 not found", uploadedStore).
Proof.
  destruct (processJob_on_missing_records fallbackWorld uploadedStore 7 uploadedFile [])
    as [Hmissing _].
  apply Hmissing. reflexivity.
Defined.

(** A few requests through the default handler, on a state without jobs:
    the progress and download routes are reached for a numbered URL with
    the right method, and nothing else is. *)
Lemma api_handler_examples :
  (Api.handler 0 0 "GET" "/api/pdf/jobs/12/progress" None None Api.init).1
  = Api.MessageReply 404 "PDF job not found" ∧
  (Api.handler 0 0 "GET" "/api/pdf/jobs/x/progress" None None Api.init).1
  = Api.MessageReply 404 "Not Found" ∧
  (Api.handler 0 0 "POST" "/api/pdf/jobs/12/progress" None None Api.init).1
  = Api.MessageReply 404 "Not Found" ∧
  (Api.handler 0 0 "GET" "/api/pdf/downloads/3" None None Api.init).1
  = Api.MessageReply 404 "PDF job not found" ∧
  (Api.handler 0 0 "POST" "/api/pdf/convert" (Some (JString "a.pdf")) None Api.init).1
  = Api.JobReply 201
      {| Api.id := 1; Api.originalName := JString "a.pdf"; Api.status := pending;
         Api.inputUrl := JString "local"; Api.createdAt := 0;
         Api.outputUrl := None; Api.errorMessage := None |} ∧
  Api.matchDigits "/pdf/jobs/" "/process" "/api/pdf/jobs/12/process" = Some "12" ∧
  Api.parseDigits "12" = 12 ∧
  Legacy.removeFirst ".pdf" "my.pdf.scan.pdf" = "my.scan.pdf".
Proof. repeat split; vm_compute; reflexivity. Qed.
